(** * Quiz-competition backend: a shallow embedding of [server.js]

    The Express handlers of [server.js] are embedded as pure functions over
    an explicit server state (the relational tables reached through [pool]
    and the in-memory [sessions] object).  Every handler returns the new
    state together with what was sent to the client. *)

From Stdlib Require Import ZArith String Ascii List.
From stdpp Require Import base option list gmap strings pretty sorting.

Set Warnings "-register-all".

Local Open Scope string_scope.
Local Open Scope Z_scope.

(** ** JavaScript values and primitives *)

Module Js.

(** Values that travel through [JSON.parse] and [res.json].  Numbers are
    the integers the handlers deal with (row ids, counts, scores), taken
    as exact. *)
Inductive json : Type :=
| JNull
| JBool (b : bool)
| JNum (n : Z)
| JStr (s : string)
| JArr (items : list json)
| JObj (fields : list (string * json)).

(** [Boolean(v)] on a value that is present.  [undefined] is modelled by
    [None] at the places where a property can be absent. *)
Definition truthy (v : json) : bool :=
  match v with
  | JNull => false
  | JBool b => b
  | JNum n => negb (n =? 0)
  | JStr s => negb (String.eqb s EmptyString)
  | JArr _ | JObj _ => true
  end.

(** [v === s] where [s] is a string. *)
Definition strict_eq_string (v : json) (s : string) : bool :=
  match v with
  | JStr t => String.eqb t s
  | _ => false
  end.

(** [!s] for a string. *)
Definition falsy_string (s : string) : bool := String.eqb s EmptyString.

(** The keys of an object literal, in insertion order. *)
Definition keys (v : json) : list string :=
  match v with
  | JObj fields => map fst fields
  | _ => []
  end.

(** [s.split(',')]: always at least one token; two adjacent commas, a
    leading or a trailing comma give an empty token. *)
Fixpoint split (s : string) : list string :=
  match s with
  | EmptyString => [EmptyString]
  | String c rest =>
      if Ascii.eqb c ","%char then EmptyString :: split rest
      else match split rest with
           | tok :: toks => String c tok :: toks
           | [] => [String c EmptyString]
           end
  end.

(** White space skipped by [parseInt] (StrWhiteSpaceChar), for code units
    below 256: TAB, LF, VT, FF, CR, SP and NBSP. *)
Definition is_white_space (c : ascii) : bool :=
  let n := Z.of_nat (nat_of_ascii c) in
  ((9 <=? n) && (n <=? 13)) || (n =? 32) || (n =? 160).

Fixpoint trim_start (s : string) : string :=
  match s with
  | String c rest => if is_white_space c then trim_start rest else s
  | EmptyString => EmptyString
  end.

(** The value of a code unit as a digit, whatever the radix. *)
Definition digit_value (c : ascii) : option Z :=
  let n := Z.of_nat (nat_of_ascii c) in
  if (48 <=? n) && (n <=? 57) then Some (n - 48)
  else if (97 <=? n) && (n <=? 122) then Some (n - 87)
  else if (65 <=? n) && (n <=? 90) then Some (n - 55)
  else None.

Definition radix_digit (radix : Z) (c : ascii) : option Z :=
  match digit_value c with
  | Some d => if d <? radix then Some d else None
  | None => None
  end.

(** Reads the longest prefix of radix-[radix] digits; [acc] is the value
    of the digits read so far. *)
Fixpoint read_digits (radix : Z) (acc : Z) (s : string) : Z :=
  match s with
  | String c rest =>
      match radix_digit radix c with
      | Some d => read_digits radix (acc * radix + d) rest
      | None => acc
      end
  | EmptyString => acc
  end.

Definition starts_with_digit (radix : Z) (s : string) : bool :=
  match s with
  | String c _ => bool_decide (is_Some (radix_digit radix c))
  | EmptyString => false
  end.

(** The sign step of [parseInt]: a leading [-] or [+] is consumed. *)
Definition strip_sign (s : string) : Z * string :=
  match s with
  | String c rest =>
      if Ascii.eqb c "-" then (-1, rest)
      else if Ascii.eqb c "+" then (1, rest)
      else (1, s)
  | EmptyString => (1, s)
  end.

(** The radix step of [parseInt] called without a radix: 16 after a
    leading [0x] or [0X], which is consumed, and 10 otherwise. *)
Definition strip_prefix (s : string) : Z * string :=
  match s with
  | String c1 (String c2 rest) =>
      if Ascii.eqb c1 "0" && (Ascii.eqb c2 "x" || Ascii.eqb c2 "X")
      then (16, rest)
      else (10, s)
  | _ => (10, s)
  end.

(** [parseInt(s)] with no radix argument; [None] is [NaN].  Steps as in
    ECMA-262: trim, sign, optional [0x] prefix, longest digit prefix.
    The result is the exact integer: the rounding of integers beyond
    2^53 to a double is not modelled (it never turns a non-zero value
    into zero or [NaN]). *)
Definition parseInt (s : string) : option Z :=
  let '(sign, s2) := strip_sign (trim_start s) in
  let '(radix, s3) := strip_prefix s2 in
  if starts_with_digit radix s3
  then Some (sign * read_digits radix 0 s3)
  else None.

(** The token has a decimal digit somewhere. *)
Definition is_decimal_digit (c : ascii) : bool :=
  let n := Z.of_nat (nat_of_ascii c) in (48 <=? n) && (n <=? 57).

Fixpoint has_decimal_digit (s : string) : bool :=
  match s with
  | String c rest => is_decimal_digit c || has_decimal_digit rest
  | EmptyString => false
  end.

(** The string is made of decimal digits only. *)
Fixpoint all_digits (s : string) : bool :=
  match s with
  | String c rest => is_decimal_digit c && all_digits rest
  | EmptyString => true
  end.

(** [Boolean(n)] for a number: [NaN] and zero are falsy. *)
Definition truthy_number (n : option Z) : bool :=
  match n with
  | Some z => negb (z =? 0)
  | None => false
  end.

(** The names of the properties that a plain object ([{}]) inherits from
    [Object.prototype]: eleven functions and the accessor [__proto__],
    which gives the prototype object.  Read on a plain object, each of them
    is truthy, and none of these values has a property [userId] or
    [role]. *)
Definition Object_prototype : list string :=
  ["constructor"; "__defineGetter__"; "__defineSetter__"; "hasOwnProperty";
   "__lookupGetter__"; "__lookupSetter__"; "isPrototypeOf";
   "propertyIsEnumerable"; "toString"; "valueOf"; "__proto__";
   "toLocaleString"].

(** [tokens.map(id => parseInt(id)).filter(Boolean)] *)
Definition filter_Boolean_numbers (l : list (option Z)) : list Z :=
  omap (λ n, if truthy_number n then n else None) l.

End Js.


(** ** The relational store

    The three tables behind [pool.query].  A table is the list of its rows;
    a [SELECT] without [ORDER BY] returns the matching rows in table order
    (the theorems that depend on row order quantify over it). *)

Module Users.
Record row := {
  id : Z;
  full_name : string;
  email : string;
  password_hash : string;
  role : string;
  quiz_status : string }.

Definition set_quiz_status (v : string) (u : row) : row :=
  {| id := id u; full_name := full_name u; email := email u;
     password_hash := password_hash u; role := role u; quiz_status := v |}.
End Users.

Module Questions.
Record row := {
  id : Z;
  question_text : string;
  option_a : string;
  option_b : string;
  option_c : string;
  option_d : string;
  correct_option : string }.

(** A row of [SELECT id,question_text,option_a,option_b,option_c,option_d]. *)
Record view := {
  v_id : Z;
  v_question_text : string;
  v_option_a : string;
  v_option_b : string;
  v_option_c : string;
  v_option_d : string }.

Definition to_view (q : row) : view :=
  {| v_id := id q; v_question_text := question_text q;
     v_option_a := option_a q; v_option_b := option_b q;
     v_option_c := option_c q; v_option_d := option_d q |}.
End Questions.

Module Attempts.
(** [user_id] is [None] for NULL: the parameter of the [INSERT] is
    [req.userId], which can be [undefined]. *)
Record row := {
  id : Z;
  user_id : option Z;
  shuffled_questions : list Z;
  status : string;
  score : option Z;
  created_at : Z;
  end_time : option Z }.

(** [SET score=$1,status=$2,end_time=NOW()] *)
Definition complete (new_score now : Z) (a : row) : row :=
  {| id := id a; user_id := user_id a;
     shuffled_questions := shuffled_questions a;
     status := "completed"; score := Some new_score;
     created_at := created_at a; end_time := Some now |}.
End Attempts.

Module Store.

(** Modelled from the spec: the table definitions are not part of the
    sources.  Row ids are serial keys drawn from one sequence per table,
    [users.email] is unique and [attempts.created_at] defaults to the
    time of insertion.  Neither the sources nor the spec constrain
    [attempts.user_id]: it is taken to accept NULL, which is what a
    parameter that is [undefined] is sent as. *)
Record database := {
  users : list Users.row;
  questions : list Questions.row;
  attempts : list Attempts.row;
  users_seq : Z;
  questions_seq : Z;
  attempts_seq : Z }.

Definition with_users (us : list Users.row) (db : database) : database :=
  {| users := us; questions := questions db; attempts := attempts db;
     users_seq := users_seq db; questions_seq := questions_seq db;
     attempts_seq := attempts_seq db |}.

Definition with_attempts (ats : list Attempts.row) (db : database) : database :=
  {| users := users db; questions := questions db; attempts := ats;
     users_seq := users_seq db; questions_seq := questions_seq db;
     attempts_seq := attempts_seq db |}.

(** [SELECT id,password_hash,role,quiz_status FROM "users" WHERE email=$1] *)
Definition select_user_by_email (e : string) (db : database) : list Users.row :=
  filter (λ u, Users.email u = e) (users db).

(** [INSERT INTO "users" (...) VALUES ($1,$2,$3,$4,$5)]; [None] is the
    unique violation 23505 on the email. *)
Definition insert_user (name e hash r qs : string) (db : database)
  : option database :=
  if bool_decide (e ∈ map Users.email (users db)) then None
  else Some
    {| users := users db ++
         [{| Users.id := users_seq db; Users.full_name := name;
             Users.email := e; Users.password_hash := hash;
             Users.role := r; Users.quiz_status := qs |}];
       questions := questions db; attempts := attempts db;
       users_seq := users_seq db + 1; questions_seq := questions_seq db;
       attempts_seq := attempts_seq db |}.

(** [UPDATE "users" SET quiz_status=$1 WHERE id=$2]; no row has
    [id = NULL]. *)
Definition update_quiz_status (v : string) (uid : option Z) (db : database)
  : database :=
  with_users
    (map (λ u, if bool_decide (Some (Users.id u) = uid)
               then Users.set_quiz_status v u else u) (users db)) db.

(** [INSERT INTO "questions" (...) VALUES ($1,$2,$3,$4,$5,$6)] *)
Definition insert_question (text a b c d correct : string) (db : database)
  : database :=
  {| users := users db;
     questions := questions db ++
       [{| Questions.id := questions_seq db; Questions.question_text := text;
           Questions.option_a := a; Questions.option_b := b;
           Questions.option_c := c; Questions.option_d := d;
           Questions.correct_option := correct |}];
     attempts := attempts db;
     users_seq := users_seq db; questions_seq := questions_seq db + 1;
     attempts_seq := attempts_seq db |}.

(** [DELETE FROM "questions" WHERE id=$1] *)
Definition delete_question (qid : Z) (db : database) : database :=
  {| users := users db;
     questions := filter (λ q, Questions.id q ≠ qid) (questions db);
     attempts := attempts db;
     users_seq := users_seq db; questions_seq := questions_seq db;
     attempts_seq := attempts_seq db |}.

(** [SELECT * FROM "questions" ORDER BY id DESC] *)
Definition id_desc (q1 q2 : Questions.row) : Prop :=
  Questions.id q2 ≤ Questions.id q1.

#[global] Instance id_desc_dec q1 q2 : Decision (id_desc q1 q2).
Proof. unfold id_desc. apply _. Defined.

Definition select_questions_desc (db : database) : list Questions.row :=
  merge_sort id_desc (questions db).

(** [SELECT id,question_text,option_a,option_b,option_c,option_d
     FROM "questions" WHERE id IN (...)] *)
Definition select_views (ids : list Z) (db : database) : list Questions.view :=
  map Questions.to_view
    (filter (λ q, Questions.id q ∈ ids) (questions db)).

(** [SELECT id,correct_option FROM "questions" WHERE id IN (...)] *)
Definition select_correct (ids : list Z) (db : database) : list (Z * string) :=
  map (λ q, (Questions.id q, Questions.correct_option q))
    (filter (λ q, Questions.id q ∈ ids) (questions db)).

(** [INSERT INTO "attempts" ("user_id","shuffled_questions","status")
     VALUES ($1,$2,$3) RETURNING id] *)
Definition insert_attempt (uid : option Z) (ids : list Z) (st : string)
    (now : Z) (db : database) : database * Z :=
  ({| users := users db; questions := questions db;
      attempts := attempts db ++
        [{| Attempts.id := attempts_seq db; Attempts.user_id := uid;
            Attempts.shuffled_questions := ids; Attempts.status := st;
            Attempts.score := None; Attempts.created_at := now;
            Attempts.end_time := None |}];
      users_seq := users_seq db; questions_seq := questions_seq db;
      attempts_seq := attempts_seq db + 1 |},
   attempts_seq db).

(** [column = $n] on a column that can be NULL: true of no row when the
    column or the parameter is NULL. *)
Definition sql_eq (column param : option Z) : Prop :=
  is_Some param ∧ column = param.

#[global] Instance sql_eq_dec column param : Decision (sql_eq column param).
Proof. unfold sql_eq. apply _. Defined.

(** [SELECT shuffled_questions FROM "attempts"
     WHERE id=$1 AND user_id=$2 AND status=$3] *)
Definition select_attempt (aid : Z) (uid : option Z) (st : string)
    (db : database) : list Attempts.row :=
  filter (λ a, Attempts.id a = aid ∧ sql_eq (Attempts.user_id a) uid
               ∧ Attempts.status a = st) (attempts db).

(** [UPDATE "attempts" SET score=$1,status=$2,end_time=NOW() WHERE id=$3] *)
Definition complete_attempt (new_score : Z) (aid now : Z) (db : database)
  : database :=
  with_attempts
    (map (λ a, if bool_decide (Attempts.id a = aid)
               then Attempts.complete new_score now a else a) (attempts db)) db.

(** *** The reporting query

    [FROM "attempts" a JOIN "users" u ON a.user_id = u.id
     WHERE a.status = 'completed' ORDER BY a.score DESC, a.end_time ASC] *)

Definition completed_joined (db : database) : list (Attempts.row * Users.row) :=
  a ← filter (λ a, Attempts.status a = "completed") (attempts db);
  u ← filter (λ u, Some (Users.id u) = Attempts.user_id a) (users db);
  [(a, u)].

(** [ORDER BY score DESC]: PostgreSQL puts NULL first in a descending
    order. *)
Definition score_desc (s1 s2 : option Z) : comparison :=
  match s1, s2 with
  | None, None => Eq
  | None, Some _ => Lt
  | Some _, None => Gt
  | Some x, Some y => y ?= x
  end.

(** [ORDER BY end_time ASC]: NULL comes last in an ascending order. *)
Definition end_time_asc (t1 t2 : option Z) : comparison :=
  match t1, t2 with
  | None, None => Eq
  | None, Some _ => Gt
  | Some _, None => Lt
  | Some x, Some y => x ?= y
  end.

Definition order_by (a1 a2 : Attempts.row) : comparison :=
  match score_desc (Attempts.score a1) (Attempts.score a2) with
  | Eq => end_time_asc (Attempts.end_time a1) (Attempts.end_time a2)
  | c => c
  end.

(** [r1] may be listed before [r2]. *)
Definition ranks_before (r1 r2 : Attempts.row * Users.row) : Prop :=
  order_by r1.1 r2.1 ≠ Gt.

#[global] Instance ranks_before_dec r1 r2 : Decision (ranks_before r1 r2).
Proof. unfold ranks_before. apply _. Defined.

Definition select_completed_ordered (db : database)
  : list (Attempts.row * Users.row) :=
  merge_sort ranks_before (completed_joined db).

End Store.

(** ** The request handlers *)

Module Server.
Import Js.

(** An entry of the [sessions] object, as login stores it. *)
Record session := { userId : Z; role : string }.

(** The state of the server: the tables, and the entries stored in
    [sessions] (the own properties of that object). *)
Record state := {
  db : Store.database;
  sessions : gmap string session }.

Definition with_db (d : Store.database) (st : state) : state :=
  {| db := d; sessions := sessions st |}.

(** What a handler does for the client: [res.status(s).json(body)]
    ([res.json] is status 200), [res.redirect], or nothing when the [async]
    handler throws or a query is rejected outside a [try] (the reply, if
    any, is then Express's own). *)
Inductive response : Type :=
| Json (status : Z) (body : json)
| Redirect (location : string)
| Uncaught.

(** What a handler reads from outside the request and the state:
    the clock ([Date.now()], [NOW()]), the outcome of
    [.sort(() => 0.5 - Math.random())] and the salt drawn by
    [bcrypt.hash]. *)
Record env := {
  now : Z;
  sort_random : list Z → list Z;
  salt : string }.

(** The parts of a request the auth helpers look at. *)
Record headers := {
  x_session_id : option string;
  query_sessionId : option string;
  accepts_html : bool }.

(** The JSON routes.  Body fields are strings; [ids] is [None] when the
    query has no such parameter; [answers] is the body's [answers] object
    as a map from question id to submitted value, [None] when the body has
    none. *)
Inductive request : Type :=
| Register (fullName email password : string)
| Login (email password : string)
| Logout (h : headers)
| AdminMetrics (h : headers)
| AdminQuestionsList (h : headers)
| AdminQuestionsCreate (h : headers)
    (questionText optionA optionB optionC optionD correctOption : string)
| AdminQuestionsDelete (h : headers) (id : Z)
| StartQuiz (h : headers)
| Questions (h : headers) (ids : option string)
| SubmitAnswers (h : headers) (attemptId : Z) (answers : option (gmap Z json))
| LeaderboardData (h : headers).

Definition QUIZ_LENGTH : Z := 50.

Definition message (m : string) : json := JObj [("message", JStr m)].

(** [a || b] on two optional strings. *)
Definition or_string (a b : option string) : option string :=
  match a with
  | Some s => if falsy_string s then b else Some s
  | None => b
  end.

(** What [isLoggedIn] leaves on the request for what runs after it:
    [req.userId] and [req.userRole]; [None] is [undefined]. *)
Record caller := {
  req_userId : option Z;
  req_userRole : option string }.

(** [.userId] and [.role] of an entry that login stored. *)
Definition stored (s : session) : caller :=
  {| req_userId := Some (userId s); req_userRole := Some (role s) |}.

(** [.userId] and [.role] of a property that [sessions] inherits. *)
Definition inherited : caller :=
  {| req_userId := None; req_userRole := None |}.

(** [sessions[sessionId]], when it is truthy, with its [userId] and its
    [role].  [sessions] is a plain object: besides the entries login
    stored, which [sessions st] holds, it has the properties of
    [Object.prototype]; an entry stored under such a name would come
    first. *)
Definition sessions_get (sessionId : string) (st : state) : option caller :=
  match sessions st !! sessionId with
  | Some s => Some (stored s)
  | None =>
      if bool_decide (sessionId ∈ Object_prototype) then Some inherited
      else None
  end.

(** [isLoggedIn]: either the early reply or what it puts on [req]. *)
Definition isLoggedIn (h : headers) (st : state) : response + caller :=
  let unauthorized :=
    if accepts_html h then Redirect "/"
    else Json 401 (message "Unauthorized") in
  match or_string (x_session_id h) (query_sessionId h) with
  | Some sessionId =>
      if falsy_string sessionId then inl unauthorized
      else match sessions_get sessionId st with
           | Some c => inr c
           | None => inl unauthorized
           end
  | None => inl unauthorized
  end.

(** [isAdmin], run after [isLoggedIn]. *)
Definition isAdmin (c : caller) : option response :=
  if bool_decide (req_userRole c ≠ Some "admin")
  then Some (Json 403 (message "Admin access required"))
  else None.

(** *** [POST /student/submit-answers]: the scoring loop *)

(** [correct.forEach(q => map[q.id] = q.correct_option)] *)
Definition correct_map (correct : list (Z * string)) : gmap Z string :=
  fold_left (λ map q, <[q.1 := q.2]> map) correct ∅.

(** [answers[id] && answers[id] === map[id]] *)
Definition is_correct (answers : gmap Z json) (map : gmap Z string) (id : Z)
  : bool :=
  match answers !! id with
  | Some a =>
      truthy a &&
      match map !! id with
      | Some c => strict_eq_string a c
      | None => false
      end
  | None => false
  end.

(** [let score = 0; ids.forEach(id => { if (...) score++; })] *)
Definition compute_score (ids : list Z) (answers : gmap Z json)
    (correct : list (Z * string)) : Z :=
  let map := correct_map correct in
  fold_left (λ score id, if is_correct answers map id then score + 1 else score)
    ids 0.

(** *** [GET /questions]: parsing and ordering *)

(** [req.query.ids.split(',').map(id => parseInt(id)).filter(Boolean)] *)
Definition parse_ids (ids : string) : list Z :=
  filter_Boolean_numbers (map parseInt (split ids)).

(** [idArray.map(id => result.rows.find(q => q.id === id))] *)
Definition ordered (idArray : list Z) (rows : list Questions.view)
  : list (option Questions.view) :=
  map (λ id, find (λ q, bool_decide (Questions.v_id q = id)) rows) idArray.

(** [ordered.filter(Boolean)]: a row is an object, hence truthy; the
    [undefined] of a failed [find] is dropped. *)
Definition filter_Boolean_rows (l : list (option Questions.view))
  : list Questions.view :=
  omap (λ r, r) l.

Definition view_json (q : Questions.view) : json :=
  JObj [("id", JNum (Questions.v_id q));
        ("question_text", JStr (Questions.v_question_text q));
        ("option_a", JStr (Questions.v_option_a q));
        ("option_b", JStr (Questions.v_option_b q));
        ("option_c", JStr (Questions.v_option_c q));
        ("option_d", JStr (Questions.v_option_d q))].

(** The body of the reply, from the parsed ids and the rows of the store. *)
Definition questions_body (idArray : list Z) (rows : list Questions.view)
  : list json :=
  map view_json (filter_Boolean_rows (ordered idArray rows)).

Section Handlers.

(** [bcrypt.hash(password, 10)] with the salt it draws, [bcrypt.compare]
    and the rendering of a timestamp by [res.json]. *)
Variable bcrypt_hash : string → string → string.
Variable bcrypt_compare : string → string → bool.
Variable toISOString : Z → string.

Definition nullable {A} (f : A → json) (v : option A) : json :=
  match v with
  | Some x => f x
  | None => JNull
  end.

Definition timestamp (t : Z) : json := JStr (toISOString t).

(** [POST /register] *)
Definition register (e : env) (fullName email password : string) (st : state)
  : state * response :=
  if falsy_string fullName || falsy_string email || falsy_string password
  then (st, Json 400 (message "All fields required"))
  else
    let hash := bcrypt_hash password (salt e) in
    match Store.insert_user fullName email hash "student" "unattempted" (db st) with
    | Some d => (with_db d st, Json 200 (message "Registered successfully"))
    | None => (st, Json 409 (message "Email already exists"))
    end.

(** [POST /login] *)
Definition login (e : env) (email password : string) (st : state)
  : state * response :=
  match head (Store.select_user_by_email email (db st)) with
  | None => (st, Json 401 (message "Invalid login"))
  | Some user =>
      if bool_decide (Users.role user = "student")
         && bool_decide (Users.quiz_status user ∈ ["completed"; "disqualified"])
      then (st, Json 403 (message "Quiz already completed"))
      else if negb (bcrypt_compare password (Users.password_hash user))
      then (st, Json 401 (message "Invalid login"))
      else
        let sessionId :=
          "s_" +:+ pretty (Users.id user) +:+ "_" +:+ pretty (now e) in
        ({| db := db st;
            sessions :=
              <[sessionId := {| userId := Users.id user;
                                role := Users.role user |}]> (sessions st) |},
         Json 200 (JObj [("sessionId", JStr sessionId);
                         ("role", JStr (Users.role user))]))
  end.

(** [POST /logout] *)
Definition logout (h : headers) (st : state) : state * response :=
  let st' :=
    match x_session_id h with
    | Some sessionId =>
        if falsy_string sessionId then st
        else {| db := db st; sessions := delete sessionId (sessions st) |}
    | None => st
    end in
  (st', Json 200 (message "Logged out")).

Definition result_json (r : Attempts.row * Users.row) : json :=
  JObj [("full_name", JStr (Users.full_name r.2));
        ("email", JStr (Users.email r.2));
        ("score", nullable JNum (Attempts.score r.1));
        ("created_at", timestamp (Attempts.created_at r.1));
        ("end_time", nullable timestamp (Attempts.end_time r.1))].

(** The [results] of [GET /admin/metrics]. *)
Definition admin_results (d : Store.database) : list (Attempts.row * Users.row) :=
  Store.select_completed_ordered d.

(** [GET /admin/metrics], after [isLoggedIn] and [isAdmin] *)
Definition admin_metrics (st : state) : state * response :=
  let totalParticipants := Z.of_nat (length (Store.users (db st))) in
  let totalQuestions := Z.of_nat (length (Store.questions (db st))) in
  let completedQuizzes :=
    Z.of_nat (length (filter (λ a, Attempts.status a = "completed")
                        (Store.attempts (db st)))) in
  let results := admin_results (db st) in
  (st, Json 200 (JObj [("totalParticipants", JNum totalParticipants);
                       ("totalQuestions", JNum totalQuestions);
                       ("completedQuizzes", JNum completedQuizzes);
                       ("results", JArr (map result_json results))])).

Definition question_json (q : Questions.row) : json :=
  JObj [("id", JNum (Questions.id q));
        ("question_text", JStr (Questions.question_text q));
        ("option_a", JStr (Questions.option_a q));
        ("option_b", JStr (Questions.option_b q));
        ("option_c", JStr (Questions.option_c q));
        ("option_d", JStr (Questions.option_d q));
        ("correct_option", JStr (Questions.correct_option q))].

(** [GET /admin/questions] *)
Definition admin_questions_list (st : state) : state * response :=
  (st, Json 200 (JArr (map question_json (Store.select_questions_desc (db st))))).

(** [POST /admin/questions] *)
Definition admin_questions_create
    (questionText optionA optionB optionC optionD correctOption : string)
    (st : state) : state * response :=
  if falsy_string questionText || falsy_string optionA || falsy_string optionB
     || falsy_string optionC || falsy_string optionD || falsy_string correctOption
  then (st, Json 400 (message "All fields required"))
  else
    (with_db (Store.insert_question questionText optionA optionB optionC
                optionD correctOption (db st)) st,
     Json 200 (message "Question added")).

(** [DELETE /admin/questions/:id] *)
Definition admin_questions_delete (id : Z) (st : state) : state * response :=
  (with_db (Store.delete_question id (db st)) st,
   Json 200 (message "Question deleted")).

(** [POST /student/start-quiz], after [isLoggedIn] *)
Definition start_quiz (e : env) (userId : option Z) (st : state)
  : state * response :=
  let all := Store.questions (db st) in
  if Z.of_nat (length all) <? QUIZ_LENGTH
  then (st, Json 400 (message "Not enough questions"))
  else
    let ids :=
      take (Z.to_nat QUIZ_LENGTH) (sort_random e (map Questions.id all)) in
    let d1 := Store.update_quiz_status "started" userId (db st) in
    let '(d2, attemptId) := Store.insert_attempt userId ids "started" (now e) d1 in
    (with_db d2 st,
     Json 200 (JObj [("attemptId", JNum attemptId);
                     ("questionIds", JArr (map JNum ids))])).

(** [GET /questions], after [isLoggedIn].  Without an [ids] parameter
    [.split] throws; with no id left the statement reads [IN ()], which
    the store rejects. *)
Definition questions (ids : option string) (st : state) : state * response :=
  match ids with
  | None => (st, Uncaught)
  | Some s =>
      let idArray := parse_ids s in
      match idArray with
      | [] => (st, Uncaught)
      | _ =>
          let rows := Store.select_views idArray (db st) in
          (st, Json 200 (JArr (questions_body idArray rows)))
      end
  end.

(** [POST /student/submit-answers], after [isLoggedIn].  An attempt with
    an empty id list makes the second statement read [IN ()]; a body
    without [answers] makes [answers[id]] throw.  Both happen before the
    first [UPDATE]. *)
Definition submit_answers (e : env) (userId : option Z) (attemptId : Z)
    (answers : option (gmap Z json)) (st : state) : state * response :=
  match Store.select_attempt attemptId userId "started" (db st) with
  | [] => (st, Json 200 (message "Quiz already submitted."))
  | attempt :: _ =>
      let ids := Attempts.shuffled_questions attempt in
      match ids, answers with
      | [], _ | _, None => (st, Uncaught)
      | _, Some answers =>
          let correct := Store.select_correct ids (db st) in
          let score := compute_score ids answers correct in
          let d1 := Store.complete_attempt score attemptId (now e) (db st) in
          let d2 := Store.update_quiz_status "completed" userId d1 in
          (with_db d2 st, Json 200 (message "Quiz submitted successfully!"))
      end
  end.

Definition leaderboard_json (r : Attempts.row * Users.row) : json :=
  JObj [("full_name", JStr (Users.full_name r.2));
        ("score", nullable JNum (Attempts.score r.1));
        ("created_at", timestamp (Attempts.created_at r.1))].

(** The rows of [GET /leaderboard-data]: the same statement with
    [LIMIT 10]. *)
Definition leaderboard_rows (d : Store.database) : list (Attempts.row * Users.row) :=
  take 10 (Store.select_completed_ordered d).

(** [GET /leaderboard-data], after [isLoggedIn] and [isAdmin] *)
Definition leaderboard_data (st : state) : state * response :=
  (st, Json 200 (JArr (map leaderboard_json (leaderboard_rows (db st))))).

(** *** Routing *)

Definition logged_in (h : headers) (st : state)
    (k : caller → state * response) : state * response :=
  match isLoggedIn h st with
  | inl early => (st, early)
  | inr c => k c
  end.

Definition admin_only (h : headers) (st : state)
    (k : caller → state * response) : state * response :=
  logged_in h st (λ c,
    match isAdmin c with
    | Some early => (st, early)
    | None => k c
    end).

Definition handle (e : env) (r : request) (st : state) : state * response :=
  match r with
  | Register fullName email password => register e fullName email password st
  | Login email password => login e email password st
  | Logout h => logout h st
  | AdminMetrics h => admin_only h st (λ _, admin_metrics st)
  | AdminQuestionsList h => admin_only h st (λ _, admin_questions_list st)
  | AdminQuestionsCreate h q a b c d correct =>
      admin_only h st (λ _, admin_questions_create q a b c d correct st)
  | AdminQuestionsDelete h id =>
      admin_only h st (λ _, admin_questions_delete id st)
  | StartQuiz h => logged_in h st (λ c, start_quiz e (req_userId c) st)
  | Questions h ids => logged_in h st (λ _, questions ids st)
  | SubmitAnswers h attemptId answers =>
      logged_in h st (λ c, submit_answers e (req_userId c) attemptId answers st)
  | LeaderboardData h => admin_only h st (λ _, leaderboard_data st)
  end.

End Handlers.
End Server.

(** ** Scoring: the specification's reading *)

Module Scoring.
Import Js Server.







End Scoring.


(** ** Concrete states used by the examples *)

Module Sample.
Import Js Server.

Definition env0 : env :=
  {| now := 1700000000000; sort_random := λ l, l; salt := "salt" |}.

Definition question (id : Z) (correct : string) : Questions.row :=
  {| Questions.id := id; Questions.question_text := "text";
     Questions.option_a := "A"; Questions.option_b := "B";
     Questions.option_c := "C"; Questions.option_d := "D";
     Questions.correct_option := correct |}.

Definition student (id : Z) (email status : string) : Users.row :=
  {| Users.id := id; Users.full_name := "Student"; Users.email := email;
     Users.password_hash := "hash"; Users.role := "student";
     Users.quiz_status := status |}.

Definition started_attempt (id uid : Z) (ids : list Z) : Attempts.row :=
  {| Attempts.id := id; Attempts.user_id := Some uid;
     Attempts.shuffled_questions := ids; Attempts.status := "started";
     Attempts.score := None; Attempts.created_at := 1699999990000;
     Attempts.end_time := None |}.

Definition completed_attempt (id uid score finished : Z) : Attempts.row :=
  {| Attempts.id := id; Attempts.user_id := Some uid;
     Attempts.shuffled_questions := [1; 2; 3]; Attempts.status := "completed";
     Attempts.score := Some score; Attempts.created_at := 1699999990000;
     Attempts.end_time := Some finished |}.

Definition state_of (us : list Users.row) (qs : list Questions.row)
    (ats : list Attempts.row) : state :=
  {| db := {| Store.users := us; Store.questions := qs; Store.attempts := ats;
              Store.users_seq := 100; Store.questions_seq := 100;
              Store.attempts_seq := 100 |};
     sessions := ∅ |}.

(** Three questions with correct options A, B, C, and one started attempt
    of student 5 over them. *)
Definition quiz_state : state :=
  state_of [student 5 "s5@example.org" "started"]
    [question 1 "A"; question 2 "B"; question 3 "C"]
    [started_attempt 7 5 [1; 2; 3]].

Definition quiz_answers : gmap Z json :=
  <[1 := JStr "A"]> (<[2 := JStr "X"]> (<[3 := JStr "C"]> ∅)).

End Sample.

(** ** [GET /questions]: the listing of the specification *)

Module Listing.
Import Js Server.

(** The questions that are listed for a parsed id list. *)
Definition listed (idArray : list Z) (rows : list Questions.view)
  : list Questions.view :=
  filter_Boolean_rows (ordered idArray rows).

(** The requested ids that have a row, in the order of the request. *)
Definition requested_with_row (idArray : list Z) (rows : list Questions.view)
  : list Z :=
  filter (λ id, id ∈ map Questions.v_id rows) idArray.

(** The id a token stands for: none when the token reads as [NaN] or as
    zero. *)
Definition requested_id (tok : string) : option Z :=
  match parseInt tok with
  | Some n => if bool_decide (n = 0) then None else Some n
  | None => None
  end.

(** The [ids] parameter that stands for a list of ids: their decimal
    numerals joined by commas, as [ids.join(',')] writes them. *)
Definition join_ids (ids : list Z) : string :=
  String.concat "," (map pretty ids).

Definition view_keys : list string :=
  ["id"; "question_text"; "option_a"; "option_b"; "option_c"; "option_d"].

End Listing.

(** ** States used by the login examples *)

Module LoginSample.
Import Js Server.

(** A student who has finished the quiz. *)
Definition finished_state : state :=
  Sample.state_of [Sample.student 5 "s5@example.org" "completed"] [] [].

(** A stand-in for [bcrypt.compare]: the stored hash is the password. *)
Definition compare_plain (password hash : string) : bool :=
  String.eqb password hash.

End LoginSample.

(** ** Who can observe a score *)

Module Scores.
Import Js Server.

Definition erase_score (a : Attempts.row) : Attempts.row :=
  {| Attempts.id := Attempts.id a; Attempts.user_id := Attempts.user_id a;
     Attempts.shuffled_questions := Attempts.shuffled_questions a;
     Attempts.status := Attempts.status a; Attempts.score := None;
     Attempts.created_at := Attempts.created_at a;
     Attempts.end_time := Attempts.end_time a |}.

(** The state with every score blanked. *)
Definition erase (st : state) : state :=
  {| db := Store.with_attempts
             (map erase_score (Store.attempts (db st))) (db st);
     sessions := sessions st |}.

(** Two states that differ at most in the scores of their attempts. *)
Definition same_but_scores (st1 st2 : state) : Prop := erase st1 = erase st2.

(** The request is one of the two reporting requests and comes with the
    session of an admin. *)
Definition admin_report (r : request) (st : state) : bool :=
  match r with
  | AdminMetrics h | LeaderboardData h =>
      match isLoggedIn h st with
      | inr c => bool_decide (req_userRole c = Some "admin")
      | inl _ => false
      end
  | _ => false
  end.

(** Two outcomes with the same reply and the same state up to scores. *)
Definition agree (p q : state * response) : Prop :=
  p.2 = q.2 ∧ erase p.1 = erase q.1.

Section Runs.
Variable bcrypt_hash : string → string → string.
Variable bcrypt_compare : string → string → bool.
Variable toISOString : Z → string.

(** The server handling requests one after the other, each with what it
    reads from outside; the replies in order. *)
Fixpoint run (rs : list (env * request)) (st : state) : state * list response :=
  match rs with
  | [] => (st, [])
  | (e, r) :: rs' =>
      let '(st1, reply) := handle bcrypt_hash bcrypt_compare toISOString e r st in
      let '(st2, replies) := run rs' st1 in
      (st2, reply :: replies)
  end.

(** No request of the run is a report asked with an admin session. *)
Fixpoint no_admin_report (rs : list (env * request)) (st : state) : bool :=
  match rs with
  | [] => true
  | (e, r) :: rs' =>
      negb (admin_report r st)
      && no_admin_report rs'
           (handle bcrypt_hash bcrypt_compare toISOString e r st).1
  end.

End Runs.

End Scores.

(** ** Access, steps and invariants of the whole server *)

Module Access.
Import Js Server.

(** The headers of a request to a route that runs [isLoggedIn] first. *)
Definition guarded (r : request) : option headers :=
  match r with
  | Register _ _ _ | Login _ _ | Logout _ => None
  | AdminMetrics h | AdminQuestionsList h
  | AdminQuestionsCreate h _ _ _ _ _ _ | AdminQuestionsDelete h _
  | StartQuiz h | Questions h _ | SubmitAnswers h _ _
  | LeaderboardData h => Some h
  end.

(** The headers of a request to a route that also runs [isAdmin]. *)
Definition admin_route (r : request) : option headers :=
  match r with
  | AdminMetrics h | AdminQuestionsList h
  | AdminQuestionsCreate h _ _ _ _ _ _ | AdminQuestionsDelete h _
  | LeaderboardData h => Some h
  | _ => None
  end.

(** The request goes to an admin route with the session of an admin. *)
Definition by_admin (r : request) (st : state) : bool :=
  match admin_route r with
  | Some h =>
      match isLoggedIn h st with
      | inr c => bool_decide (req_userRole c = Some "admin")
      | inl _ => false
      end
  | None => false
  end.

(** [`s_${user.id}_${Date.now()}`] *)
Definition session_id (uid now : Z) : string :=
  "s_" +:+ pretty uid +:+ "_" +:+ pretty now.

(** A request that carries the session id in the [x-session-id] header. *)
Definition with_header (sid : string) : headers :=
  {| x_session_id := Some sid; query_sessionId := None;
     accepts_html := false |}.

(** A request that carries the session id in the query string only. *)
Definition with_query (sid : string) : headers :=
  {| x_session_id := None; query_sessionId := Some sid;
     accepts_html := false |}.

End Access.

Module Steps.
Import Js Server.

(** What one request can do to the state: the statements and the writes to
    [sessions] the handlers perform, each with the guard it sits behind.
    Start-quiz runs behind [isLoggedIn] alone: its [caller], the
    [req.userId], is the user of a stored session or [undefined]. *)
Inductive step (st : state) : state → Prop :=
| step_none : step st st
| step_register fullName email hash d :
    Store.insert_user fullName email hash "student" "unattempted" (db st)
      = Some d →
    step st (with_db d st)
| step_login user sessionId :
    user ∈ Store.users (db st) →
    step st {| db := db st;
               sessions := <[sessionId := {| userId := Users.id user;
                                             role := Users.role user |}]>
                             (sessions st) |}
| step_logout sessionId :
    step st {| db := db st; sessions := delete sessionId (sessions st) |}
| step_create_question sessionId s text a b c d correct :
    sessions st !! sessionId = Some s → role s = "admin" →
    falsy_string text || falsy_string a || falsy_string b
      || falsy_string c || falsy_string d || falsy_string correct = false →
    step st (with_db (Store.insert_question text a b c d correct (db st)) st)
| step_delete_question sessionId s id :
    sessions st !! sessionId = Some s → role s = "admin" →
    step st (with_db (Store.delete_question id (db st)) st)
| step_start_quiz caller ids now :
    (∀ uid, caller = Some uid →
       ∃ sessionId s, sessions st !! sessionId = Some s ∧ userId s = uid) →
    QUIZ_LENGTH ≤ Z.of_nat (length (Store.questions (db st))) →
    step st
      (with_db (Store.insert_attempt caller ids "started" now
                  (Store.update_quiz_status "started" caller (db st))).1
         st)
| step_submit sessionId s attemptId score now attempt rest :
    sessions st !! sessionId = Some s →
    Store.select_attempt attemptId (Some (userId s)) "started" (db st)
      = attempt :: rest →
    step st
      (with_db (Store.update_quiz_status "completed" (Some (userId s))
                  (Store.complete_attempt score attemptId now (db st)))
         st).

End Steps.

Module Keys.
Import Js Server.

(** Row ids are keys below the next value of their sequence, and emails
    are unique. *)
Record ok (d : Store.database) : Prop := {
  user_ids : NoDup (map Users.id (Store.users d));
  user_ids_below : Forall (λ u, Users.id u < Store.users_seq d) (Store.users d);
  emails : NoDup (map Users.email (Store.users d));
  question_ids : NoDup (map Questions.id (Store.questions d));
  question_ids_below :
    Forall (λ q, Questions.id q < Store.questions_seq d) (Store.questions d);
  attempt_ids : NoDup (map Attempts.id (Store.attempts d));
  attempt_ids_below :
    Forall (λ a, Attempts.id a < Store.attempts_seq d) (Store.attempts d) }.

(** An attempt belongs to a user of the table, or it has no owner (it was
    started under a session id that names an inherited property) and is
    not completed. *)
Definition owned (us : list Users.row) (a : Attempts.row) : Prop :=
  match Attempts.user_id a with
  | Some uid => uid ∈ map Users.id us
  | None => Attempts.status a ≠ "completed"
  end.

(** Every stored session stands for a user of the table, with that user's
    role, and every attempt is owned in the sense above. *)
Record references (st : state) : Prop := {
  session_users :
    ∀ sessionId s, sessions st !! sessionId = Some s →
      ∃ u, u ∈ Store.users (db st) ∧ Users.id u = userId s
           ∧ Users.role u = role s;
  attempt_users :
    Forall (owned (Store.users (db st))) (Store.attempts (db st)) }.

(** The invariant of the server. *)
Definition invariant (st : state) : Prop := ok (db st) ∧ references st.

(** What a request never changes in a user row. *)
Definition identity (u : Users.row) : Z * string * string * string * string :=
  (Users.id u, Users.full_name u, Users.email u, Users.password_hash u,
   Users.role u).

End Keys.

(** ** A state with an admin, a student and their sessions *)

Module Staff.
Import Js Server.

Definition admin : Users.row :=
  {| Users.id := 1; Users.full_name := "Admin"; Users.email := "admin@example.org";
     Users.password_hash := "secret"; Users.role := "admin";
     Users.quiz_status := "unattempted" |}.

(** The admin and student 5 of the quiz state, both logged in. *)
Definition state0 : state :=
  {| db := {| Store.users := [admin; Sample.student 5 "s5@example.org" "started"];
              Store.questions :=
                [Sample.question 1 "A"; Sample.question 2 "B";
                 Sample.question 3 "C"];
              Store.attempts := [Sample.started_attempt 7 5 [1; 2; 3]];
              Store.users_seq := 100; Store.questions_seq := 100;
              Store.attempts_seq := 100 |};
     sessions := <["s_1_10" := {| userId := 1; role := "admin" |}]>
                   (<["s_5_20" := {| userId := 5; role := "student" |}]> ∅) |}.

(** A stand-in for [bcrypt.hash]: the hash is the password. *)
Definition hash_plain (password salt : string) : string := password.

Definition iso (t : Z) : string := pretty t.

End Staff.

Module Kept.
Import Js Server.

(** From [st] to [st'] every user row keeps its identity and its place, and
    the rows that were added are students. *)
Definition users_kept (st st' : state) : Prop :=
  ∃ new,
    map Keys.identity (Store.users (db st')) =
      map Keys.identity (Store.users (db st) ++ new)
    ∧ Forall (λ u, Users.role u = "student") new.

(** The rows of the users whose role is "admin". *)
Definition admins (st : state) : list Users.row :=
  filter (λ u, Users.role u = "admin") (Store.users (db st)).

(** From [st] to [st'] keys stay keys and every completed attempt stays as
    it is, at its place. *)
Definition completed_kept (st st' : state) : Prop :=
  Keys.ok (db st) →
  Keys.ok (db st')
  ∧ ∀ i a, Store.attempts (db st) !! i = Some a →
           Attempts.status a = "completed" →
           Store.attempts (db st') !! i = Some a.

End Kept.

Module Finished.
Import Js Server.

(** Student 5 has finished attempt 1 and has started attempt 7. *)
Definition state0 : state :=
  {| db := {| Store.users := [Sample.student 5 "s5@example.org" "started"];
              Store.questions :=
                [Sample.question 1 "A"; Sample.question 2 "B";
                 Sample.question 3 "C"];
              Store.attempts :=
                [Sample.completed_attempt 1 5 3 50;
                 Sample.started_attempt 7 5 [1; 2; 3]];
              Store.users_seq := 100; Store.questions_seq := 100;
              Store.attempts_seq := 100 |};
     sessions := {[ "s_5_20" := {| userId := 5; role := "student" |} ]} |}.

End Finished.

(** ** The random selection of start-quiz

    [all.map(q => q.id).sort(() => 0.5 - Math.random()).slice(0, QUIZ_LENGTH)]
    hands the engine's sort a comparator that ignores its arguments: what
    a call returns depends on the draw of [Math.random()] alone.  The
    reordering is therefore a function of the array and of the results of
    the comparator calls, in the order of the calls. *)

Module Shuffle.
Import Js Server.

(** [Math.random()] modelled as a draw of one of [2 ^ bits] equally likely
    values [k / 2 ^ bits], [0 ≤ k < 2 ^ bits], each draw independent of the
    others.  The result of the comparator for the draw [k] is
    [0.5 - k / 2 ^ bits], here scaled by [2 ^ (bits + 1)]: the sort looks
    at its sign. *)
Definition comparator (bits : nat) (k : nat) : Z :=
  2 ^ Z.of_nat bits - 2 * Z.of_nat k.

(** All the sequences of [calls] draws; each is as likely as any other. *)
Fixpoint draws (bits calls : nat) : list (list nat) :=
  match calls with
  | O => [[]]
  | S calls' => k ← seq 0 (2 ^ bits); map (cons k) (draws bits calls')
  end.

Section Engine.

(** The engine: the number of bits of a draw, a bound on the number of
    comparator calls of one sort, and the sort itself as a function of
    the comparator results and of the array. *)
Variable bits calls : nat.
Variable sort : list Z → list Z → list Z.

(** The outside of a request whose sort sees the draws [ds]. *)
Definition env_of (e : env) (ds : list nat) : env :=
  {| now := now e;
     sort_random := sort (map (comparator bits) ds);
     salt := salt e |}.

(** The ids of the attempt that start-quiz stores. *)
Definition selection (e : env) (userId : option Z) (st : state) : list Z :=
  from_option Attempts.shuffled_questions []
    (last (Store.attempts (db (start_quiz e userId st).1))).

(** The number of sequences of draws, among [draws bits calls], for which
    start-quiz selects the ids of the set [chosen]: the probability that
    it selects this set, times [length (draws bits calls)]. *)
Definition favourable (e : env) (userId : option Z) (st : state)
    (chosen : gset Z) : nat :=
  length (filter (λ ds, list_to_set (selection (env_of e ds) userId st) = chosen)
            (draws bits calls)).

End Engine.

(** A comparison sort, for the examples: insertion from the left, one
    comparator result per comparison; a comparison for which no result is
    left reads as zero. *)
Fixpoint insert_by (x : Z) (sorted : list Z) (results : list Z)
  : list Z * list Z :=
  match sorted with
  | [] => ([x], results)
  | y :: sorted' =>
      match results with
      | r :: results' =>
          if 0 <? r
          then let '(l, rest) := insert_by x sorted' results' in (y :: l, rest)
          else (x :: sorted, results')
      | [] => (x :: sorted, [])
      end
  end.

Definition insertion_sort (results : list Z) (l : list Z) : list Z :=
  (fold_left (λ acc x, insert_by x acc.1 acc.2) l ([], results)).1.

(** A pool of 51 questions, with ids 1 to 51. *)
Definition pool51 : state :=
  Sample.state_of [Sample.student 5 "s5@example.org" "unattempted"]
    (map (λ i, Sample.question (Z.of_nat i) "A") (seq 1 51)) [].

End Shuffle.

(** * Properties of the handlers *)

Import Js Server.

(** ** The primitives on concrete inputs *)

Example split_ex : split "3,1,,2," = ["3"; "1"; EmptyString; "2"; EmptyString].
Proof. reflexivity. Qed.

Example parseInt_ex :
  map parseInt
    ["42"; " -7"; "0x1F"; "12abc"; "abc"; EmptyString; "0"; "-0"; "+5"; "0x"; "-0x10"]
  = [Some 42; Some (-7); Some 31; Some 12; None; None; Some 0; Some 0; Some 5;
     None; Some (-16)].
Proof. reflexivity. Qed.

(** ** Scoring ([POST /student/submit-answers]) *)

Section ScoringFacts.
Implicit Types (answers : gmap Z json) (correct : list (Z * string)).
Implicit Types (ids : list Z) (map : gmap Z string).





(** A counting loop counts the elements that pass its test. *)
Lemma fold_count {A} (f : A → bool) (l : list A) (n : Z) :
  fold_left (λ score x, if f x then score + 1 else score) l n =
  n + Z.of_nat (length (filter (λ x, f x) l)).
Proof.
  revert n. induction l as [|x l IH]; intros n; simpl; [lia|].
  rewrite IH, filter_cons. destruct (f x); simpl; [|done].
  lia.
Qed.



End ScoringFacts.

Section SubmitFacts.
Variable e : env.
Implicit Types (st : state) (d : Store.database).



Lemma submit_answers_found st userId attemptId answers attempt rest :
  Store.select_attempt attemptId userId "started" (db st) = attempt :: rest →
  Attempts.shuffled_questions attempt ≠ [] →
  submit_answers e userId attemptId (Some answers) st =
  (let ids := Attempts.shuffled_questions attempt in
   let score := compute_score ids answers (Store.select_correct ids (db st)) in
   with_db (Store.update_quiz_status "completed" userId
              (Store.complete_attempt score attemptId (now e) (db st))) st,
   Json 200 (message "Quiz submitted successfully!")).
Proof.
  intros Hsel Hne. unfold submit_answers. rewrite Hsel.
  by destruct (Attempts.shuffled_questions attempt).
Qed.

End SubmitFacts.

Section OptionFacts.
Variable bcrypt_hash : string → string → string.
Variable bcrypt_compare : string → string → bool.
Variable toISOString : Z → string.
Implicit Types (st : state) (d : Store.database).




End OptionFacts.



(** ** Ordering of [GET /questions] *)

Section ListingFacts.
Implicit Types (idArray : list Z) (rows : list Questions.view).

Lemma find_row_Some rows id q :
  find (λ q, bool_decide (Questions.v_id q = id)) rows = Some q →
  q ∈ rows ∧ Questions.v_id q = id.
Proof.
  intros [Hin Hid]%find_some. apply bool_decide_eq_true in Hid.
  by apply list_elem_of_In in Hin.
Qed.

Lemma find_row_None rows id :
  find (λ q, bool_decide (Questions.v_id q = id)) rows = None ↔
  id ∉ map Questions.v_id rows.
Proof.
  split.
  - intros Hnone (q & -> & Hin)%list_elem_of_fmap.
    apply list_elem_of_In in Hin.
    pose proof (find_none _ _ Hnone q Hin) as Hq. simpl in Hq.
    by rewrite bool_decide_true in Hq.
  - intros Hnot. destruct (find _ rows) as [q|] eqn:Hfind; [|done].
    apply find_row_Some in Hfind as [Hin <-].
    destruct Hnot. apply list_elem_of_fmap. eauto.
Qed.

Lemma listed_cons idArray rows id :
  Listing.listed (id :: idArray) rows =
  match find (λ q, bool_decide (Questions.v_id q = id)) rows with
  | Some q => q :: Listing.listed idArray rows
  | None => Listing.listed idArray rows
  end.
Proof.
  unfold Listing.listed, filter_Boolean_rows, ordered. simpl.
  by destruct (find _ rows).
Qed.

Lemma listed_ids idArray rows :
  map Questions.v_id (Listing.listed idArray rows) =
  Listing.requested_with_row idArray rows.
Proof.
  unfold Listing.requested_with_row.
  induction idArray as [|id idArray IH]; [done|].
  rewrite listed_cons, filter_cons.
  destruct (find _ rows) as [q|] eqn:Hfind.
  - apply find_row_Some in Hfind as [Hin Hid].
    rewrite decide_True; [simpl; by rewrite IH, Hid|].
    apply list_elem_of_fmap. eauto.
  - apply find_row_None in Hfind. by rewrite decide_False.
Qed.

Lemma listed_elem_of idArray rows q :
  q ∈ Listing.listed idArray rows → q ∈ rows ∧ Questions.v_id q ∈ idArray.
Proof.
  induction idArray as [|id idArray IH]; [by intros ?%elem_of_nil|].
  rewrite listed_cons. destruct (find _ rows) as [q'|] eqn:Hfind.
  - apply find_row_Some in Hfind as [Hin Hid].
    intros [->|Hq]%elem_of_cons.
    + split; [done|]. rewrite Hid. left.
    + destruct (IH Hq). split; [done|]. by right.
  - intros Hq. destruct (IH Hq). split; [done|]. by right.
Qed.

Lemma NoDup_fmap_elem_inj {A B} (f : A → B) (l : list A) (x y : A) :
  NoDup (map f l) → x ∈ l → y ∈ l → f x = f y → x = y.
Proof.
  induction l as [|z l IH]; [by intros _ ?%elem_of_nil|].
  simpl. intros [Hz Hnd]%NoDup_cons [->|Hx]%elem_of_cons [->|Hy]%elem_of_cons Hf;
    [done| | |by apply IH].
  - destruct Hz. rewrite Hf. apply list_elem_of_fmap. eauto.
  - destruct Hz. rewrite <- Hf. apply list_elem_of_fmap. eauto.
Qed.

(** With one row per id, the row found for an id does not depend on the
    order of the rows. *)
Lemma find_row_Permutation rows rows' id :
  NoDup (map Questions.v_id rows) → rows' ≡ₚ rows →
  find (λ q, bool_decide (Questions.v_id q = id)) rows' =
  find (λ q, bool_decide (Questions.v_id q = id)) rows.
Proof.
  intros Hnd Hperm.
  assert (NoDup (map Questions.v_id rows')) as Hnd'.
  { by rewrite Hperm. }
  destruct (find _ rows) as [q|] eqn:Hfind.
  - apply find_row_Some in Hfind as [Hin Hid].
    destruct (find _ rows') as [q'|] eqn:Hfind'.
    + apply find_row_Some in Hfind' as [Hin' Hid'].
      rewrite Hperm in Hin'. f_equal.
      apply (NoDup_fmap_elem_inj Questions.v_id rows); [done..|congruence].
    + apply find_row_None in Hfind'. destruct Hfind'.
      apply list_elem_of_fmap. exists q. by rewrite Hperm.
  - apply find_row_None in Hfind. apply find_row_None.
    by rewrite Hperm.
Qed.

Lemma filter_iff_in {A} (P Q : A → Prop) `{!∀ x, Decision (P x)}
    `{!∀ x, Decision (Q x)} (l : list A) :
  (∀ x, x ∈ l → P x ↔ Q x) → filter P l = filter Q l.
Proof.
  induction l as [|x l IH]; intros Hiff; [done|].
  rewrite !filter_cons, IH by (intros y Hy; apply Hiff; by right).
  destruct (decide (P x)) as [HP|HP]; [rewrite decide_True|rewrite decide_False];
    try done; rewrite <- (Hiff x); try done; left.
Qed.

(** For the rows the statement selects, the listed ids are the requested
    ids that the table has. *)
Lemma listed_selected_ids idArray (d : Store.database) :
  map Questions.v_id (Listing.listed idArray (Store.select_views idArray d)) =
  filter (λ id, id ∈ map Questions.id (Store.questions d)) idArray.
Proof.
  rewrite listed_ids. unfold Listing.requested_with_row.
  apply filter_iff_in. intros id Hid. unfold Store.select_views.
  rewrite <- list_fmap_compose. rewrite !list_elem_of_fmap. split.
  - intros (q & -> & [_ Hq]%list_elem_of_filter). by exists q.
  - intros (q & -> & Hq). exists q. split; [done|].
    by apply list_elem_of_filter.
Qed.

Lemma listed_Permutation idArray rows rows' :
  NoDup (map Questions.v_id rows) → rows' ≡ₚ rows →
  Listing.listed idArray rows' = Listing.listed idArray rows.
Proof.
  intros Hnd Hperm. induction idArray as [|id idArray IH]; [done|].
  by rewrite !listed_cons, IH, (find_row_Permutation rows rows').
Qed.

End ListingFacts.

(** ** Parsing of the [ids] parameter *)

Lemma filter_Boolean_numbers_tokens (toks : list string) :
  filter_Boolean_numbers (map parseInt toks) =
  omap Listing.requested_id toks.
Proof.
  unfold filter_Boolean_numbers, Listing.requested_id.
  induction toks as [|tok toks IH]; [done|].
  cbn [map omap list_omap]. rewrite IH.
  destruct (parseInt tok) as [n|]; simpl; [|done].
  case_bool_decide as Hn.
  - by subst n.
  - by rewrite (proj2 (Z.eqb_neq n 0) Hn).
Qed.

Lemma elem_of_parse_ids (s : string) (n : Z) :
  n ∈ parse_ids s ↔ n ≠ 0 ∧ ∃ tok, tok ∈ split s ∧ parseInt tok = Some n.
Proof.
  unfold parse_ids. rewrite filter_Boolean_numbers_tokens, list_elem_of_omap.
  unfold Listing.requested_id. split.
  - intros (tok & Htok & Hn). destruct (parseInt tok) as [m|] eqn:Hp; [|done].
    simpl in Hn. case_bool_decide; [done|]. injection Hn as ->.
    split; [done|]. by exists tok.
  - intros (Hn & tok & Htok & Hp). exists tok. split; [done|].
    rewrite Hp. simpl. by rewrite bool_decide_false.
Qed.

(** A token without any decimal digit reads as [NaN]. *)
Lemma trim_start_no_digit (s : string) :
  has_decimal_digit s = false → has_decimal_digit (trim_start s) = false.
Proof.
  induction s as [|c s IH]; [done|]. simpl.
  intros [Hc Hs]%orb_false_iff. destruct (is_white_space c); [by apply IH|].
  simpl. by rewrite Hc, Hs.
Qed.

Lemma radix_digit_decimal (c : ascii) (d : Z) :
  radix_digit 10 c = Some d → is_decimal_digit c = true.
Proof.
  unfold radix_digit, digit_value, is_decimal_digit.
  set (n := Z.of_nat (nat_of_ascii c)).
  destruct ((48 <=? n) && (n <=? 57)); [done|].
  destruct ((97 <=? n) && (n <=? 122)) eqn:Hlow.
  { apply andb_true_iff in Hlow as [Hl%Z.leb_le _].
    destruct (n - 87 <? 10) eqn:Hlt; [apply Z.ltb_lt in Hlt; lia|done]. }
  destruct ((65 <=? n) && (n <=? 90)) eqn:Hup; [|done].
  apply andb_true_iff in Hup as [Hl%Z.leb_le _].
  destruct (n - 55 <? 10) eqn:Hlt; [apply Z.ltb_lt in Hlt; lia|done].
Qed.

Lemma parseInt_no_digit (tok : string) :
  has_decimal_digit tok = false → parseInt tok = None.
Proof.
  intros Htok%trim_start_no_digit. unfold parseInt.
  destruct (strip_sign (trim_start tok)) as [sign s2] eqn:Hsign.
  assert (has_decimal_digit s2 = false) as Hs2.
  { unfold strip_sign in Hsign.
    destruct (trim_start tok) as [|c rest]; [by injection Hsign as <- <-|].
    simpl in Htok. apply orb_false_iff in Htok as [Hc Hrest].
    destruct (Ascii.eqb c "-"); [by injection Hsign as <- <-|].
    destruct (Ascii.eqb c "+"); injection Hsign as <- <-; [done|].
    simpl. by rewrite Hc, Hrest. }
  destruct (strip_prefix s2) as [radix s3] eqn:Hprefix.
  assert (radix = 10 ∧ s3 = s2) as [-> ->].
  { unfold strip_prefix in Hprefix.
    destruct s2 as [|c1 [|c2 rest]]; try by injection Hprefix as <- <-.
    destruct (Ascii.eqb c1 "0") eqn:Hc1; [|by injection Hprefix as <- <-].
    apply Ascii.eqb_eq in Hc1. subst c1. done. }
  destruct s2 as [|c rest]; [done|]. simpl.
  simpl in Hs2. apply orb_false_iff in Hs2 as [Hc _].
  rewrite bool_decide_false; [done|].
  intros [d Hd]. apply radix_digit_decimal in Hd. congruence.
Qed.

(** *** Reading back a list of ids joined by commas *)

Section JoinFacts.

Lemma pretty_N_char_digit (d : N) :
  (d < 10)%N →
  is_decimal_digit (pretty_N_char d) = true
  ∧ radix_digit 10 (pretty_N_char d) = Some (Z.of_N d).
Proof.
  intros Hd.
  assert (d = 0 ∨ d = 1 ∨ d = 2 ∨ d = 3 ∨ d = 4 ∨ d = 5 ∨ d = 6 ∨ d = 7
          ∨ d = 8 ∨ d = 9)%N as Hcases by lia.
  repeat destruct Hcases as [->|Hcases]; try subst d; by vm_compute.
Qed.

Lemma pretty_N_go_digits (x : N) (s : string) :
  all_digits s = true → all_digits (pretty_N_go x s) = true.
Proof.
  revert s. induction (N.lt_wf_0 x) as [x _ IH]. intros s Hs.
  destruct (decide (x = 0)%N) as [->|Hx]; [by rewrite pretty_N_go_0|].
  rewrite pretty_N_go_step by lia. apply IH.
  - apply N.div_lt; lia.
  - simpl. rewrite Hs, andb_true_r.
    apply pretty_N_char_digit, N.mod_lt. lia.
Qed.

Lemma pretty_N_go_nonempty (x : N) (s : string) :
  (0 < x)%N → pretty_N_go x s ≠ EmptyString.
Proof.
  revert s. induction (N.lt_wf_0 x) as [x _ IH]. intros s Hx.
  rewrite pretty_N_go_step by done.
  destruct (decide (x `div` 10 = 0)%N) as [->|Hdiv].
  - by rewrite pretty_N_go_0.
  - apply IH; [apply N.div_lt; lia|]. by apply N.neq_0_lt_0.
Qed.

(** The digits [pretty_N_go] puts in front of [s] are read as [x]. *)
Lemma read_digits_pretty_N_go (x : N) (s : string) :
  ∃ k, 0 ≤ k ∧ ∀ acc,
    read_digits 10 acc (pretty_N_go x s) =
    read_digits 10 (acc * 10 ^ k + Z.of_N x) s.
Proof.
  revert s. induction (N.lt_wf_0 x) as [x _ IH]. intros s.
  destruct (decide (x = 0)%N) as [->|Hx].
  { exists 0. split; [done|]. intros acc. rewrite pretty_N_go_0.
    f_equal. lia. }
  rewrite pretty_N_go_step by lia.
  destruct (IH (x `div` 10)%N) with (s := String (pretty_N_char (x `mod` 10)) s)
    as (k & Hk & Hread); [apply N.div_lt; lia|].
  exists (k + 1). split; [lia|]. intros acc. rewrite Hread. simpl.
  destruct (pretty_N_char_digit (x `mod` 10)%N) as [_ ->];
    [apply N.mod_lt; lia|].
  f_equal. rewrite Z.pow_add_r, Z.pow_1_r by lia.
  rewrite (N.div_mod x 10) at 3 by lia.
  rewrite N2Z.inj_add, N2Z.inj_mul. simpl Z.of_N. lia.
Qed.

Lemma all_digits_no_comma (s : string) :
  all_digits s = true → split s = [s].
Proof.
  induction s as [|c s IH]; [done|]. simpl.
  intros [Hc Hs]%andb_true_iff. rewrite (IH Hs).
  destruct (Ascii.eqb c ",") eqn:Hcomma; [|done].
  apply Ascii.eqb_eq in Hcomma. subst c. done.
Qed.

Lemma digit_not_sign (c : ascii) :
  is_decimal_digit c = true →
  is_white_space c = false ∧ Ascii.eqb c "-" = false ∧ Ascii.eqb c "+" = false.
Proof.
  unfold is_decimal_digit, is_white_space.
  intros [Hlo%Z.leb_le Hhi%Z.leb_le]%andb_true_iff. repeat split.
  - apply orb_false_iff. split; [apply orb_false_iff; split|].
    + apply andb_false_iff. right. apply Z.leb_gt. lia.
    + apply Z.eqb_neq. lia.
    + apply Z.eqb_neq. lia.
  - apply Ascii.eqb_neq. intros ->. vm_compute in Hlo. by destruct Hlo.
  - apply Ascii.eqb_neq. intros ->. vm_compute in Hlo. by destruct Hlo.
Qed.

Lemma digits_radix_ten (s : string) :
  all_digits s = true → s ≠ EmptyString →
  strip_prefix s = (10, s) ∧ starts_with_digit 10 s = true.
Proof.
  intros Hs Hne. destruct s as [|c rest]; [done|].
  simpl in Hs. apply andb_true_iff in Hs as [Hc Hrest]. split.
  - unfold strip_prefix. destruct rest as [|c2 rest]; [done|].
    simpl in Hrest. apply andb_true_iff in Hrest as [Hc2 _].
    assert (Ascii.eqb c2 "x" = false ∧ Ascii.eqb c2 "X" = false) as [-> ->].
    { split; apply Ascii.eqb_neq; intros ->; by vm_compute in Hc2. }
    by rewrite andb_false_r.
  - unfold starts_with_digit. apply bool_decide_eq_true.
    unfold radix_digit, digit_value. unfold is_decimal_digit in Hc.
    rewrite Hc. apply andb_true_iff in Hc as [?%Z.leb_le ?%Z.leb_le].
    by rewrite (proj2 (Z.ltb_lt _ _)) by lia.
Qed.

(** A numeral of digits only is read by [parseInt] as its decimal value,
    and as the opposite after a minus sign. *)
Lemma parseInt_digits (s : string) :
  all_digits s = true → s ≠ EmptyString →
  parseInt s = Some (read_digits 10 0 s)
  ∧ parseInt (String "-" s) = Some (- read_digits 10 0 s).
Proof.
  intros Hs Hne. destruct (digits_radix_ten s Hs Hne) as [Hprefix Hstart].
  split.
  - destruct s as [|c rest]; [done|].
    simpl in Hs. apply andb_true_iff in Hs as [Hc Hrest].
    destruct (digit_not_sign c Hc) as (Hws & Hminus & Hplus).
    unfold parseInt. cbn [trim_start]. rewrite Hws.
    cbn [strip_sign]. rewrite Hminus, Hplus, Hprefix, Hstart.
    by rewrite Z.mul_1_l.
  - unfold parseInt. cbn [trim_start].
    change (is_white_space "-") with false. cbn [strip_sign].
    change (Ascii.eqb "-" "-") with true. cbn iota.
    rewrite Hprefix, Hstart. f_equal; lia.
Qed.

Lemma pretty_N_digits (x : N) :
  (0 < x)%N →
  all_digits (pretty x) = true ∧ pretty x ≠ EmptyString
  ∧ read_digits 10 0 (pretty x) = Z.of_N x.
Proof.
  intros Hx. unfold pretty, pretty_N. rewrite decide_False by lia.
  split; [by apply pretty_N_go_digits|].
  split; [by apply pretty_N_go_nonempty|].
  destruct (read_digits_pretty_N_go x EmptyString) as (k & _ & ->).
  simpl; f_equal; lia.
Qed.

(** The decimal rendering of an integer has no comma in it and reads back
    as the integer. *)
Lemma parseInt_pretty (n : Z) :
  split (pretty n) = [pretty n] ∧ parseInt (pretty n) = Some n.
Proof.
  destruct n as [|p|p]; [done| |].
  - change (pretty (Z.pos p)) with (pretty (N.pos p)).
    destruct (pretty_N_digits (N.pos p)) as (Hd & Hne & Hread); [done|].
    split; [by apply all_digits_no_comma|].
    destruct (parseInt_digits _ Hd Hne) as [-> _]. by rewrite Hread.
  - change (pretty (Z.neg p)) with (String "-" (pretty (N.pos p))).
    destruct (pretty_N_digits (N.pos p)) as (Hd & Hne & Hread); [done|].
    split.
    + cbn [split]. change (Ascii.eqb "-" ",") with false. cbn iota.
      by rewrite all_digits_no_comma.
    + destruct (parseInt_digits _ Hd Hne) as [_ ->]. by rewrite Hread.
Qed.

Lemma split_cons_token (tok rest : string) :
  split tok = [tok] →
  split (tok +:+ String "," rest) = tok :: split rest.
Proof.
  induction tok as [|c tok IH]; intros Htok; [done|].
  simpl in *. destruct (Ascii.eqb c ","); [done|].
  destruct (split tok) as [|t ts] eqn:Hsplit.
  - injection Htok as <-. done.
  - injection Htok as -> ->. by rewrite IH.
Qed.

(** The ids a client joins with commas are the ids the handler parses,
    but for the zeros. *)
Lemma parse_ids_join_ids (ids : list Z) :
  parse_ids (Listing.join_ids ids) = filter (λ id, id ≠ 0) ids.
Proof.
  unfold parse_ids, Listing.join_ids.
  rewrite filter_Boolean_numbers_tokens.
  assert (ids = [] ∨ split (String.concat "," (map pretty ids)) = map pretty ids)
    as [-> | ->].
  { induction ids as [|id ids IH]; [by left|]. right.
    destruct (parseInt_pretty id) as [Hsplit _].
    destruct ids as [|id' ids]; [done|].
    destruct IH as [?|IH]; [done|].
    change (String.concat "," (map pretty (id :: id' :: ids)))
      with (pretty id +:+ String "," (String.concat "," (map pretty (id' :: ids)))).
    by rewrite split_cons_token, IH. }
  { done. }
  induction ids as [|id ids IH]; [done|].
  cbn [map omap list_omap]. rewrite IH, filter_cons.
  unfold Listing.requested_id at 1.
  destruct (parseInt_pretty id) as [_ ->].
  case_bool_decide; [by rewrite decide_False by (by intros ?)|].
  by rewrite decide_True.
Qed.

End JoinFacts.

(** C2.  For every parsed id list and every list of rows returned by the
    store, the body of [GET /questions] is the JSON of rows of the store,
    one for each requested id that has a row and none for the others, in
    the order of the request; every listed object has exactly the six
    public keys, so no [correct_option]; with one row per id the body does
    not depend on the order of the rows; the handler sends this body for the
    rows selected from the table, where the listed ids are the requested ids
    the table has; a list of non-zero ids (in the range where a number is
    exact) joined by commas is parsed back as it is; and the request
    [3,1,2] is answered in the order 3, 1, 2 whenever the three rows
    exist. *)
Theorem questions_listed_in_request_order
    (idArray : list Z) (rows : list Questions.view) :
  (∃ listed,
      questions_body idArray rows = map view_json listed
      ∧ map Questions.v_id listed = Listing.requested_with_row idArray rows
      ∧ ∀ q, q ∈ listed → q ∈ rows)
  ∧ (∀ o, o ∈ questions_body idArray rows →
       keys o = Listing.view_keys ∧ "correct_option" ∉ keys o)
  ∧ (∀ rows', NoDup (map Questions.v_id rows) → rows' ≡ₚ rows →
       questions_body idArray rows' = questions_body idArray rows)
  ∧ (∀ st s, parse_ids s = idArray → idArray ≠ [] →
       questions (Some s) st =
       (st, Json 200 (JArr (questions_body idArray
                              (Store.select_views idArray (db st))))))
  ∧ (∀ st,
       map Questions.v_id
         (Listing.listed idArray (Store.select_views idArray (db st))) =
       filter (λ id, id ∈ map Questions.id (Store.questions (db st))) idArray)
  ∧ (∀ ids, (∀ id, id ∈ ids → id ≠ 0 ∧ - 2 ^ 53 < id < 2 ^ 53) →
       parse_ids (Listing.join_ids ids) = ids)
  ∧ (∀ rows3, (∀ id, id ∈ [3; 1; 2] → id ∈ map Questions.v_id rows3) →
       map Questions.v_id (Listing.listed [3; 1; 2] rows3) = [3; 1; 2]).
Proof.
  split; [|split; [|split; [|split; [|split; [|split]]]]].
  - exists (Listing.listed idArray rows). split; [done|].
    split; [apply listed_ids|]. intros q Hq.
    by destruct (listed_elem_of _ _ _ Hq).
  - intros o Ho. unfold questions_body in Ho.
    apply list_elem_of_fmap in Ho as (q & -> & _).
    split; [done|]. simpl. compute_done.
  - intros rows' Hnd Hperm. unfold questions_body.
    f_equal. by apply listed_Permutation.
  - intros st s Hs Hne. unfold questions. rewrite Hs.
    by destruct idArray.
  - intros st. apply listed_selected_ids.
  - intros ids Hids. rewrite parse_ids_join_ids.
    induction ids as [|id ids IH]; [done|].
    rewrite filter_cons, decide_True by (apply Hids; left).
    f_equal. apply IH. intros id' Hid'. apply Hids. by right.
  - intros rows3 Hall. rewrite listed_ids. unfold Listing.requested_with_row.
    rewrite !filter_cons, !decide_True; [done|apply Hall; set_solver..].
Qed.

(** The request [ids=3,1,2] against a table that stores the questions in
    the order 1, 2, 3. *)
Example questions_3_1_2 :
  (questions (Some "3,1,2") Sample.quiz_state).2 =
  Json 200 (JArr (map (λ q, view_json (Questions.to_view q))
    [Sample.question 3 "C"; Sample.question 1 "A"; Sample.question 2 "B"])).
Proof. vm_compute. reflexivity. Qed.

(** ** Ids that are never requested *)

(** C10.  The id list of [GET /questions] is made of the tokens between the
    commas, each read by [parseInt], in the order of the tokens, without
    those that read as [NaN] (among them every token without a decimal
    digit) and those that read as zero.  So zero is never
    among the requested ids, and whatever rows the store holds or returns,
    no question with id zero is listed in the reply. *)
Theorem questions_never_requests_zero (s : string) :
  parse_ids s = omap Listing.requested_id (split s)
  ∧ (∀ tok, has_decimal_digit tok = false → Listing.requested_id tok = None)
  ∧ (∀ tok, parseInt tok = Some 0 → Listing.requested_id tok = None)
  ∧ (0 ∉ parse_ids s)
  ∧ (∀ rows q, q ∈ Listing.listed (parse_ids s) rows → Questions.v_id q ≠ 0)
  ∧ (∀ st,
       (parse_ids s = [] ∧ questions (Some s) st = (st, Uncaught))
       ∨ ∃ listed,
           questions (Some s) st = (st, Json 200 (JArr (map view_json listed)))
           ∧ ∀ q, q ∈ listed → Questions.v_id q ≠ 0).
Proof.
  assert (0 ∉ parse_ids s) as Hzero.
  { rewrite elem_of_parse_ids. by intros [? _]. }
  assert (∀ rows q, q ∈ Listing.listed (parse_ids s) rows →
            Questions.v_id q ≠ 0) as Hlisted.
  { intros rows q Hq Hid. apply listed_elem_of in Hq as [_ Hq].
    by rewrite Hid in Hq. }
  split; [apply filter_Boolean_numbers_tokens|].
  split.
  { intros tok Htok. unfold Listing.requested_id.
    by rewrite parseInt_no_digit. }
  split.
  { intros tok Htok. unfold Listing.requested_id. by rewrite Htok. }
  split; [done|]. split; [done|].
  intros st. unfold questions.
  destruct (parse_ids s) as [|id idArray] eqn:Hids; [by left|].
  right. eexists. split; [reflexivity|]. apply Hlisted.
Qed.

(** Tokens with no leading numeral and tokens that read as zero disappear;
    a token is read up to its first non-digit. *)
Example parse_ids_ex :
  parse_ids "3,abc,0,1,,-0,0x0, 2,7up,x9" = [3; 1; 2; 7].
Proof. reflexivity. Qed.

(** ** Submitting without a started attempt *)

Section ResubmitFacts.
Implicit Types (st : state) (d : Store.database).

Lemma select_attempt_nil attemptId userId d :
  (∀ a, a ∈ Store.attempts d →
     ¬ (Attempts.id a = attemptId ∧ Attempts.user_id a = userId
        ∧ Attempts.status a = "started")) →
  Store.select_attempt attemptId userId "started" d = [].
Proof.
  intros Hnone. unfold Store.select_attempt.
  induction (Store.attempts d) as [|a l IH]; [done|].
  rewrite filter_cons, decide_False.
  - apply IH. intros a' Ha'. apply Hnone. by right.
  - intros (Hid & [_ Huser] & Hst). by apply (Hnone a); [left|].
Qed.

(** What a scored submission tells about the call and the state it leaves. *)
Lemma submit_answers_scored e userId attemptId answers st st' :
  submit_answers e userId attemptId answers st =
    (st', Json 200 (message "Quiz submitted successfully!")) →
  ∃ score,
    st' = with_db (Store.update_quiz_status "completed" userId
                     (Store.complete_attempt score attemptId (now e) (db st))) st.
Proof.
  unfold submit_answers.
  destruct (Store.select_attempt _ _ _ _) as [|attempt rest]; [done|].
  destruct (Attempts.shuffled_questions attempt); [done|].
  destruct answers; [|done]. intros [= <-]. eauto.
Qed.

Lemma completed_not_selected score userId userId' attemptId t d :
  Store.select_attempt attemptId userId' "started"
    (Store.update_quiz_status "completed" userId
       (Store.complete_attempt score attemptId t d)) = [].
Proof.
  apply select_attempt_nil. intros a Ha (Hid & _ & Hst).
  cbn in Ha. apply list_elem_of_fmap in Ha as (a0 & -> & _).
  case_bool_decide; simpl in *; [done|contradiction].
Qed.

End ResubmitFacts.

(** C3.  When no attempt has the given id, the calling user as owner and
    the status "started", the call replies 200 with the message
    "Quiz already submitted." and returns the state it was given: no score
    is written, no attempt and no user row changes.  After a submission
    that was scored, a second call for the same attempt id, by whatever
    user and with whatever answers, is such a call: it leaves the state,
    and with it the score and the status set by the first, as it is.  The
    same reply comes through the router for a logged-in caller. *)
Theorem submit_answers_without_started_attempt
    (e : env) (st : state) (userId : option Z) (attemptId : Z)
    (answers : option (gmap Z json)) :
  ((∀ a, a ∈ Store.attempts (db st) →
      ¬ (Attempts.id a = attemptId ∧ Attempts.user_id a = userId
         ∧ Attempts.status a = "started")) →
   submit_answers e userId attemptId answers st =
     (st, Json 200 (message "Quiz already submitted."))
   ∧ ∀ bcrypt_hash bcrypt_compare toISOString h c,
       isLoggedIn h st = inr c → req_userId c = userId →
       handle bcrypt_hash bcrypt_compare toISOString e
         (SubmitAnswers h attemptId answers) st =
       (st, Json 200 (message "Quiz already submitted.")))
  ∧ (∀ st' e' userId' answers',
       submit_answers e userId attemptId answers st =
         (st', Json 200 (message "Quiz submitted successfully!")) →
       submit_answers e' userId' attemptId answers' st' =
         (st', Json 200 (message "Quiz already submitted."))).
Proof.
  split.
  - intros Hnone.
    assert (submit_answers e userId attemptId answers st =
            (st, Json 200 (message "Quiz already submitted."))) as Hsubmit.
    { unfold submit_answers. by rewrite select_attempt_nil. }
    split; [done|].
    intros bcrypt_hash bcrypt_compare toISOString h c Hc Huser.
    unfold handle, logged_in. by rewrite Hc, Huser.
  - intros st' e' userId' answers' [score ->]%submit_answers_scored.
    unfold submit_answers. cbn [db with_db].
    by rewrite completed_not_selected.
Qed.

Lemma submit_answers_without_started_attempt_witness :
  let st1 :=
    (submit_answers Sample.env0 (Some 5) 7 (Some Sample.quiz_answers)
       Sample.quiz_state).1 in
  submit_answers Sample.env0 (Some 6) 7 (Some Sample.quiz_answers)
    Sample.quiz_state =
    (Sample.quiz_state, Json 200 (message "Quiz already submitted."))
  ∧ submit_answers Sample.env0 (Some 5) 7 (Some Sample.quiz_answers) st1 =
    (st1, Json 200 (message "Quiz already submitted.")).
Proof.
  split.
  - refine (proj1 (proj1 (submit_answers_without_started_attempt Sample.env0
             Sample.quiz_state (Some 6) 7 (Some Sample.quiz_answers)) _)).
    intros a Ha (_ & Huser & _). cbn in Ha.
    apply list_elem_of_singleton in Ha as ->. discriminate Huser.
  - apply (proj2 (submit_answers_without_started_attempt Sample.env0
             Sample.quiz_state (Some 5) 7 (Some Sample.quiz_answers))).
    reflexivity.
Defined.

(** ** Starting a quiz with too few questions *)

(** C8.  With fewer than [QUIZ_LENGTH] = 50 question rows, start-quiz
    replies 400 "Not enough questions" and returns the state it was given:
    no attempt is created and no [quiz_status] changes.  Through the router
    the state is unchanged whatever the session, and the reply is this 400
    as soon as the caller is logged in. *)
Theorem start_quiz_not_enough_questions
    (e : env) (userId : option Z) (st : state) :
  Z.of_nat (length (Store.questions (db st))) < QUIZ_LENGTH →
  QUIZ_LENGTH = 50
  ∧ start_quiz e userId st = (st, Json 400 (message "Not enough questions"))
  ∧ ∀ bcrypt_hash bcrypt_compare toISOString h,
      (handle bcrypt_hash bcrypt_compare toISOString e (StartQuiz h) st).1 = st
      ∧ ∀ s, isLoggedIn h st = inr s →
          handle bcrypt_hash bcrypt_compare toISOString e (StartQuiz h) st =
          (st, Json 400 (message "Not enough questions")).
Proof.
  intros Hfew.
  assert (start_quiz e userId st =
          (st, Json 400 (message "Not enough questions"))) as Hstart.
  { unfold start_quiz. by rewrite (proj2 (Z.ltb_lt _ _) Hfew). }
  split; [done|]. split; [done|].
  intros bcrypt_hash bcrypt_compare toISOString h.
  unfold handle, logged_in, start_quiz.
  rewrite (proj2 (Z.ltb_lt _ _) Hfew).
  destruct (isLoggedIn h st) as [early|s]; split; try done.
Qed.

Lemma start_quiz_not_enough_questions_witness :
  start_quiz Sample.env0 (Some 5) Sample.quiz_state =
  (Sample.quiz_state, Json 400 (message "Not enough questions")).
Proof.
  refine (proj1 (proj2 (start_quiz_not_enough_questions Sample.env0 (Some 5)
                          Sample.quiz_state _))).
  vm_compute. reflexivity.
Defined.

(** ** Login *)

Section LoginFacts.
Variable bcrypt_compare : string → string → bool.
Variable e : env.
Implicit Types (st : state) (u : Users.row).

(** With unique emails the statement of [POST /login] selects the user
    that has the email. *)
Lemma select_user_by_email_head st u :
  NoDup (map Users.email (Store.users (db st))) →
  u ∈ Store.users (db st) →
  head (Store.select_user_by_email (Users.email u) (db st)) = Some u.
Proof.
  unfold Store.select_user_by_email.
  induction (Store.users (db st)) as [|x l IH]; [by intros _ ?%elem_of_nil|].
  intros Hnd Hin. rewrite filter_cons. case_decide as Hx.
  - simpl. f_equal.
    eapply (NoDup_fmap_elem_inj Users.email (x :: l)); [done|left|done|done].
  - apply elem_of_cons in Hin as [->|Hin]; [done|].
    apply IH; [|done]. simpl in Hnd. by apply NoDup_cons in Hnd as [_ ?].
Qed.

Lemma select_user_by_email_unknown st email :
  email ∉ map Users.email (Store.users (db st)) →
  Store.select_user_by_email email (db st) = [].
Proof.
  unfold Store.select_user_by_email.
  induction (Store.users (db st)) as [|x l IH]; [done|].
  simpl. intros [Hx Hl]%not_elem_of_cons.
  rewrite filter_cons, decide_False by done. by apply IH.
Qed.

End LoginFacts.

(** C6.  Emails being unique, a student whose [quiz_status] is "completed"
    or "disqualified" gets 403 "Quiz already completed" from login, whatever
    the password and whatever [bcrypt.compare] would answer; the state, and
    so the [sessions] object, is the one before the call. *)
Theorem login_refuses_finished_student
    (bcrypt_compare : string → string → bool) (e : env) (st : state)
    (u : Users.row) (password : string) :
  NoDup (map Users.email (Store.users (db st))) →
  u ∈ Store.users (db st) →
  Users.role u = "student" →
  Users.quiz_status u = "completed" ∨ Users.quiz_status u = "disqualified" →
  login bcrypt_compare e (Users.email u) password st =
    (st, Json 403 (message "Quiz already completed"))
  ∧ sessions (login bcrypt_compare e (Users.email u) password st).1 = sessions st
  ∧ ∀ bcrypt_hash toISOString,
      handle bcrypt_hash bcrypt_compare toISOString e
        (Login (Users.email u) password) st =
      (st, Json 403 (message "Quiz already completed")).
Proof.
  intros Hnd Hin Hrole Hstatus.
  assert (login bcrypt_compare e (Users.email u) password st =
          (st, Json 403 (message "Quiz already completed"))) as Hlogin.
  { unfold login. rewrite select_user_by_email_head by done.
    rewrite Hrole. rewrite (bool_decide_true (_ = _)) by done.
    rewrite bool_decide_true; [done|].
    destruct Hstatus as [-> | ->]; set_solver. }
  by rewrite Hlogin.
Qed.

Lemma login_refuses_finished_student_witness :
  login LoginSample.compare_plain Sample.env0 "s5@example.org" "hash"
    LoginSample.finished_state =
  (LoginSample.finished_state, Json 403 (message "Quiz already completed")).
Proof.
  refine (proj1 (login_refuses_finished_student LoginSample.compare_plain
    Sample.env0 LoginSample.finished_state
    (Sample.student 5 "s5@example.org" "completed") "hash" _ _ _ _)).
  - simpl. compute_done.
  - left.
  - reflexivity.
  - by left.
Defined.

(** C9 (as amended).  Emails being unique, a login with an email that no
    user has and a login with the email of a user who is not a student with
    [quiz_status] "completed" or "disqualified", with a password that
    [bcrypt.compare] rejects, get the same reply, 401 "Invalid login", and
    leave the state as it is. *)
Theorem login_invalid_same_reply
    (bcrypt_compare : string → string → bool) (e : env) (st : state)
    (email1 password1 : string) (u : Users.row) (password2 : string) :
  NoDup (map Users.email (Store.users (db st))) →
  email1 ∉ map Users.email (Store.users (db st)) →
  u ∈ Store.users (db st) →
  bcrypt_compare password2 (Users.password_hash u) = false →
  ¬ (Users.role u = "student"
     ∧ Users.quiz_status u ∈ ["completed"; "disqualified"]) →
  login bcrypt_compare e email1 password1 st =
    (st, Json 401 (message "Invalid login"))
  ∧ login bcrypt_compare e (Users.email u) password2 st =
    (st, Json 401 (message "Invalid login")).
Proof.
  intros Hnd Hunknown Hin Hmismatch Hopen. split.
  - unfold login. by rewrite select_user_by_email_unknown.
  - unfold login. rewrite select_user_by_email_head by done.
    rewrite Hmismatch. simpl.
    destruct (bool_decide (Users.role u = "student")) eqn:Hrole;
      destruct (bool_decide (Users.quiz_status u ∈ _)) eqn:Hstatus;
      simpl; try done.
    apply bool_decide_eq_true in Hrole, Hstatus. by destruct Hopen.
Qed.

Lemma login_invalid_same_reply_witness :
  login LoginSample.compare_plain Sample.env0 "nobody@example.org" "guess"
    Sample.quiz_state =
  login LoginSample.compare_plain Sample.env0 "s5@example.org" "guess"
    Sample.quiz_state.
Proof.
  destruct (login_invalid_same_reply LoginSample.compare_plain Sample.env0
    Sample.quiz_state "nobody@example.org" "guess"
    (Sample.student 5 "s5@example.org" "started") "guess") as [H1 H2].
  - simpl. compute_done.
  - simpl. compute_done.
  - left.
  - reflexivity.
  - intros [_ Hstatus]. revert Hstatus. simpl. compute_done.
  - etrans; [exact H1|symmetry; exact H2].
Defined.

(** Counterexample to C9 as stated: a student who has finished the quiz.
    The unknown email gets 401 "Invalid login"; the known email with a
    password that does not match gets 403 "Quiz already completed". *)
Lemma login_finished_student_distinguishable :
  ("nobody@example.org"
     ∉ map Users.email (Store.users (db LoginSample.finished_state)))
  ∧ LoginSample.compare_plain "guess" "hash" = false
  ∧ (login LoginSample.compare_plain Sample.env0 "nobody@example.org" "guess"
       LoginSample.finished_state).2 = Json 401 (message "Invalid login")
  ∧ (login LoginSample.compare_plain Sample.env0 "s5@example.org" "guess"
       LoginSample.finished_state).2 = Json 403 (message "Quiz already completed")
  ∧ (login LoginSample.compare_plain Sample.env0 "nobody@example.org" "guess"
       LoginSample.finished_state).2
    ≠ (login LoginSample.compare_plain Sample.env0 "s5@example.org" "guess"
       LoginSample.finished_state).2.
Proof.
  split; [simpl; compute_done|].
  split; [reflexivity|]. split; [reflexivity|]. split; [reflexivity|].
  discriminate.
Qed.

(** ** The reporting order *)

Section ReportingFacts.
Implicit Types (r : Attempts.row * Users.row) (d : Store.database).

Local Ltac compare_cases :=
  repeat match goal with
         | |- context [?x ?= ?y] => destruct (Z.compare_spec x y)
         | H : context [?x ?= ?y] |- _ => destruct (Z.compare_spec x y)
         end.

#[local] Instance ranks_before_total : Total Store.ranks_before.
Proof.
  intros [a1 u1] [a2 u2].
  unfold Store.ranks_before, Store.order_by, Store.score_desc,
    Store.end_time_asc. simpl.
  destruct (Attempts.score a1), (Attempts.score a2),
    (Attempts.end_time a1), (Attempts.end_time a2);
    compare_cases; try (by left); try (by right); lia.
Qed.

#[local] Instance ranks_before_trans : Transitive Store.ranks_before.
Proof.
  intros [a1 u1] [a2 u2] [a3 u3].
  unfold Store.ranks_before, Store.order_by, Store.score_desc,
    Store.end_time_asc. simpl.
  destruct (Attempts.score a1), (Attempts.score a2), (Attempts.score a3),
    (Attempts.end_time a1), (Attempts.end_time a2), (Attempts.end_time a3);
    compare_cases; try done; try lia.
Qed.

(** What ranking before means for two rows that have a score. *)
Lemma ranks_before_scores r1 r2 s1 s2 :
  Store.ranks_before r1 r2 →
  Attempts.score r1.1 = Some s1 → Attempts.score r2.1 = Some s2 →
  s2 ≤ s1
  ∧ (s1 = s2 → ∀ t1 t2,
       Attempts.end_time r1.1 = Some t1 → Attempts.end_time r2.1 = Some t2 →
       t1 ≤ t2).
Proof.
  unfold Store.ranks_before, Store.order_by, Store.score_desc,
    Store.end_time_asc.
  intros Hr H1 H2. rewrite H1, H2 in Hr. split.
  - destruct (Z.compare_spec s2 s1); [lia..|done].
  - intros -> t1 t2 Ht1 Ht2. rewrite Z.compare_refl, Ht1, Ht2 in Hr.
    destruct (Z.compare_spec t1 t2); [lia..|done].
Qed.

Lemma elem_of_completed_joined d r :
  r ∈ Store.completed_joined d ↔
  r.1 ∈ Store.attempts d ∧ Attempts.status r.1 = "completed"
  ∧ r.2 ∈ Store.users d ∧ Some (Users.id r.2) = Attempts.user_id r.1.
Proof.
  unfold Store.completed_joined. rewrite list_elem_of_bind. split.
  - intros (a & Hr & Ha). apply list_elem_of_filter in Ha as [Hst Ha].
    apply list_elem_of_bind in Hr as (u & Hr & Hu).
    apply list_elem_of_filter in Hu as [Hid Hu].
    apply list_elem_of_singleton in Hr as ->. done.
  - destruct r as [a u]. simpl. intros (Ha & Hst & Hu & Hid).
    exists a. split; [|by apply list_elem_of_filter].
    apply list_elem_of_bind. exists u.
    split; [by apply list_elem_of_singleton|by apply list_elem_of_filter].
Qed.

Lemma select_completed_ordered_sorted d :
  StronglySorted Store.ranks_before (Store.select_completed_ordered d).
Proof. apply StronglySorted_merge_sort; apply _. Qed.

Lemma StronglySorted_lookup {A} (R : relation A) (l : list A) i j x y :
  StronglySorted R l → (i < j)%nat → l !! i = Some x → l !! j = Some y → R x y.
Proof.
  intros Hsorted. revert i j.
  induction Hsorted as [|z l Hsorted IH Hall]; intros i j Hij Hi Hj; [done|].
  destruct j as [|j]; [lia|]. simpl in Hj. destruct i as [|i]; simpl in Hi.
  - injection Hi as ->. rewrite Forall_forall in Hall.
    apply Hall. by eapply list_elem_of_lookup_2.
  - apply (IH i j); [lia|done..].
Qed.

End ReportingFacts.

(** C7.  The results of the admin metrics are the completed attempts joined
    with their users, each once, in an order where a row listed earlier has
    a score at least as high as a row listed later and, at equal scores, an
    end time no later.  The leaderboard is the first ten rows of the same
    ordered list, and both replies carry their rows in that order. *)
Theorem admin_results_ordered (toISOString : Z → string) (st : state) :
  let results := admin_results (db st) in
  results ≡ₚ Store.completed_joined (db st)
  ∧ (∀ r, r ∈ results ↔
       r.1 ∈ Store.attempts (db st) ∧ Attempts.status r.1 = "completed"
       ∧ r.2 ∈ Store.users (db st) ∧ Some (Users.id r.2) = Attempts.user_id r.1)
  ∧ (∀ i j r1 r2 s1 s2,
       (i < j)%nat → results !! i = Some r1 → results !! j = Some r2 →
       Attempts.score r1.1 = Some s1 → Attempts.score r2.1 = Some s2 →
       s2 ≤ s1
       ∧ (s1 = s2 → ∀ t1 t2,
            Attempts.end_time r1.1 = Some t1 →
            Attempts.end_time r2.1 = Some t2 → t1 ≤ t2))
  ∧ leaderboard_rows (db st) = take 10 results
  ∧ (∃ totals,
       (admin_metrics toISOString st).2 =
       Json 200 (JObj (totals ++
         [("results", JArr (map (result_json toISOString) results))])))
  ∧ (leaderboard_data toISOString st).2 =
      Json 200 (JArr (map (leaderboard_json toISOString) (take 10 results))).
Proof.
  intros results.
  assert (results ≡ₚ Store.completed_joined (db st)) as Hperm.
  { apply merge_sort_Permutation. }
  split; [done|]. split.
  { intros r. rewrite Hperm. apply elem_of_completed_joined. }
  split.
  { intros i j r1 r2 s1 s2 Hij Hi Hj. apply ranks_before_scores.
    eapply StronglySorted_lookup; [apply select_completed_ordered_sorted|done..]. }
  split; [done|]. split; [|done].
  by eexists [_; _; _].
Qed.

Example admin_results_ex :
  map (λ r, (Attempts.id r.1, Attempts.score r.1, Attempts.end_time r.1))
    (admin_results (db (Sample.state_of
       [Sample.student 5 "s5@example.org" "completed"]
       []
       [Sample.completed_attempt 1 5 3 50; Sample.completed_attempt 2 5 5 90;
        Sample.started_attempt 3 5 [1]; Sample.completed_attempt 4 5 5 70])))
  = [(4, Some 5, Some 70); (2, Some 5, Some 90); (1, Some 3, Some 50)].
Proof. vm_compute. reflexivity. Qed.

(** ** Who sees a score *)

Section ScoreVisibility.
Variable bcrypt_hash : string → string → string.
Variable bcrypt_compare : string → string → bool.
Variable toISOString : Z → string.
Variable e : env.
Implicit Types (st : state) (r : request) (d : Store.database).

Local Abbreviation handle :=
  (handle bcrypt_hash bcrypt_compare toISOString e).
Local Abbreviation agree := Scores.agree.

Lemma erase_score_idemp a :
  Scores.erase_score (Scores.erase_score a) = Scores.erase_score a.
Proof. done. Qed.

Lemma map_erase_score_idemp (l : list Attempts.row) :
  map Scores.erase_score (map Scores.erase_score l) = map Scores.erase_score l.
Proof. rewrite map_map. by apply map_ext. Qed.

Lemma erase_idemp st : Scores.erase (Scores.erase st) = Scores.erase st.
Proof.
  unfold Scores.erase, Store.with_attempts. simpl.
  by rewrite map_erase_score_idemp.
Qed.

Lemma agree_refl_erase st resp : agree (Scores.erase st, resp) (st, resp).
Proof. split; [done|apply erase_idemp]. Qed.

Lemma select_attempt_erase attemptId userId status d :
  Store.select_attempt attemptId userId status
    (Store.with_attempts (map Scores.erase_score (Store.attempts d)) d) =
  map Scores.erase_score (Store.select_attempt attemptId userId status d).
Proof.
  unfold Store.select_attempt. simpl.
  induction (Store.attempts d) as [|a l IH]; [done|].
  simpl. rewrite !filter_cons. simpl. rewrite IH.
  by case_decide.
Qed.

Lemma complete_erase score attemptId t (l : list Attempts.row) :
  map Scores.erase_score
    (map (λ a, if bool_decide (Attempts.id a = attemptId)
               then Attempts.complete score t a else a)
       (map Scores.erase_score l)) =
  map Scores.erase_score
    (map (λ a, if bool_decide (Attempts.id a = attemptId)
               then Attempts.complete score t a else a) l).
Proof.
  rewrite !map_map. apply map_ext. intros a. simpl. by case_bool_decide.
Qed.

Lemma register_erase fullName email password st :
  agree (register bcrypt_hash e fullName email password (Scores.erase st))
        (register bcrypt_hash e fullName email password st).
Proof.
  unfold register.
  destruct (_ || _); [apply agree_refl_erase|].
  unfold Store.insert_user. simpl.
  case_bool_decide; [apply agree_refl_erase|].
  split; [done|]. unfold Scores.erase. simpl.
  by rewrite map_erase_score_idemp.
Qed.

Lemma login_erase email password st :
  agree (login bcrypt_compare e email password (Scores.erase st))
        (login bcrypt_compare e email password st).
Proof.
  unfold login. simpl.
  change (Store.select_user_by_email email (Store.with_attempts _ (db st)))
    with (Store.select_user_by_email email (db st)).
  destruct (head _) as [user|]; [|apply agree_refl_erase].
  destruct (_ && _); [apply agree_refl_erase|].
  destruct (negb _); [apply agree_refl_erase|].
  split; [done|]. unfold Scores.erase. simpl.
  by rewrite map_erase_score_idemp.
Qed.

Lemma logout_erase h st : agree (logout h (Scores.erase st)) (logout h st).
Proof.
  unfold logout. destruct (x_session_id h) as [sid|]; [|apply agree_refl_erase].
  destruct (falsy_string sid); [apply agree_refl_erase|].
  split; [done|]. unfold Scores.erase. simpl.
  by rewrite map_erase_score_idemp.
Qed.

Lemma start_quiz_erase userId st :
  agree (start_quiz e userId (Scores.erase st)) (start_quiz e userId st).
Proof.
  unfold start_quiz. simpl.
  destruct (_ <? _); [apply agree_refl_erase|].
  split; [done|]. unfold Scores.erase. simpl.
  by rewrite !map_app, map_erase_score_idemp.
Qed.

Lemma questions_erase ids st :
  agree (questions ids (Scores.erase st)) (questions ids st).
Proof.
  unfold questions. destruct ids as [s|]; [|apply agree_refl_erase].
  destruct (parse_ids s); apply agree_refl_erase.
Qed.

Lemma submit_answers_erase userId attemptId answers st :
  agree (submit_answers e userId attemptId answers (Scores.erase st))
        (submit_answers e userId attemptId answers st).
Proof.
  unfold submit_answers. cbn [Scores.erase db].
  rewrite select_attempt_erase.
  destruct (Store.select_attempt _ _ _ _) as [|attempt rest];
    [apply agree_refl_erase|].
  simpl. destruct (Attempts.shuffled_questions attempt) as [|id ids];
    [apply agree_refl_erase|].
  destruct answers as [answers|]; [|apply agree_refl_erase].
  split; [done|]. unfold Scores.erase. simpl.
  by rewrite complete_erase.
Qed.

Lemma admin_questions_erase st req :
  match req with
  | AdminQuestionsList _ =>
      agree (admin_questions_list (Scores.erase st)) (admin_questions_list st)
  | AdminQuestionsCreate _ q a b c d correct =>
      agree (admin_questions_create q a b c d correct (Scores.erase st))
            (admin_questions_create q a b c d correct st)
  | AdminQuestionsDelete _ id =>
      agree (admin_questions_delete id (Scores.erase st))
            (admin_questions_delete id st)
  | _ => True
  end.
Proof.
  destruct req; try done.
  - apply agree_refl_erase.
  - unfold admin_questions_create.
    destruct (_ || _); [apply agree_refl_erase|].
    split; [done|]. unfold Scores.erase. simpl.
    by rewrite map_erase_score_idemp.
  - split; [done|]. unfold Scores.erase. simpl.
    by rewrite map_erase_score_idemp.
Qed.

(** Any request other than a report asked by an admin is answered the same
    with the scores blanked. *)
Lemma handle_erase r st :
  Scores.admin_report r st = false →
  agree (handle r (Scores.erase st)) (handle r st).
Proof.
  intros Hr. destruct r; simpl in *.
  - apply register_erase.
  - apply login_erase.
  - apply logout_erase.
  - unfold admin_only, logged_in, isAdmin in *.
    change (isLoggedIn h (Scores.erase st)) with (isLoggedIn h st).
    destruct (isLoggedIn h st) as [early|s]; [apply agree_refl_erase|].
    apply bool_decide_eq_false in Hr. rewrite bool_decide_true by done.
    apply agree_refl_erase.
  - unfold admin_only, logged_in.
    change (isLoggedIn h (Scores.erase st)) with (isLoggedIn h st).
    destruct (isLoggedIn h st) as [early|s]; [apply agree_refl_erase|].
    destruct (isAdmin s); [apply agree_refl_erase|].
    apply (admin_questions_erase st (AdminQuestionsList h)).
  - unfold admin_only, logged_in.
    change (isLoggedIn h (Scores.erase st)) with (isLoggedIn h st).
    destruct (isLoggedIn h st) as [early|s]; [apply agree_refl_erase|].
    destruct (isAdmin s); [apply agree_refl_erase|].
    apply (admin_questions_erase st
             (AdminQuestionsCreate h questionText optionA optionB optionC
                optionD correctOption)).
  - unfold admin_only, logged_in.
    change (isLoggedIn h (Scores.erase st)) with (isLoggedIn h st).
    destruct (isLoggedIn h st) as [early|s]; [apply agree_refl_erase|].
    destruct (isAdmin s); [apply agree_refl_erase|].
    apply (admin_questions_erase st (AdminQuestionsDelete h id)).
  - unfold logged_in.
    change (isLoggedIn h (Scores.erase st)) with (isLoggedIn h st).
    destruct (isLoggedIn h st) as [early|s]; [apply agree_refl_erase|].
    apply start_quiz_erase.
  - unfold logged_in.
    change (isLoggedIn h (Scores.erase st)) with (isLoggedIn h st).
    destruct (isLoggedIn h st) as [early|s]; [apply agree_refl_erase|].
    apply questions_erase.
  - unfold logged_in.
    change (isLoggedIn h (Scores.erase st)) with (isLoggedIn h st).
    destruct (isLoggedIn h st) as [early|s]; [apply agree_refl_erase|].
    apply submit_answers_erase.
  - unfold admin_only, logged_in, isAdmin in *.
    change (isLoggedIn h (Scores.erase st)) with (isLoggedIn h st).
    destruct (isLoggedIn h st) as [early|s]; [apply agree_refl_erase|].
    apply bool_decide_eq_false in Hr. rewrite bool_decide_true by done.
    apply agree_refl_erase.
Qed.

Lemma admin_report_erase r st :
  Scores.admin_report r (Scores.erase st) = Scores.admin_report r st.
Proof. by destruct r. Qed.

(** One request, from two states that differ only in scores. *)
Lemma handle_same_but_scores r st1 st2 :
  Scores.same_but_scores st1 st2 →
  Scores.admin_report r st1 = false →
  (handle r st1).2 = (handle r st2).2
  ∧ Scores.same_but_scores (handle r st1).1 (handle r st2).1.
Proof.
  intros Hsame Hreport. unfold Scores.same_but_scores in *.
  assert (Scores.admin_report r st2 = false) as Hreport2.
  { by rewrite <- admin_report_erase, <- Hsame, admin_report_erase. }
  destruct (handle_erase r st1 Hreport) as [Hreply1 Hstate1].
  destruct (handle_erase r st2 Hreport2) as [Hreply2 Hstate2].
  rewrite <- Hreply1, <- Hreply2, <- Hstate1, <- Hstate2.
  by rewrite Hsame.
Qed.

End ScoreVisibility.

(** A run without admin reports, from two states that differ only in
    scores: the same replies. *)
Lemma run_same_but_scores bcrypt_hash bcrypt_compare toISOString
    (rs : list (env * request)) (st1 st2 : state) :
  Scores.same_but_scores st1 st2 →
  Scores.no_admin_report bcrypt_hash bcrypt_compare toISOString rs st1 = true →
  (Scores.run bcrypt_hash bcrypt_compare toISOString rs st1).2 =
  (Scores.run bcrypt_hash bcrypt_compare toISOString rs st2).2.
Proof.
  revert st1 st2. induction rs as [|[e r] rs IH]; intros st1 st2 Hsame Hno;
    [done|].
  simpl in Hno. apply andb_true_iff in Hno as [Hr%negb_true_iff Hno].
  destruct (handle_same_but_scores bcrypt_hash bcrypt_compare toISOString
              e r st1 st2 Hsame Hr) as [Hreply Hstate].
  specialize (IH _ _ Hstate Hno). simpl.
  destruct (handle _ _ _ e r st1) as [st1' reply1].
  destruct (handle _ _ _ e r st2) as [st2' reply2].
  simpl in *. subst reply2.
  destruct (Scores.run _ _ _ rs st1') as [st1'' replies1].
  destruct (Scores.run _ _ _ rs st2') as [st2'' replies2].
  simpl in *. by subst.
Qed.

(** C5.  Whatever is submitted, the reply of submit-answers is 200 with a
    body made of the single key [message] holding one of two fixed texts, or
    no reply at all; it is the same for any two answer maps, so it carries
    nothing of the score.  More generally, every request other than one of
    the two reporting requests made with an admin session gets the same
    reply from two states that differ only in the scores of their attempts,
    and leaves two states that again differ only in scores; so a run of
    requests without such a report gets the same replies from both. *)
Theorem score_only_in_admin_reports
    (bcrypt_hash : string → string → string)
    (bcrypt_compare : string → string → bool)
    (toISOString : Z → string) (e : env) :
  (∀ userId attemptId answers st,
     let reply := (submit_answers e userId attemptId answers st).2 in
     reply = Json 200 (message "Quiz submitted successfully!")
     ∨ reply = Json 200 (message "Quiz already submitted.")
     ∨ reply = Uncaught)
  ∧ keys (message "Quiz submitted successfully!") = ["message"]
  ∧ (∀ userId attemptId answers answers' st,
       (submit_answers e userId attemptId (Some answers) st).2 =
       (submit_answers e userId attemptId (Some answers') st).2)
  ∧ (∀ r st1 st2,
       Scores.same_but_scores st1 st2 →
       Scores.admin_report r st1 = false →
       (handle bcrypt_hash bcrypt_compare toISOString e r st1).2 =
       (handle bcrypt_hash bcrypt_compare toISOString e r st2).2
       ∧ Scores.same_but_scores
           (handle bcrypt_hash bcrypt_compare toISOString e r st1).1
           (handle bcrypt_hash bcrypt_compare toISOString e r st2).1)
  ∧ (∀ rs st1 st2,
       Scores.same_but_scores st1 st2 →
       Scores.no_admin_report bcrypt_hash bcrypt_compare toISOString rs st1
         = true →
       (Scores.run bcrypt_hash bcrypt_compare toISOString rs st1).2 =
       (Scores.run bcrypt_hash bcrypt_compare toISOString rs st2).2).
Proof.
  split; [|split; [done|split; [|split]]].
  - intros userId attemptId answers st. unfold submit_answers.
    destruct (Store.select_attempt _ _ _ _) as [|attempt rest]; [by auto|].
    destruct (Attempts.shuffled_questions attempt); [by auto|].
    destruct answers; by auto.
  - intros userId attemptId answers answers' st. unfold submit_answers.
    destruct (Store.select_attempt _ _ _ _) as [|attempt rest]; [done|].
    by destruct (Attempts.shuffled_questions attempt).
  - intros r st1 st2. apply handle_same_but_scores.
  - intros rs st1 st2. apply run_same_but_scores.
Qed.

(** A student asking for the metrics or the leaderboard gets the 403 of
    [isAdmin]; the admin gets the scores. *)
Example report_needs_admin :
  let st :=
    {| db := db Sample.quiz_state;
       sessions := {[ "s_5_1" := {| userId := 5; role := "student" |} ]} |} in
  let h := {| x_session_id := Some "s_5_1"; query_sessionId := None;
              accepts_html := false |} in
  Scores.admin_report (LeaderboardData h) st = false
  ∧ (handle (λ p _, p) LoginSample.compare_plain (λ _, "t") Sample.env0
       (LeaderboardData h) st).2 = Json 403 (message "Admin access required").
Proof. split; vm_compute; reflexivity. Qed.

(** ** The question sequence of a new attempt *)

(** With enough questions, start-quiz stores as [shuffled_questions] of the
    new attempt the very list it returns as [questionIds]: the first
    [QUIZ_LENGTH] ids of the reordered pool.  When the reordering is a
    permutation of a pool without repeated ids, these are [QUIZ_LENGTH]
    distinct ids of the pool. *)
Lemma start_quiz_persists_returned_order
    (e : env) (userId : option Z) (st : state) :
  QUIZ_LENGTH ≤ Z.of_nat (length (Store.questions (db st))) →
  let pool := map Questions.id (Store.questions (db st)) in
  let ids := take (Z.to_nat QUIZ_LENGTH) (sort_random e pool) in
  ∃ st',
    start_quiz e userId st =
      (st', Json 200 (JObj [("attemptId", JNum (Store.attempts_seq (db st)));
                            ("questionIds", JArr (map JNum ids))]))
    ∧ (∃ a, last (Store.attempts (db st')) = Some a
            ∧ Attempts.id a = Store.attempts_seq (db st)
            ∧ Attempts.user_id a = userId
            ∧ Attempts.status a = "started"
            ∧ Attempts.shuffled_questions a = ids)
    ∧ (sort_random e pool ≡ₚ pool → NoDup pool →
       length ids = Z.to_nat QUIZ_LENGTH ∧ NoDup ids ∧ ids ⊆ pool).
Proof.
  intros Henough pool ids. unfold start_quiz.
  rewrite (proj2 (Z.ltb_ge _ _) Henough). simpl.
  eexists. split; [reflexivity|]. split.
  - simpl. rewrite last_snoc. eexists. by repeat split.
  - intros Hperm Hnd. split; [|split].
    + unfold ids. rewrite length_take, Hperm. unfold pool.
      rewrite length_map. lia.
    + unfold ids. eapply sublist_NoDup; [|apply sublist_take].
      by rewrite Hperm.
    + intros x Hx. rewrite <- Hperm.
      eapply elem_of_sublist; [exact Hx|apply sublist_take].
Qed.

(** * The server as a whole *)

(** ** Every request is one step *)

Section StepFacts.
Variable bcrypt_hash : string → string → string.
Variable bcrypt_compare : string → string → bool.
Variable toISOString : Z → string.
Implicit Types (st : state) (r : request) (e : env).

Local Abbreviation handle := (handle bcrypt_hash bcrypt_compare toISOString).

(** Who passes [isLoggedIn]: the holder of a stored session, or whoever
    names an inherited property. *)
Lemma isLoggedIn_caller h st c :
  isLoggedIn h st = inr c →
  (∃ sessionId s, sessions st !! sessionId = Some s ∧ c = stored s)
  ∨ c = inherited.
Proof.
  unfold isLoggedIn, sessions_get.
  destruct (or_string _ _) as [sessionId|]; [|done].
  destruct (falsy_string sessionId); [done|].
  destruct (sessions st !! sessionId) as [s|] eqn:Hs.
  - intros [= <-]. left. eauto.
  - case_bool_decide; [|done]. intros [= <-]. by right.
Qed.

Lemma isLoggedIn_session h st c uid :
  isLoggedIn h st = inr c → req_userId c = Some uid →
  ∃ sessionId s, sessions st !! sessionId = Some s ∧ userId s = uid.
Proof.
  intros [(sessionId & s & Hs & ->)| ->]%isLoggedIn_caller; [|done].
  intros [= <-]. eauto.
Qed.

Lemma isAdmin_role c : isAdmin c = None → req_userRole c = Some "admin".
Proof.
  unfold isAdmin. case_bool_decide as Hrole; [done|]. intros _.
  by destruct (decide (req_userRole c = Some "admin")).
Qed.

Lemma admin_session h st c :
  isLoggedIn h st = inr c → isAdmin c = None →
  ∃ sessionId s, sessions st !! sessionId = Some s ∧ role s = "admin".
Proof.
  intros [(sessionId & s & Hs & ->)| ->]%isLoggedIn_caller Hadmin%isAdmin_role;
    [|done].
  injection Hadmin as Hrole. eauto.
Qed.

(** [user_id = NULL] selects nothing. *)
Lemma select_attempt_null attemptId status (d : Store.database) :
  Store.select_attempt attemptId None status d = [].
Proof.
  unfold Store.select_attempt.
  induction (Store.attempts d) as [|a l IH]; [done|].
  rewrite filter_cons, decide_False; [done|].
  intros (_ & [[? [=]] _] & _).
Qed.

Lemma with_db_same st : with_db (db st) st = st.
Proof. by destruct st. Qed.

Lemma handle_step e r st : Steps.step st (handle e r st).1.
Proof.
  destruct r; simpl.
  - unfold register. destruct (_ || _); [constructor|].
    destruct (Store.insert_user _ _ _ _ _ _) as [d|] eqn:Hinsert;
      [|constructor].
    by eapply Steps.step_register.
  - unfold login.
    destruct (head _) as [user|] eqn:Huser; [|constructor].
    destruct (_ && _); [constructor|].
    destruct (negb _); [constructor|]. simpl.
    apply Steps.step_login.
    apply head_Some_elem_of in Huser.
    by apply list_elem_of_filter in Huser as [_ ?].
  - unfold logout. destruct (x_session_id h) as [sid|]; [|constructor].
    destruct (falsy_string sid); [constructor|]. apply Steps.step_logout.
  - unfold admin_only, logged_in.
    destruct (isLoggedIn h st); [constructor|].
    destruct (isAdmin _); constructor.
  - unfold admin_only, logged_in.
    destruct (isLoggedIn h st); [constructor|].
    destruct (isAdmin _); constructor.
  - unfold admin_only, logged_in.
    destruct (isLoggedIn h st) as [|c] eqn:Hc; [constructor|].
    destruct (isAdmin c) eqn:Hadmin; [constructor|].
    destruct (admin_session _ _ _ Hc Hadmin) as (sid & s & Hsid & Hrole).
    unfold admin_questions_create.
    destruct (_ || _) eqn:Hfields; [constructor|].
    by eapply Steps.step_create_question.
  - unfold admin_only, logged_in.
    destruct (isLoggedIn h st) as [|c] eqn:Hc; [constructor|].
    destruct (isAdmin c) eqn:Hadmin; [constructor|].
    destruct (admin_session _ _ _ Hc Hadmin) as (sid & s & Hsid & Hrole).
    by eapply Steps.step_delete_question.
  - unfold logged_in.
    destruct (isLoggedIn h st) as [|c] eqn:Hc; [constructor|].
    unfold start_quiz.
    destruct (_ <? _) eqn:Hlen; [constructor|]. apply Z.ltb_ge in Hlen.
    apply Steps.step_start_quiz; [|done].
    intros uid Huid. by eapply isLoggedIn_session.
  - unfold logged_in, questions.
    destruct (isLoggedIn h st); [constructor|].
    destruct ids as [ids|]; [|constructor].
    destruct (parse_ids ids); constructor.
  - unfold logged_in.
    destruct (isLoggedIn h st) as [|c] eqn:Hc; [constructor|].
    unfold submit_answers.
    apply isLoggedIn_caller in Hc as [(sid & s & Hsid & ->)| ->]; simpl.
    2:{ rewrite select_attempt_null. constructor. }
    destruct (Store.select_attempt _ _ _ _) as [|attempt rest] eqn:Hsel;
      [constructor|].
    destruct (Attempts.shuffled_questions attempt); [constructor|].
    destruct answers; [|constructor].
    by eapply Steps.step_submit.
  - unfold admin_only, logged_in.
    destruct (isLoggedIn h st); [constructor|].
    destruct (isAdmin _); constructor.
Qed.

End StepFacts.

(** ** Keys stay keys, references stay valid *)

Section InvariantFacts.
Implicit Types (st : state) (d : Store.database).

Lemma map_update_same {A B} (f : A → B) (P : A → Prop)
    `{!∀ x, Decision (P x)} (g : A → A) (l : list A) :
  (∀ x, f (g x) = f x) →
  map f (map (λ x, if bool_decide (P x) then g x else x) l) = map f l.
Proof.
  intros Hfg. rewrite map_map. apply map_ext. intros x.
  by case_bool_decide.
Qed.

Lemma NoDup_snoc_fresh {A} (f : A → Z) (l : list A) (x : A) (seq : Z) :
  NoDup (map f l) → Forall (λ a, f a < seq) l → f x = seq →
  NoDup (map f (l ++ [x])).
Proof.
  intros Hnd Hbelow Hx. rewrite map_app. apply NoDup_app.
  split; [done|]. split; [|apply NoDup_singleton].
  intros y Hy Hin. apply list_elem_of_singleton in Hin. subst y.
  apply list_elem_of_fmap in Hy as (a & Ha & Hin).
  rewrite Forall_forall in Hbelow. specialize (Hbelow a Hin). lia.
Qed.

Lemma Forall_snoc_below {A} (f : A → Z) (l : list A) (x : A) (seq : Z) :
  Forall (λ a, f a < seq) l → f x = seq →
  Forall (λ a, f a < seq + 1) (l ++ [x]).
Proof.
  intros Hbelow Hx. apply Forall_app. split.
  - eapply Forall_impl; [exact Hbelow|]. simpl. intros. lia.
  - apply Forall_singleton. lia.
Qed.

Lemma Forall_update_same {A} (f : A → Z) (P : A → Prop)
    `{!∀ x, Decision (P x)} (g : A → A) (Q : Z → Prop) (l : list A) :
  (∀ x, f (g x) = f x) →
  Forall (λ a, Q (f a)) l →
  Forall (λ a, Q (f a)) (map (λ x, if bool_decide (P x) then g x else x) l).
Proof.
  intros Hfg Hl. apply Forall_fmap. eapply Forall_impl; [exact Hl|].
  intros x Hx. simpl. case_bool_decide; [by rewrite Hfg|done].
Qed.

Lemma insert_user_Some name email hash r qs d d' :
  Store.insert_user name email hash r qs d = Some d' →
  (email ∉ map Users.email (Store.users d))
  ∧ d' = {| Store.users := Store.users d ++
              [{| Users.id := Store.users_seq d; Users.full_name := name;
                  Users.email := email; Users.password_hash := hash;
                  Users.role := r; Users.quiz_status := qs |}];
            Store.questions := Store.questions d;
            Store.attempts := Store.attempts d;
            Store.users_seq := Store.users_seq d + 1;
            Store.questions_seq := Store.questions_seq d;
            Store.attempts_seq := Store.attempts_seq d |}.
Proof.
  unfold Store.insert_user. case_bool_decide; [done|]. by intros [= <-].
Qed.

Lemma step_keys st st' : Steps.step st st' → Keys.ok (db st) → Keys.ok (db st').
Proof.
  intros Hstep [Huid Hubelow Hemail Hqid Hqbelow Haid Habelow].
  destruct Hstep as
    [ | fullName email hash d Hinsert | user sid Huser | sid
    | sid s text a b c d0 correct Hs Hrole Hfields | sid s id Hs Hrole
    | caller ids now Hcaller Hlen
    | sid s aid score now attempt rest Hs Hsel ];
    try (by constructor).
  - apply insert_user_Some in Hinsert as [Hfresh ->].
    constructor; simpl; try done.
    + by apply (NoDup_snoc_fresh Users.id _ _ (Store.users_seq (db st))).
    + by apply (Forall_snoc_below Users.id).
    + rewrite map_app. apply NoDup_app. split; [done|].
      split; [|apply NoDup_singleton].
      intros y Hy Hin. apply list_elem_of_singleton in Hin. by subst y.
  - constructor; simpl; try done.
    + by apply (NoDup_snoc_fresh Questions.id _ _ (Store.questions_seq (db st))).
    + by apply (Forall_snoc_below Questions.id).
  - constructor; simpl; try done.
    + eapply sublist_NoDup; [exact Hqid|].
      apply (fmap_sublist Questions.id), sublist_filter.
    + apply Forall_forall. intros q [_ Hq]%list_elem_of_filter.
      rewrite Forall_forall in Hqbelow. by apply Hqbelow.
  - constructor; simpl.
    + by rewrite (map_update_same Users.id).
    + by apply (Forall_update_same Users.id _ _ (λ i, i < _)).
    + by rewrite (map_update_same Users.email).
    + done.
    + done.
    + by apply (NoDup_snoc_fresh Attempts.id _ _ (Store.attempts_seq (db st))).
    + by apply (Forall_snoc_below Attempts.id).
  - constructor; simpl.
    + by rewrite (map_update_same Users.id).
    + by apply (Forall_update_same Users.id _ _ (λ i, i < _)).
    + by rewrite (map_update_same Users.email).
    + done.
    + done.
    + by rewrite (map_update_same Attempts.id).
    + by apply (Forall_update_same Attempts.id _ _ (λ i, i < _)).
Qed.

(** A step keeps the identity of every user row, in order, and may add one
    student at the end. *)
Lemma step_identity st st' :
  Steps.step st st' →
  ∃ new,
    map Keys.identity (Store.users (db st')) =
      map Keys.identity (Store.users (db st) ++ new)
    ∧ (length new ≤ 1)%nat
    ∧ Forall (λ u, Users.role u = "student"
                   ∧ Users.quiz_status u = "unattempted"
                   ∧ Users.id u = Store.users_seq (db st)) new.
Proof.
  intros Hstep.
  destruct Hstep as
    [ | fullName email hash d Hinsert | user sid Huser | sid
    | sid s text a b c d0 correct Hs Hrole Hfields | sid s id Hs Hrole
    | caller ids now Hcaller Hlen
    | sid s aid score now attempt rest Hs Hsel ];
    try (exists []; rewrite app_nil_r;
         split; [done|]; split; [simpl; lia|constructor]).
  - apply insert_user_Some in Hinsert as [Hfresh ->].
    eexists [_]. simpl. split; [done|]. split; [done|].
    by apply Forall_singleton.
  - exists []. rewrite app_nil_r. simpl.
    rewrite (map_update_same Keys.identity) by done.
    split; [done|]. split; [lia|constructor].
  - exists []. rewrite app_nil_r. simpl.
    rewrite (map_update_same Keys.identity) by done.
    split; [done|]. split; [lia|constructor].
Qed.

Lemma identity_elem_of (us us' : list Users.row) (u : Users.row) :
  map Keys.identity us = map Keys.identity us' → u ∈ us →
  ∃ u', u' ∈ us' ∧ Keys.identity u' = Keys.identity u.
Proof.
  intros Hmap Hu.
  assert (Keys.identity u ∈ map Keys.identity us') as Hin.
  { rewrite <- Hmap. apply list_elem_of_fmap. eauto. }
  apply list_elem_of_fmap in Hin as (u' & Hid & Hu'). eauto.
Qed.

Lemma step_user_ids st st' x :
  Steps.step st st' →
  x ∈ map Users.id (Store.users (db st)) →
  x ∈ map Users.id (Store.users (db st')).
Proof.
  intros (new & Hmap & _)%step_identity (u & -> & Hu)%list_elem_of_fmap.
  destruct (identity_elem_of (Store.users (db st) ++ new)
              (Store.users (db st')) u) as (u' & Hu' & Hid);
    [done|apply elem_of_app; by left|].
  apply list_elem_of_fmap. exists u'. split; [|done].
  by injection Hid.
Qed.

Lemma step_references st st' :
  Steps.step st st' → Keys.ok (db st) → Keys.references st →
  Keys.references st'.
Proof.
  intros Hstep Hkeys [Hsess Hatt].
  assert (∀ sid s, sessions st !! sid = Some s →
            ∃ u, u ∈ Store.users (db st') ∧ Users.id u = userId s
                 ∧ Users.role u = role s) as Hsess'.
  { intros sid s Hs. destruct (Hsess sid s Hs) as (u & Hu & Hid & Hrole).
    destruct (step_identity st st' Hstep) as (new & Hmap & _).
    destruct (identity_elem_of (Store.users (db st) ++ new)
                (Store.users (db st')) u) as (u' & Hu' & Heq);
      [done|apply elem_of_app; by left|].
    exists u'. split; [done|]. injection Heq as ? ? ? ? ?. split; congruence. }
  assert (Forall (Keys.owned (Store.users (db st')))
            (Store.attempts (db st))) as Hatt'.
  { eapply Forall_impl; [exact Hatt|]. intros a. unfold Keys.owned.
    destruct (Attempts.user_id a); [|done]. by apply step_user_ids. }
  destruct Hstep as
    [ | fullName email hash d Hinsert | user sid Huser | sid
    | sid s text a b c d0 correct Hs Hrole Hfields | sid s id Hs Hrole
    | caller ids now Hcaller Hlen
    | sid s aid score now attempt rest Hs Hsel ].
  - by constructor.
  - apply insert_user_Some in Hinsert as [Hfresh Hd]. subst d.
    by constructor.
  - constructor; [|done]. simpl. intros sid' s'.
    rewrite lookup_insert. case_decide; [|by apply Hsess'].
    intros [= <-]. eauto.
  - constructor; [|done]. simpl. intros sid' s'.
    rewrite lookup_delete. case_decide; [done|by apply Hsess'].
  - by constructor.
  - by constructor.
  - constructor; [done|]. simpl in *. apply Forall_app. split; [done|].
    apply Forall_singleton. unfold Keys.owned. simpl.
    destruct caller as [uid|]; [|done].
    destruct (Hcaller uid eq_refl) as (sid & s & Hs & <-).
    destruct (Hsess' sid s Hs) as (u & Hu & Hid & _).
    apply list_elem_of_fmap. eauto.
  - constructor; [done|]. simpl in *.
    assert (attempt ∈ Store.select_attempt aid (Some (userId s)) "started"
                        (db st)) as Hin by (rewrite Hsel; left).
    apply list_elem_of_filter in Hin as [(Hid & [_ Howner] & _) Hin].
    apply Forall_fmap, Forall_forall. intros a Ha.
    rewrite Forall_forall in Hatt'. specialize (Hatt' a Ha).
    unfold Keys.owned in *. simpl. case_bool_decide as Haid; [|done].
    assert (a = attempt) as ->.
    { eapply (NoDup_fmap_elem_inj Attempts.id); [apply Hkeys|done..|congruence]. }
    simpl. by rewrite Howner in *.
Qed.

Lemma step_invariant st st' :
  Steps.step st st' → Keys.invariant st → Keys.invariant st'.
Proof.
  intros Hstep [Hkeys Hrefs]. split; eauto using step_keys, step_references.
Qed.

End InvariantFacts.

(** ** Requests without a session, requests without the admin role *)

Section AccessFacts.
Variable bcrypt_hash : string → string → string.
Variable bcrypt_compare : string → string → bool.
Variable toISOString : Z → string.
Implicit Types (st : state) (r : request) (e : env).

Local Abbreviation handle := (handle bcrypt_hash bcrypt_compare toISOString).

Lemma isLoggedIn_early h st early :
  isLoggedIn h st = inl early →
  early = if accepts_html h then Redirect "/"
          else Json 401 (message "Unauthorized").
Proof.
  unfold isLoggedIn.
  destruct (or_string _ _) as [sid|]; [|by intros [= <-]].
  destruct (falsy_string sid); [by intros [= <-]|].
  destruct (sessions_get sid st); [done|by intros [= <-]].
Qed.

Lemma handle_not_logged_in e r st h early :
  Access.guarded r = Some h → isLoggedIn h st = inl early →
  handle e r st = (st, early).
Proof.
  intros Hr Hearly.
  destruct r; simpl in Hr; try done; injection Hr as ->;
    simpl; unfold admin_only, logged_in; by rewrite Hearly.
Qed.

Lemma handle_not_admin e r st h c :
  Access.admin_route r = Some h → isLoggedIn h st = inr c →
  req_userRole c ≠ Some "admin" →
  handle e r st = (st, Json 403 (message "Admin access required")).
Proof.
  intros Hr Hc Hrole.
  destruct r; simpl in Hr; try done; injection Hr as ->;
    simpl; unfold admin_only, logged_in, isAdmin; rewrite Hc;
    by rewrite bool_decide_true.
Qed.

Lemma by_admin_false_cases r st :
  Access.by_admin r st = false →
  Access.admin_route r = None
  ∨ ∃ h, Access.admin_route r = Some h
      ∧ ((∃ early, isLoggedIn h st = inl early)
         ∨ ∃ c, isLoggedIn h st = inr c ∧ req_userRole c ≠ Some "admin").
Proof.
  unfold Access.by_admin.
  destruct (Access.admin_route r) as [h|]; [|by left].
  intros Hby. right. exists h. split; [done|].
  destruct (isLoggedIn h st) as [early|c]; [left; eauto|].
  right. exists c. split; [done|]. by apply bool_decide_eq_false in Hby.
Qed.

Lemma admin_route_guarded r h :
  Access.admin_route r = Some h → Access.guarded r = Some h.
Proof. by destruct r. Qed.

Lemma handle_questions_untouched e r st :
  Access.by_admin r st = false →
  Store.questions (db (handle e r st).1) = Store.questions (db st)
  ∧ Store.questions_seq (db (handle e r st).1) = Store.questions_seq (db st).
Proof.
  intros [Hroute|(h & Hroute & [[early Hearly]|(s & Hs & Hrole)])]%by_admin_false_cases.
  - destruct r; simpl in Hroute; try done; simpl.
    + unfold register. destruct (_ || _); [done|].
      destruct (Store.insert_user _ _ _ _ _ _) as [d|] eqn:Hinsert; [|done].
      by apply insert_user_Some in Hinsert as [_ ->].
    + unfold login. destruct (head _); [|done].
      destruct (_ && _); [done|]. by destruct (negb _).
    + unfold logout. destruct (x_session_id h); [|done].
      by destruct (falsy_string _).
    + unfold logged_in, start_quiz. destruct (isLoggedIn h st); [done|].
      by destruct (_ <? _).
    + unfold logged_in, questions. destruct (isLoggedIn h st); [done|].
      destruct ids; [|done]. by destruct (parse_ids _).
    + unfold logged_in, submit_answers. destruct (isLoggedIn h st); [done|].
      destruct (Store.select_attempt _ _ _ _); [done|].
      destruct (Attempts.shuffled_questions _); [done|]. by destruct answers.
  - by rewrite (handle_not_logged_in e r st h early)
      by auto using admin_route_guarded.
  - by rewrite (handle_not_admin e r st h s).
Qed.

End AccessFacts.

(** X1.  On every route behind [isLoggedIn], a request whose session id is
    missing, empty, or the name of neither a stored session nor a property
    that [sessions] inherits from [Object.prototype], changes nothing in
    the state; it is answered by a redirect to [/] when the client accepts
    HTML and by 401 "Unauthorized" otherwise. *)
Theorem request_without_session_changes_nothing
    (bcrypt_hash : string → string → string)
    (bcrypt_compare : string → string → bool) (toISOString : Z → string)
    (e : env) (r : request) (st : state) (h : headers) :
  Access.guarded r = Some h →
  (∀ sessionId, or_string (x_session_id h) (query_sessionId h) = Some sessionId →
     sessionId = EmptyString
     ∨ (sessions st !! sessionId = None ∧ sessionId ∉ Object_prototype)) →
  handle bcrypt_hash bcrypt_compare toISOString e r st =
    (st, if accepts_html h then Redirect "/"
         else Json 401 (message "Unauthorized")).
Proof.
  intros Hr Hsid.
  destruct (isLoggedIn h st) as [early|c] eqn:Hlogged.
  - rewrite (handle_not_logged_in _ _ _ e r st h early) by done.
    by rewrite (isLoggedIn_early h st early).
  - exfalso. unfold isLoggedIn, sessions_get in Hlogged.
    destruct (or_string _ _) as [sid|]; [|done].
    destruct (Hsid sid eq_refl) as [-> | [Hnone Hown]]; [done|].
    destruct (falsy_string sid); [done|]. rewrite Hnone in Hlogged.
    by rewrite bool_decide_false in Hlogged.
Qed.

Lemma request_without_session_changes_nothing_witness :
  handle Staff.hash_plain LoginSample.compare_plain Staff.iso Sample.env0
    (StartQuiz (Access.with_header "s_9_9")) Staff.state0 =
  (Staff.state0, Json 401 (message "Unauthorized")).
Proof.
  apply (request_without_session_changes_nothing Staff.hash_plain
           LoginSample.compare_plain Staff.iso Sample.env0
           (StartQuiz (Access.with_header "s_9_9")) Staff.state0
           (Access.with_header "s_9_9")).
  - reflexivity.
  - intros sid [= <-]. right. split; [vm_compute; reflexivity|].
    compute_done.
Defined.

(** X2.  On every route behind [isAdmin], a caller who passes [isLoggedIn]
    without the role "admin" (a stored session with another role, or an
    inherited property, whose role is [undefined]) gets 403
    "Admin access required" and changes nothing in the state; and whoever
    the caller, a request that is not made with an admin session leaves the
    questions table and its sequence as they are. *)
Theorem only_admin_changes_questions
    (bcrypt_hash : string → string → string)
    (bcrypt_compare : string → string → bool) (toISOString : Z → string)
    (e : env) (r : request) (st : state) :
  (∀ h c, Access.admin_route r = Some h → isLoggedIn h st = inr c →
     req_userRole c ≠ Some "admin" →
     handle bcrypt_hash bcrypt_compare toISOString e r st =
       (st, Json 403 (message "Admin access required")))
  ∧ (Access.by_admin r st = false →
     Store.questions
       (db (handle bcrypt_hash bcrypt_compare toISOString e r st).1) =
       Store.questions (db st)
     ∧ Store.questions_seq
         (db (handle bcrypt_hash bcrypt_compare toISOString e r st).1) =
       Store.questions_seq (db st)).
Proof.
  split.
  - intros h c. apply handle_not_admin.
  - apply handle_questions_untouched.
Qed.

Lemma only_admin_changes_questions_witness :
  handle Staff.hash_plain LoginSample.compare_plain Staff.iso Sample.env0
    (AdminQuestionsDelete (Access.with_header "s_5_20") 1) Staff.state0 =
  (Staff.state0, Json 403 (message "Admin access required")).
Proof.
  apply (proj1 (only_admin_changes_questions Staff.hash_plain
           LoginSample.compare_plain Staff.iso Sample.env0
           (AdminQuestionsDelete (Access.with_header "s_5_20") 1) Staff.state0)
           (Access.with_header "s_5_20")
           (stored {| userId := 5; role := "student" |})).
  - reflexivity.
  - vm_compute. reflexivity.
  - discriminate.
Defined.

(** ** Runs of requests *)

Section RunFacts.
Variable bcrypt_hash : string → string → string.
Variable bcrypt_compare : string → string → bool.
Variable toISOString : Z → string.
Implicit Types (st : state) (rs : list (env * request)).

Local Abbreviation handle := (handle bcrypt_hash bcrypt_compare toISOString).
Local Abbreviation run := (Scores.run bcrypt_hash bcrypt_compare toISOString).

Lemma run_cons e r rs st :
  (run ((e, r) :: rs) st).1 = (run rs (handle e r st).1).1.
Proof.
  simpl. destruct (handle e r st) as [st1 reply]. simpl.
  by destruct (run rs st1).
Qed.

(** A relation between states that every step respects holds between the
    start and the end of every run. *)
Lemma run_related (R : relation state) `{!Reflexive R} `{!Transitive R} :
  (∀ st st', Steps.step st st' → R st st') →
  ∀ rs st, R st (run rs st).1.
Proof.
  intros Hstep rs. induction rs as [|[e r] rs IH]; intros st; [done|].
  rewrite run_cons. etrans; [|apply IH].
  apply Hstep, handle_step.
Qed.

Lemma run_invariant rs st :
  Keys.invariant st → Keys.invariant (run rs st).1.
Proof.
  revert st. induction rs as [|[e r] rs IH]; intros st Hinv; [done|].
  rewrite run_cons. apply IH. eapply step_invariant; [|done].
  apply handle_step.
Qed.

End RunFacts.

Lemma staff_invariant : Keys.invariant Staff.state0.
Proof.
  split.
  - constructor; simpl; compute_done.
  - constructor.
    + intros sid s. unfold Staff.state0. simpl.
      rewrite lookup_insert. case_decide.
      { intros [= <-]. exists Staff.admin. split; [left|done]. }
      rewrite lookup_insert. case_decide; [|by rewrite lookup_empty].
      intros [= <-]. eexists. split; [right; left|done].
    + simpl. apply Forall_singleton. unfold Keys.owned. simpl. compute_done.
Qed.

(** X3.  Every request, and so every run of requests, keeps the keys and
    the references of the state: user, question and attempt ids stay
    pairwise distinct and below the next value of their sequence, emails
    stay unique, every stored session stands for a user of the table with
    that user's role, and every attempt either belongs to a user of the
    table or has no owner and is not completed (start-quiz under a session
    id that names an inherited property stores such an attempt). *)
Theorem requests_keep_invariant
    (bcrypt_hash : string → string → string)
    (bcrypt_compare : string → string → bool) (toISOString : Z → string)
    (st : state) :
  Keys.invariant st →
  (∀ e r,
     Keys.invariant (handle bcrypt_hash bcrypt_compare toISOString e r st).1)
  ∧ (∀ rs,
       Keys.invariant
         (Scores.run bcrypt_hash bcrypt_compare toISOString rs st).1).
Proof.
  intros Hinv. split.
  - intros e r. eapply step_invariant; [apply handle_step|done].
  - intros rs. by apply run_invariant.
Qed.

Lemma requests_keep_invariant_witness :
  Keys.invariant
    (handle Staff.hash_plain LoginSample.compare_plain Staff.iso Sample.env0
       (Register "New Student" "new@example.org" "pw") Staff.state0).1.
Proof.
  apply (proj1 (requests_keep_invariant Staff.hash_plain
                  LoginSample.compare_plain Staff.iso Staff.state0
                  staff_invariant)).
Defined.

(** ** What no request changes *)

Section KeptFacts.
Implicit Types (st : state).

Lemma users_kept_refl : Reflexive Kept.users_kept.
Proof. intros st. exists []. by rewrite app_nil_r. Qed.

Lemma users_kept_trans : Transitive Kept.users_kept.
Proof.
  intros st1 st2 st3 (new1 & H1 & Hs1) (new2 & H2 & Hs2).
  exists (new1 ++ new2)%list. split; [|by apply Forall_app].
  rewrite H2, map_app, H1, <- map_app. by rewrite <- app_assoc.
Qed.

Lemma step_users_kept st st' : Steps.step st st' → Kept.users_kept st st'.
Proof.
  intros (new & Hmap & _ & Hnew)%step_identity. exists new. split; [done|].
  eapply Forall_impl; [exact Hnew|]. by intros u (? & _).
Qed.

Lemma filter_admin_identity (us us' : list Users.row) :
  map Keys.identity us = map Keys.identity us' →
  map Keys.identity (filter (λ u, Users.role u = "admin") us) =
  map Keys.identity (filter (λ u, Users.role u = "admin") us').
Proof.
  revert us'. induction us as [|u us IH]; intros [|u' us']; try done.
  simpl. intros [= Hid Hname Hemail Hhash Hrole Hrest].
  rewrite !filter_cons, Hrole.
  case_decide; simpl; rewrite (IH us') by done; [|done].
  unfold Keys.identity. congruence.
Qed.

Lemma users_kept_admins st st' :
  Kept.users_kept st st' →
  map Keys.identity (Kept.admins st') = map Keys.identity (Kept.admins st).
Proof.
  intros (new & Hmap & Hnew). unfold Kept.admins.
  rewrite (filter_admin_identity _ _ Hmap), filter_app.
  assert (filter (λ u, Users.role u = "admin") new = []) as ->.
  { clear Hmap. induction Hnew as [|u new Hu _ IH]; [done|].
    rewrite filter_cons, decide_False; [done|]. by rewrite Hu. }
  by rewrite app_nil_r.
Qed.

Lemma completed_kept_refl : Reflexive Kept.completed_kept.
Proof. by intros st Hok. Qed.

Lemma completed_kept_trans : Transitive Kept.completed_kept.
Proof.
  intros st1 st2 st3 H12 H23 Hok1.
  destruct (H12 Hok1) as [Hok2 Hkept12].
  destruct (H23 Hok2) as [Hok3 Hkept23]. split; [done|].
  intros i a Ha Hstatus. apply Hkept23; [|done]. by apply Hkept12.
Qed.

Lemma step_completed_kept st st' :
  Steps.step st st' → Kept.completed_kept st st'.
Proof.
  intros Hstep Hok. split; [by eapply step_keys|].
  intros i a0 Ha Hstatus.
  destruct Hstep as
    [ | fullName email hash d Hinsert | user sid Huser | sid
    | sid s text a b c d0 correct Hs Hrole Hfields | sid s id Hs Hrole
    | caller ids now Hcaller Hlen
    | sid s aid score now attempt rest Hs Hsel ];
    try done.
  - by apply insert_user_Some in Hinsert as [_ ->].
  - simpl. apply lookup_app_l_Some. done.
  - simpl. rewrite list_lookup_fmap, Ha. simpl.
    rewrite bool_decide_false; [done|]. intros Hid.
    assert (attempt ∈ Store.select_attempt aid (Some (userId s)) "started"
                        (db st)) as Hin by (rewrite Hsel; left).
    apply list_elem_of_filter in Hin as [(Hid' & _ & Hstarted) Hin].
    assert (a0 = attempt) as ->.
    { apply (NoDup_fmap_elem_inj Attempts.id (Store.attempts (db st)));
        [by destruct Hok|by eapply list_elem_of_lookup_2|done|congruence]. }
    congruence.
Qed.

End KeptFacts.

(** X4.  Whatever requests are handled, every user row keeps its id, name,
    email, password hash and role, and its place in the table; rows are
    only added, each with the role "student".  So the rows of the admins
    are the same before and after: no request makes or removes an admin. *)
Theorem requests_never_change_roles
    (bcrypt_hash : string → string → string)
    (bcrypt_compare : string → string → bool) (toISOString : Z → string)
    (rs : list (env * request)) (st : state) :
  Kept.users_kept st
    (Scores.run bcrypt_hash bcrypt_compare toISOString rs st).1
  ∧ map Keys.identity
      (Kept.admins (Scores.run bcrypt_hash bcrypt_compare toISOString rs st).1)
    = map Keys.identity (Kept.admins st).
Proof.
  assert (Kept.users_kept st
            (Scores.run bcrypt_hash bcrypt_compare toISOString rs st).1) as Hkept.
  { apply (@run_related bcrypt_hash bcrypt_compare toISOString
             Kept.users_kept users_kept_refl users_kept_trans
             step_users_kept). }
  split; [done|]. by apply users_kept_admins.
Qed.

(** X5.  Attempt ids being keys, an attempt whose status is "completed" is
    never touched again: after any run of requests it is in the table at
    the same place with the same score, status and end time. *)
Theorem completed_attempts_never_change
    (bcrypt_hash : string → string → string)
    (bcrypt_compare : string → string → bool) (toISOString : Z → string)
    (rs : list (env * request)) (st : state) (i : nat) (a : Attempts.row) :
  Keys.ok (db st) →
  Store.attempts (db st) !! i = Some a →
  Attempts.status a = "completed" →
  Store.attempts
    (db (Scores.run bcrypt_hash bcrypt_compare toISOString rs st).1) !! i
  = Some a.
Proof.
  intros Hok Ha Hstatus.
  by apply (@run_related bcrypt_hash bcrypt_compare toISOString
              Kept.completed_kept completed_kept_refl completed_kept_trans
              step_completed_kept rs st Hok).
Qed.

Lemma completed_attempts_never_change_witness :
  Store.attempts
    (db (Scores.run Staff.hash_plain LoginSample.compare_plain Staff.iso
           [(Sample.env0,
             SubmitAnswers (Access.with_header "s_5_20") 7
               (Some Sample.quiz_answers));
            (Sample.env0,
             SubmitAnswers (Access.with_header "s_5_20") 1
               (Some Sample.quiz_answers))]
           Finished.state0).1) !! 0%nat
  = Some (Sample.completed_attempt 1 5 3 50).
Proof.
  apply (completed_attempts_never_change Staff.hash_plain
           LoginSample.compare_plain Staff.iso _ Finished.state0).
  - constructor; simpl; compute_done.
  - reflexivity.
  - reflexivity.
Defined.

(** ** Registration *)

Section RegisterFacts.
Variable bcrypt_hash : string → string → string.
Implicit Types (st : state) (e : env).

Lemma falsy_string_false (s : string) : s ≠ EmptyString → falsy_string s = false.
Proof. intros Hs. by apply String.eqb_neq. Qed.

Lemma falsy_string_true (s : string) : falsy_string s = true → s = EmptyString.
Proof. apply String.eqb_eq. Qed.

Lemma register_missing e fullName email password st :
  fullName = EmptyString ∨ email = EmptyString ∨ password = EmptyString →
  register bcrypt_hash e fullName email password st =
    (st, Json 400 (message "All fields required")).
Proof.
  unfold register. intros [-> | [-> | ->]]; simpl; [done| |].
  - by rewrite orb_true_r.
  - by rewrite orb_true_r.
Qed.

Lemma register_taken e fullName email password st :
  fullName ≠ EmptyString → email ≠ EmptyString → password ≠ EmptyString →
  email ∈ map Users.email (Store.users (db st)) →
  register bcrypt_hash e fullName email password st =
    (st, Json 409 (message "Email already exists")).
Proof.
  intros Hn He Hp Htaken. unfold register, Store.insert_user.
  rewrite !falsy_string_false by done. simpl.
  by rewrite bool_decide_true.
Qed.

Lemma register_new e fullName email password st :
  fullName ≠ EmptyString → email ≠ EmptyString → password ≠ EmptyString →
  email ∉ map Users.email (Store.users (db st)) →
  register bcrypt_hash e fullName email password st =
    ({| db := {| Store.users := Store.users (db st) ++
                   [{| Users.id := Store.users_seq (db st);
                       Users.full_name := fullName; Users.email := email;
                       Users.password_hash := bcrypt_hash password (salt e);
                       Users.role := "student";
                       Users.quiz_status := "unattempted" |}];
                 Store.questions := Store.questions (db st);
                 Store.attempts := Store.attempts (db st);
                 Store.users_seq := Store.users_seq (db st) + 1;
                 Store.questions_seq := Store.questions_seq (db st);
                 Store.attempts_seq := Store.attempts_seq (db st) |};
        sessions := sessions st |},
     Json 200 (message "Registered successfully")).
Proof.
  intros Hn He Hp Hnew. unfold register, Store.insert_user.
  rewrite !falsy_string_false by done. simpl.
  by rewrite bool_decide_false.
Qed.

End RegisterFacts.

(** X6.  Registration replies 400 "All fields required", and changes
    nothing, as soon as the name, the email or the password is empty, also
    when the email is taken; with the three present it replies 409
    "Email already exists", and changes nothing, when a user has the email;
    otherwise it replies 200 and adds one row at the end of the users, with
    the next id of the sequence, the hash of the password, the role
    "student" and the status "unattempted", leaving every other table and
    the sessions as they are.  After that, a registration with the same
    email is refused with 409. *)
Theorem register_outcomes
    (bcrypt_hash : string → string → string) (e : env)
    (fullName email password : string) (st : state) :
  let out := register bcrypt_hash e fullName email password st in
  (fullName = EmptyString ∨ email = EmptyString ∨ password = EmptyString →
   out = (st, Json 400 (message "All fields required")))
  ∧ (fullName ≠ EmptyString → email ≠ EmptyString → password ≠ EmptyString →
     (email ∈ map Users.email (Store.users (db st)) →
      out = (st, Json 409 (message "Email already exists")))
     ∧ (email ∉ map Users.email (Store.users (db st)) →
        out.2 = Json 200 (message "Registered successfully")
        ∧ Store.users (db out.1) =
            (Store.users (db st) ++
             [{| Users.id := Store.users_seq (db st);
                 Users.full_name := fullName; Users.email := email;
                 Users.password_hash := bcrypt_hash password (salt e);
                 Users.role := "student";
                 Users.quiz_status := "unattempted" |}])%list
        ∧ Store.questions (db out.1) = Store.questions (db st)
        ∧ Store.attempts (db out.1) = Store.attempts (db st)
        ∧ sessions out.1 = sessions st
        ∧ ∀ e' fullName' password',
            fullName' ≠ EmptyString → password' ≠ EmptyString →
            register bcrypt_hash e' fullName' email password' out.1 =
              (out.1, Json 409 (message "Email already exists")))).
Proof.
  intros out. split; [apply register_missing|].
  intros Hn He Hp. split; [by apply register_taken|].
  intros Hnew. subst out. rewrite register_new by done. simpl.
  repeat (split; [done|]).
  intros e' fullName' password' Hn' Hp'. apply register_taken; try done.
  simpl. rewrite map_app. apply elem_of_app. right. simpl. left.
Qed.

(** ** Sessions *)

Section SessionFacts.
Implicit Types (st : state) (e : env) (s : session).

Lemma session_id_nonempty uid t : falsy_string (Access.session_id uid t) = false.
Proof. done. Qed.

(** What [isLoggedIn] does with a non-empty session id, in the header or
    in the query string. *)
Lemma isLoggedIn_with_header sid st :
  falsy_string sid = false →
  isLoggedIn (Access.with_header sid) st =
    match sessions_get sid st with
    | Some c => inr c
    | None => inl (Json 401 (message "Unauthorized"))
    end.
Proof.
  intros Hsid. unfold isLoggedIn, or_string, Access.with_header.
  cbn [x_session_id query_sessionId accepts_html].
  rewrite Hsid. cbn iota. by rewrite Hsid.
Qed.

Lemma isLoggedIn_with_query sid st :
  falsy_string sid = false →
  isLoggedIn (Access.with_query sid) st =
    match sessions_get sid st with
    | Some c => inr c
    | None => inl (Json 401 (message "Unauthorized"))
    end.
Proof.
  intros Hsid. unfold isLoggedIn, or_string, Access.with_query.
  cbn [x_session_id query_sessionId accepts_html]. by rewrite Hsid.
Qed.

Lemma sessions_get_stored sid st s :
  sessions st !! sid = Some s → sessions_get sid st = Some (stored s).
Proof. intros Hs. unfold sessions_get. by rewrite Hs. Qed.

Lemma sessions_get_inherited sid st :
  sessions st !! sid = None → sid ∈ Object_prototype →
  sessions_get sid st = Some inherited.
Proof.
  intros Hs Hin. unfold sessions_get. by rewrite Hs, bool_decide_true.
Qed.

Lemma sessions_get_unknown sid st :
  sessions st !! sid = None → sid ∉ Object_prototype →
  sessions_get sid st = None.
Proof.
  intros Hs Hin. unfold sessions_get. by rewrite Hs, bool_decide_false.
Qed.

(** The session ids that login makes begin with [s_]: none is the name of
    an inherited property. *)
Lemma session_id_not_inherited uid t :
  Access.session_id uid t ∉ Object_prototype.
Proof.
  unfold Access.session_id, Object_prototype. intros Hin.
  repeat (apply elem_of_cons in Hin as [Heq|Hin]; [discriminate Heq|]).
  by apply elem_of_nil in Hin.
Qed.

Lemma login_success bcrypt_compare e email password st user :
  head (Store.select_user_by_email email (db st)) = Some user →
  ¬ (Users.role user = "student"
     ∧ Users.quiz_status user ∈ ["completed"; "disqualified"]) →
  bcrypt_compare password (Users.password_hash user) = true →
  login bcrypt_compare e email password st =
    ({| db := db st;
        sessions :=
          <[Access.session_id (Users.id user) (now e) :=
              {| userId := Users.id user; role := Users.role user |}]>
            (sessions st) |},
     Json 200 (JObj [("sessionId",
                      JStr (Access.session_id (Users.id user) (now e)));
                     ("role", JStr (Users.role user))])).
Proof.
  intros Huser Hopen Hmatch. unfold login. rewrite Huser, Hmatch. simpl.
  destruct (bool_decide (Users.role user = "student")) eqn:Hrole;
    destruct (bool_decide (Users.quiz_status user ∈ _)) eqn:Hstatus;
    simpl; try done.
  apply bool_decide_eq_true in Hrole, Hstatus. by destruct Hopen.
Qed.

(** Numerals and the separator of a session id. *)
Lemma pretty_Z_cases (z : Z) :
  (all_digits (pretty z) = true ∧ pretty z ≠ EmptyString)
  ∨ ∃ d, pretty z = String "-" d ∧ all_digits d = true ∧ d ≠ EmptyString.
Proof.
  destruct z as [|p|p].
  - by left.
  - left. change (pretty (Z.pos p)) with (pretty (N.pos p)).
    by destruct (pretty_N_digits (N.pos p)) as (? & ? & _).
  - right. exists (pretty (N.pos p)).
    by destruct (pretty_N_digits (N.pos p)) as (? & ? & _).
Qed.

Lemma digits_separator_inj (a b c d : string) :
  all_digits a = true → all_digits c = true →
  a +:+ String "_" b = c +:+ String "_" d → a = c ∧ b = d.
Proof.
  revert c. induction a as [|x a IH]; intros [|y c]; simpl.
  - by intros _ _ [= ->].
  - intros _ [Hy _]%andb_true_iff [= <- _]. by vm_compute in Hy.
  - intros [Hx _]%andb_true_iff _ [= -> _]. by vm_compute in Hx.
  - intros [_ Ha]%andb_true_iff [_ Hc]%andb_true_iff [= -> Heq].
    destruct (IH c Ha Hc Heq) as [-> ->]. done.
Qed.

Lemma pretty_separator_inj (u1 u2 : Z) (t1 t2 : string) :
  pretty u1 +:+ String "_" t1 = pretty u2 +:+ String "_" t2 →
  u1 = u2 ∧ t1 = t2.
Proof.
  intros Heq.
  cut (pretty u1 = pretty u2 ∧ t1 = t2).
  { intros [Hu ->]. split; [|done]. by apply (inj pretty). }
  destruct (pretty_Z_cases u1) as [[Hd1 Hne1]|(d1 & Hp1 & Hd1 & Hne1)],
    (pretty_Z_cases u2) as [[Hd2 Hne2]|(d2 & Hp2 & Hd2 & Hne2)].
  - by apply digits_separator_inj.
  - rewrite Hp2 in Heq. destruct (pretty u1) as [|x a]; [done|].
    simpl in Heq, Hd1. injection Heq as -> _.
    apply andb_true_iff in Hd1 as [Hx _]. by vm_compute in Hx.
  - rewrite Hp1 in Heq. destruct (pretty u2) as [|x a]; [done|].
    simpl in Heq, Hd2. injection Heq as <- _.
    apply andb_true_iff in Hd2 as [Hx _]. by vm_compute in Hx.
  - rewrite Hp1, Hp2 in *. simpl in Heq. injection Heq as Heq.
    destruct (digits_separator_inj _ _ _ _ Hd1 Hd2 Heq) as [-> ->]. done.
Qed.

Lemma session_id_inj (u1 t1 u2 t2 : Z) :
  Access.session_id u1 t1 = Access.session_id u2 t2 → u1 = u2 ∧ t1 = t2.
Proof.
  unfold Access.session_id. simpl. intros [= Heq].
  apply pretty_separator_inj in Heq as [-> Ht]. split; [done|].
  by apply (inj pretty).
Qed.

End SessionFacts.

(** X7.  A login that passes the three checks replies 200 with the session
    id [s_<user id>_<clock>] and the user's role, leaves the tables as they
    are, and stores the session under that id: from then on the id is
    accepted by [isLoggedIn], in the header as well as in the query, as the
    session of that user; the sessions stored under other ids are still
    there. *)
Theorem login_opens_session
    (bcrypt_compare : string → string → bool) (e : env) (st : state)
    (u : Users.row) (password : string) :
  NoDup (map Users.email (Store.users (db st))) →
  u ∈ Store.users (db st) →
  ¬ (Users.role u = "student"
     ∧ Users.quiz_status u ∈ ["completed"; "disqualified"]) →
  bcrypt_compare password (Users.password_hash u) = true →
  let sessionId := Access.session_id (Users.id u) (now e) in
  let s := {| userId := Users.id u; role := Users.role u |} in
  ∃ st',
    login bcrypt_compare e (Users.email u) password st =
      (st', Json 200 (JObj [("sessionId", JStr sessionId);
                            ("role", JStr (Users.role u))]))
    ∧ db st' = db st
    ∧ isLoggedIn (Access.with_header sessionId) st' = inr (stored s)
    ∧ isLoggedIn (Access.with_query sessionId) st' = inr (stored s)
    ∧ ∀ other, other ≠ sessionId →
        sessions st' !! other = sessions st !! other.
Proof.
  intros Hnd Hu Hopen Hmatch sessionId s. eexists. split.
  { apply login_success; [by apply select_user_by_email_head|done..]. }
  split; [done|].
  split.
  { rewrite isLoggedIn_with_header by done.
    by rewrite (sessions_get_stored _ _ s) by apply lookup_insert_eq. }
  split.
  { rewrite isLoggedIn_with_query by done.
    by rewrite (sessions_get_stored _ _ s) by apply lookup_insert_eq. }
  intros other Hother. simpl. by rewrite lookup_insert_ne.
Qed.

Lemma login_opens_session_witness :
  (login LoginSample.compare_plain Sample.env0 "admin@example.org" "secret"
     Staff.state0).2 =
  Json 200 (JObj [("sessionId", JStr (Access.session_id 1 (now Sample.env0)));
                  ("role", JStr "admin")]).
Proof.
  destruct (login_opens_session LoginSample.compare_plain Sample.env0
              Staff.state0 Staff.admin "secret") as (st' & Hlogin & _).
  - simpl. compute_done.
  - left.
  - intros [Hrole _]. discriminate Hrole.
  - reflexivity.
  - exact (f_equal snd Hlogin).
Defined.

(** X8.  The session id of a login tells the user and the clock value
    apart: two logins get the same id only for the same user id at the same
    clock value, so a login cannot take the place of the session of another
    user; and the id is never the empty string that [isLoggedIn] refuses. *)
Theorem session_ids_are_distinct (u1 t1 u2 t2 : Z) :
  (Access.session_id u1 t1 = Access.session_id u2 t2 ↔ u1 = u2 ∧ t1 = t2)
  ∧ falsy_string (Access.session_id u1 t1) = false
  ∧ ∀ bcrypt_compare e email password st sessionId role,
      (login bcrypt_compare e email password st).2 =
        Json 200 (JObj [("sessionId", JStr sessionId); ("role", JStr role)]) →
      ∃ user, user ∈ Store.users (db st)
        ∧ sessionId = Access.session_id (Users.id user) (now e).
Proof.
  split; [|split; [done|]].
  - split; [apply session_id_inj|]. by intros [-> ->].
  - intros bcrypt_compare e email password st sessionId role0.
    unfold login. destruct (head _) as [user|] eqn:Huser; [|done].
    destruct (_ && _); [done|]. destruct (negb _); [done|].
    simpl. intros [= <- _]. exists user. split; [|done].
    apply head_Some_elem_of in Huser.
    by apply list_elem_of_filter in Huser as [_ ?].
Qed.

(** X9.  Registration followed by login with the same email and password:
    when [bcrypt.compare] accepts the password against the hash that
    [bcrypt.hash] made of it, the login replies 200 with the role "student"
    and a session id that [isLoggedIn] accepts as the session of the new
    user, whose id is the one the users sequence had before. *)
Theorem register_then_login
    (bcrypt_hash : string → string → string)
    (bcrypt_compare : string → string → bool) (e e' : env)
    (fullName email password : string) (st : state) :
  fullName ≠ EmptyString → email ≠ EmptyString → password ≠ EmptyString →
  email ∉ map Users.email (Store.users (db st)) →
  bcrypt_compare password (bcrypt_hash password (salt e)) = true →
  let st1 := (register bcrypt_hash e fullName email password st).1 in
  let uid := Store.users_seq (db st) in
  let sessionId := Access.session_id uid (now e') in
  ∃ st2,
    login bcrypt_compare e' email password st1 =
      (st2, Json 200 (JObj [("sessionId", JStr sessionId);
                            ("role", JStr "student")]))
    ∧ isLoggedIn (Access.with_header sessionId) st2 =
        inr (stored {| userId := uid; role := "student" |}).
Proof.
  intros Hn He Hp Hnew Hmatch st1 uid sessionId. subst st1.
  rewrite register_new by done. cbn [fst]. eexists. split.
  - rewrite (login_success bcrypt_compare e' email password _
               {| Users.id := uid; Users.full_name := fullName;
                  Users.email := email;
                  Users.password_hash := bcrypt_hash password (salt e);
                  Users.role := "student";
                  Users.quiz_status := "unattempted" |}); [done| | |done].
    + unfold Store.select_user_by_email. cbn [db Store.users].
      rewrite filter_app.
      assert (filter (λ u, Users.email u = email) (Store.users (db st)) = [])
        as ->.
      { clear -Hnew. induction (Store.users (db st)) as [|u us IH]; [done|].
        simpl in Hnew. apply not_elem_of_cons in Hnew as [Hu Hus].
        rewrite filter_cons, decide_False by done. by apply IH. }
      by rewrite filter_cons, decide_True.
    + intros [_ Hstatus]. revert Hstatus. simpl. compute_done.
  - rewrite isLoggedIn_with_header by done.
    by rewrite (sessions_get_stored _ _ {| userId := uid; role := "student" |})
      by apply lookup_insert_eq.
Qed.

Lemma register_then_login_witness :
  (login LoginSample.compare_plain Sample.env0 "new@example.org" "pw"
     (register Staff.hash_plain Sample.env0 "New" "new@example.org" "pw"
        Staff.state0).1).2 =
  Json 200 (JObj [("sessionId",
                   JStr (Access.session_id 100 (now Sample.env0)));
                  ("role", JStr "student")]).
Proof.
  destruct (register_then_login Staff.hash_plain LoginSample.compare_plain
              Sample.env0 Sample.env0 "New" "new@example.org" "pw"
              Staff.state0) as (st2 & Hlogin & _);
    [done|done|done|simpl; compute_done|reflexivity|].
  exact (f_equal snd Hlogin).
Defined.

(** ** Logout *)

(** X10.  A logout that carries a session id in the [x-session-id] header
    replies 200 "Logged out", leaves the tables as they are and removes
    the session stored under that id and no other; a second logout changes
    nothing more.  When the id is not the name of a property that
    [sessions] inherits, and no id made by login is, it is refused by
    [isLoggedIn] from then on, in the header as well as in the query.
    Under the name of an inherited property [delete] has nothing to remove
    and the id passes [isLoggedIn] after the logout, as before it.  A
    logout without the header removes no session, also when the id is given
    in the query string, where [isLoggedIn] accepts it. *)
Theorem logout_ends_session (h : headers) (st : state) (sessionId : string) :
  x_session_id h = Some sessionId → sessionId ≠ EmptyString →
  let st' := (logout h st).1 in
  (logout h st).2 = Json 200 (message "Logged out")
  ∧ db st' = db st
  ∧ sessions st' !! sessionId = None
  ∧ (∀ other, other ≠ sessionId →
       sessions st' !! other = sessions st !! other)
  ∧ (sessionId ∉ Object_prototype →
       (∃ early, isLoggedIn (Access.with_header sessionId) st' = inl early)
       ∧ (∃ early, isLoggedIn (Access.with_query sessionId) st' = inl early))
  ∧ (∀ uid t, sessionId = Access.session_id uid t →
       sessionId ∉ Object_prototype)
  ∧ (sessionId ∈ Object_prototype →
       isLoggedIn (Access.with_header sessionId) st' = inr inherited
       ∧ isLoggedIn (Access.with_query sessionId) st' = inr inherited)
  ∧ logout h st' = (st', Json 200 (message "Logged out"))
  ∧ ∀ s, sessions st !! sessionId = Some s →
      logout (Access.with_query sessionId) st =
        (st, Json 200 (message "Logged out"))
      ∧ isLoggedIn (Access.with_query sessionId) st = inr (stored s).
Proof.
  intros Hh Hne st'.
  assert (falsy_string sessionId = false) as Hfalsy
    by by apply falsy_string_false.
  assert (st' = {| db := db st; sessions := delete sessionId (sessions st) |})
    as Hst'.
  { subst st'. unfold logout. by rewrite Hh, Hfalsy. }
  assert (sessions st' !! sessionId = None) as Hgone.
  { rewrite Hst'. simpl. apply lookup_delete_eq. }
  split; [done|]. split; [by rewrite Hst'|]. split; [done|].
  split.
  { intros other Hother. rewrite Hst'. simpl. by rewrite lookup_delete_ne. }
  split.
  { intros Hown.
    rewrite isLoggedIn_with_header, isLoggedIn_with_query by done.
    rewrite sessions_get_unknown by done. eauto. }
  split.
  { intros uid t ->. apply session_id_not_inherited. }
  split.
  { intros Hin.
    rewrite isLoggedIn_with_header, isLoggedIn_with_query by done.
    by rewrite sessions_get_inherited by done. }
  split.
  { unfold logout at 1. rewrite Hh, Hfalsy. f_equal.
    rewrite Hst'. simpl. f_equal. apply delete_id.
    apply lookup_delete_eq. }
  intros s Hs. split; [by destruct st|].
  rewrite isLoggedIn_with_query by done. by rewrite (sessions_get_stored _ _ s).
Qed.

Lemma logout_ends_session_witness :
  sessions (logout (Access.with_header "s_5_20") Staff.state0).1 !! "s_5_20"
    = None
  ∧ ∃ early,
      isLoggedIn (Access.with_header "s_5_20")
        (logout (Access.with_header "s_5_20") Staff.state0).1 = inl early.
Proof.
  destruct (logout_ends_session (Access.with_header "s_5_20") Staff.state0
              "s_5_20") as (_ & _ & Hgone & _ & Hrefused & _);
    [reflexivity|discriminate|].
  split; [exact Hgone|]. apply Hrefused. compute_done.
Defined.

(** ** The questions table *)

Section QuestionFacts.
Implicit Types (st : state) (d : Store.database) (q : Questions.row).

Lemma id_desc_total : Total Store.id_desc.
Proof. intros q1 q2. unfold Store.id_desc. lia. Qed.

Lemma id_desc_trans : Transitive Store.id_desc.
Proof. intros q1 q2 q3. unfold Store.id_desc. lia. Qed.

Lemma select_questions_desc_sorted d :
  StronglySorted Store.id_desc (Store.select_questions_desc d)
  ∧ Store.select_questions_desc d ≡ₚ Store.questions d.
Proof.
  split; [|apply merge_sort_Permutation].
  apply (@StronglySorted_merge_sort _ _ _ id_desc_trans id_desc_total).
Qed.

(** A new row whose id is above all the others is listed first. *)
Lemma select_questions_desc_snoc (l : list Questions.row) q :
  NoDup (map Questions.id l) →
  Forall (λ q', Questions.id q' < Questions.id q) l →
  merge_sort Store.id_desc (l ++ [q]) = q :: merge_sort Store.id_desc l.
Proof.
  intros Hnd Hbelow.
  assert (NoDup (map Questions.id (l ++ [q]))) as Hnd'.
  { by apply (NoDup_snoc_fresh Questions.id _ _ (Questions.id q)). }
  apply (StronglySorted_unique_strong Store.id_desc).
  - intros x1 x2 Hx1 Hx2 H12 H21. unfold Store.id_desc in *.
    apply (NoDup_fmap_elem_inj Questions.id (l ++ [q])); [done| | |lia].
    + by rewrite merge_sort_Permutation in Hx1.
    + rewrite merge_sort_Permutation in Hx2.
      apply elem_of_app. apply elem_of_cons in Hx2 as [->|Hx2];
        [right; left|by left].
  - apply (@StronglySorted_merge_sort _ _ _ id_desc_trans id_desc_total).
  - apply StronglySorted_cons. split.
    + apply Forall_forall. intros y Hy.
      rewrite merge_sort_Permutation in Hy.
      rewrite Forall_forall in Hbelow. specialize (Hbelow y Hy).
      unfold Store.id_desc. lia.
    + apply (@StronglySorted_merge_sort _ _ _ id_desc_trans id_desc_total).
  - rewrite !merge_sort_Permutation. by rewrite Permutation_app_comm.
Qed.

Lemma filter_below_fresh (l : list Questions.row) (seq : Z) :
  Forall (λ q, Questions.id q < seq) l →
  filter (λ q, Questions.id q ≠ seq) l = l.
Proof.
  induction 1 as [|q l Hq _ IH]; [done|].
  rewrite filter_cons, decide_True by lia. by rewrite IH.
Qed.

(** An id without a row never passes the test of the scoring loop. *)
Lemma fold_insert_lookup_absent (correct : list (Z * string))
    (map : gmap Z string) (id : Z) :
  id ∉ correct.*1 →
  fold_left (λ m kv, <[kv.1 := kv.2]> m) correct map !! id = map !! id.
Proof.
  revert map. induction correct as [|[k c] correct IH]; intros map Hid; [done|].
  simpl in *. apply not_elem_of_cons in Hid as [Hk Hid].
  rewrite IH by done. by rewrite lookup_insert_ne.
Qed.

Lemma is_correct_no_row (answers : gmap Z json) (correct : list (Z * string))
    (id : Z) :
  id ∉ correct.*1 → is_correct answers (correct_map correct) id = false.
Proof.
  intros Hid. unfold is_correct, correct_map.
  rewrite fold_insert_lookup_absent, lookup_empty by done.
  destruct (answers !! id); [apply andb_false_r|done].
Qed.

Lemma isAdmin_admin (c : caller) :
  req_userRole c = Some "admin" → isAdmin c = None.
Proof.
  intros Hrole. unfold isAdmin. rewrite bool_decide_false; [done|].
  intros Hne. by apply Hne.
Qed.

End QuestionFacts.

(** X11.  An admin who sends the six fields, none empty, gets 200
    "Question added"; the question is stored at the end of the table under
    the next id of the sequence with the fields as sent, whatever the
    correct option is (it is not compared with the four options); users,
    attempts and sessions are left as they are.  Ids being keys below the
    sequence, the new question comes first in the admin's list, and deleting
    it gives back the rows the table had. *)
Theorem admin_creates_question
    (bcrypt_hash : string → string → string)
    (bcrypt_compare : string → string → bool) (toISOString : Z → string)
    (e : env) (h : headers) (admin : caller) (st : state)
    (text a b c d correct : string) :
  isLoggedIn h st = inr admin → req_userRole admin = Some "admin" →
  text ≠ EmptyString → a ≠ EmptyString → b ≠ EmptyString →
  c ≠ EmptyString → d ≠ EmptyString → correct ≠ EmptyString →
  let q := {| Questions.id := Store.questions_seq (db st);
              Questions.question_text := text; Questions.option_a := a;
              Questions.option_b := b; Questions.option_c := c;
              Questions.option_d := d; Questions.correct_option := correct |} in
  ∃ st',
    handle bcrypt_hash bcrypt_compare toISOString e
      (AdminQuestionsCreate h text a b c d correct) st =
      (st', Json 200 (message "Question added"))
    ∧ Store.questions (db st') = (Store.questions (db st) ++ [q])%list
    ∧ Store.questions_seq (db st') = Store.questions_seq (db st) + 1
    ∧ Store.users (db st') = Store.users (db st)
    ∧ Store.attempts (db st') = Store.attempts (db st)
    ∧ sessions st' = sessions st
    ∧ (Keys.ok (db st) →
       (admin_questions_list st').2 =
         Json 200 (JArr (question_json q ::
                         map question_json (Store.select_questions_desc (db st))))
       ∧ Store.questions
           (db (admin_questions_delete (Questions.id q) st').1) =
         Store.questions (db st)).
Proof.
  intros Hs Hrole Ht Ha Hb Hc Hd Hcorrect q. eexists. split.
  { unfold handle, admin_only, logged_in, admin_questions_create.
    rewrite Hs, isAdmin_admin by done.
    rewrite (falsy_string_false text), (falsy_string_false a),
      (falsy_string_false b), (falsy_string_false c),
      (falsy_string_false d), (falsy_string_false correct) by assumption.
    reflexivity. }
  cbn [db with_db Store.questions Store.insert_question Store.questions_seq
       Store.users Store.attempts sessions].
  repeat (split; [done|]).
  intros [_ _ _ Hqid Hqbelow _ _]. split.
  - unfold admin_questions_list, Store.select_questions_desc. simpl.
    by rewrite select_questions_desc_snoc.
  - simpl. rewrite filter_app, filter_below_fresh by done.
    rewrite filter_cons, decide_False; [by rewrite app_nil_r|].
    intros Hne. by apply Hne.
Qed.

Lemma admin_creates_question_witness :
  (handle Staff.hash_plain LoginSample.compare_plain Staff.iso Sample.env0
     (AdminQuestionsCreate (Access.with_header "s_1_10")
        "2+2?" "3" "4" "5" "6" "Z") Staff.state0).2 =
  Json 200 (message "Question added").
Proof.
  destruct (admin_creates_question Staff.hash_plain LoginSample.compare_plain
              Staff.iso Sample.env0 (Access.with_header "s_1_10")
              (stored {| userId := 1; role := "admin" |}) Staff.state0
              "2+2?" "3" "4" "5" "6" "Z") as (st' & Hcreate & _);
    [vm_compute; reflexivity|done..|].
  exact (f_equal snd Hcreate).
Defined.

(** X12.  An admin who deletes a question id gets 200 "Question deleted",
    whether or not a row has that id; afterwards no row has it, the other
    rows are the ones the table had, in their order, and users, attempts
    and sessions are as before, so an attempt that names the id keeps
    naming it.  For such an attempt the id no longer passes the test of the
    scoring loop, whatever the answer.  Deleting an id that has no row
    changes nothing, so deleting twice is deleting once. *)
Theorem admin_deletes_question
    (bcrypt_hash : string → string → string)
    (bcrypt_compare : string → string → bool) (toISOString : Z → string)
    (e : env) (h : headers) (admin : caller) (st : state) (id : Z) :
  isLoggedIn h st = inr admin → req_userRole admin = Some "admin" →
  ∃ st',
    handle bcrypt_hash bcrypt_compare toISOString e
      (AdminQuestionsDelete h id) st =
      (st', Json 200 (message "Question deleted"))
    ∧ (id ∉ map Questions.id (Store.questions (db st')))
    ∧ Store.questions (db st') =
        filter (λ q, Questions.id q ≠ id) (Store.questions (db st))
    ∧ Store.users (db st') = Store.users (db st)
    ∧ Store.attempts (db st') = Store.attempts (db st)
    ∧ sessions st' = sessions st
    ∧ (∀ ids answers,
         is_correct answers
           (correct_map (Store.select_correct ids (db st'))) id = false)
    ∧ (id ∉ map Questions.id (Store.questions (db st)) → st' = st)
    ∧ (admin_questions_delete id st').1 = st'.
Proof.
  intros Hs Hrole. eexists. split.
  { simpl. unfold admin_only, logged_in, admin_questions_delete.
    by rewrite Hs, isAdmin_admin by done. }
  cbn [db with_db Store.questions Store.delete_question Store.questions_seq
       Store.users Store.attempts sessions].
  assert (id ∉ map Questions.id
            (filter (λ q, Questions.id q ≠ id) (Store.questions (db st))))
    as Hgone.
  { intros (q & -> & [Hq _]%list_elem_of_filter)%list_elem_of_fmap. done. }
  split; [done|]. repeat (split; [done|]).
  split.
  { intros ids answers. apply is_correct_no_row.
    unfold Store.select_correct. rewrite <- list_fmap_compose.
    intros (q & -> & [_ Hq]%list_elem_of_filter)%list_elem_of_fmap.
    apply Hgone. apply list_elem_of_fmap. eauto. }
  assert (∀ l : list Questions.row, id ∉ map Questions.id l →
            filter (λ q, Questions.id q ≠ id) l = l) as Hsame.
  { induction l as [|q l IH]; [done|]. simpl.
    intros [Hq Hl]%not_elem_of_cons.
    rewrite filter_cons, decide_True by done. by rewrite IH. }
  split.
  - intros Habsent. unfold Store.delete_question. rewrite Hsame by done.
    by destruct st as [[]].
  - unfold admin_questions_delete, Store.delete_question. simpl.
    by rewrite Hsame.
Qed.

Lemma admin_deletes_question_witness :
  map Questions.id
    (Store.questions
       (db (handle Staff.hash_plain LoginSample.compare_plain Staff.iso
              Sample.env0 (AdminQuestionsDelete (Access.with_header "s_1_10") 2)
              Staff.state0).1)) = [1; 3].
Proof.
  destruct (admin_deletes_question Staff.hash_plain LoginSample.compare_plain
              Staff.iso Sample.env0 (Access.with_header "s_1_10")
              (stored {| userId := 1; role := "admin" |}) Staff.state0 2)
    as (st' & Hdelete & _ & Hrows & _); [vm_compute; reflexivity|done|].
  rewrite Hdelete. simpl. rewrite Hrows. reflexivity.
Defined.

(** X13.  The admin's list of questions holds every row of the table once,
    each with its correct option, ordered by id from the highest down:
    ids being keys, a row listed earlier has a strictly higher id. *)
Theorem admin_lists_questions_newest_first (st : state) :
  ∃ listed,
    admin_questions_list st = (st, Json 200 (JArr (map question_json listed)))
    ∧ listed ≡ₚ Store.questions (db st)
    ∧ (∀ o, o ∈ map question_json listed → "correct_option" ∈ keys o)
    ∧ (∀ i j q1 q2, (i < j)%nat → listed !! i = Some q1 →
         listed !! j = Some q2 → Questions.id q2 ≤ Questions.id q1)
    ∧ (NoDup (map Questions.id (Store.questions (db st))) →
       ∀ i j q1 q2, (i < j)%nat → listed !! i = Some q1 →
         listed !! j = Some q2 → Questions.id q2 < Questions.id q1).
Proof.
  exists (Store.select_questions_desc (db st)).
  destruct (select_questions_desc_sorted (db st)) as [Hsorted Hperm].
  split; [done|]. split; [done|]. split.
  { intros o (q & -> & _)%list_elem_of_fmap. simpl. compute_done. }
  assert (∀ i j q1 q2, (i < j)%nat →
            Store.select_questions_desc (db st) !! i = Some q1 →
            Store.select_questions_desc (db st) !! j = Some q2 →
            Questions.id q2 ≤ Questions.id q1) as Hle.
  { intros i j q1 q2 Hij Hi Hj.
    by apply (StronglySorted_lookup Store.id_desc _ i j q1 q2 Hsorted). }
  split; [done|].
  intros Hnd i j q1 q2 Hij Hi Hj.
  assert (Questions.id q1 ≠ Questions.id q2);
    [|pose proof (Hle i j q1 q2 Hij Hi Hj); lia].
  intros Heq. rewrite <- Hperm in Hnd.
  assert (i = j); [|lia].
  eapply NoDup_lookup; [exact Hnd| |]; rewrite list_lookup_fmap.
  - by rewrite Hi.
  - rewrite Hj. simpl. by rewrite Heq.
Qed.

(** ** Starting a quiz *)

Section StartFacts.
Implicit Types (st : state) (e : env).

Lemma start_quiz_enough e userId st :
  QUIZ_LENGTH ≤ Z.of_nat (length (Store.questions (db st))) →
  start_quiz e userId st =
    (let ids := take (Z.to_nat QUIZ_LENGTH)
                  (sort_random e (map Questions.id (Store.questions (db st)))) in
     ({| db := {| Store.users :=
                    map (λ u, if bool_decide (Some (Users.id u) = userId)
                              then Users.set_quiz_status "started" u else u)
                      (Store.users (db st));
                  Store.questions := Store.questions (db st);
                  Store.attempts := Store.attempts (db st) ++
                    [{| Attempts.id := Store.attempts_seq (db st);
                        Attempts.user_id := userId;
                        Attempts.shuffled_questions := ids;
                        Attempts.status := "started";
                        Attempts.score := None;
                        Attempts.created_at := now e;
                        Attempts.end_time := None |}];
                  Store.users_seq := Store.users_seq (db st);
                  Store.questions_seq := Store.questions_seq (db st);
                  Store.attempts_seq := Store.attempts_seq (db st) + 1 |};
         sessions := sessions st |},
      Json 200 (JObj [("attemptId", JNum (Store.attempts_seq (db st)));
                      ("questionIds", JArr (map JNum ids))]))).
Proof.
  intros Henough. unfold start_quiz.
  by rewrite (proj2 (Z.ltb_ge _ _) Henough).
Qed.

Lemma take_quiz_length (pool shuffled : list Z) :
  shuffled ≡ₚ pool → NoDup pool →
  QUIZ_LENGTH ≤ Z.of_nat (length pool) →
  let ids := take (Z.to_nat QUIZ_LENGTH) shuffled in
  length ids = Z.to_nat QUIZ_LENGTH ∧ NoDup ids ∧ ∀ id, id ∈ ids → id ∈ pool.
Proof.
  intros Hperm Hnd Hlen ids. split; [|split].
  - unfold ids. rewrite length_take, Hperm. lia.
  - unfold ids. eapply sublist_NoDup; [|apply sublist_take]. by rewrite Hperm.
  - intros x Hx. rewrite <- Hperm.
    eapply elem_of_sublist; [exact Hx|apply sublist_take].
Qed.

(** The reply of [GET /questions] to a parameter that parses to a list
    with an id in it. *)
Lemma questions_parsed (s : string) (idArray : list Z) st :
  parse_ids s = idArray → idArray ≠ [] →
  questions (Some s) st =
  (st, Json 200 (JArr (map view_json
         (Listing.listed idArray (Store.select_views idArray (db st)))))).
Proof. intros Hs Hne. unfold questions. rewrite Hs. by destruct idArray. Qed.

Lemma filter_all {A} (P : A → Prop) `{!∀ x, Decision (P x)} (l : list A) :
  (∀ x, x ∈ l → P x) → filter P l = l.
Proof.
  induction l as [|x l IH]; intros Hall; [done|].
  rewrite filter_cons, decide_True by (apply Hall; left).
  rewrite IH; [done|]. intros y Hy. apply Hall. by right.
Qed.

End StartFacts.

(** X14.  With at least [QUIZ_LENGTH] questions, start-quiz replies 200
    with the id of the new attempt and its question ids.  It adds exactly
    one attempt, at the end of the table, under the next id of the sequence:
    with the caller's [req.userId] as owner, "started", without score or
    end time, created at the clock value, holding the ids it returned.  It
    sets the [quiz_status] of the caller's row to "started" and touches
    nothing else.  When the reordering is a permutation of a pool of
    distinct ids, the stored ids are [QUIZ_LENGTH] distinct ids of the
    pool.  When moreover no id of the pool is zero (and all are in the
    range where a number is exact), [GET /questions] asked for the stored
    ids joined by commas replies with one question for each, in the stored
    order; a question whose id is zero would be missing from that reply. *)
Theorem start_quiz_creates_attempt
    (e : env) (userId : option Z) (st : state) :
  QUIZ_LENGTH ≤ Z.of_nat (length (Store.questions (db st))) →
  let pool := map Questions.id (Store.questions (db st)) in
  let ids := take (Z.to_nat QUIZ_LENGTH) (sort_random e pool) in
  let attempt :=
    {| Attempts.id := Store.attempts_seq (db st); Attempts.user_id := userId;
       Attempts.shuffled_questions := ids; Attempts.status := "started";
       Attempts.score := None; Attempts.created_at := now e;
       Attempts.end_time := None |} in
  ∃ st',
    start_quiz e userId st =
      (st', Json 200 (JObj [("attemptId", JNum (Store.attempts_seq (db st)));
                            ("questionIds", JArr (map JNum ids))]))
    ∧ Store.attempts (db st') = (Store.attempts (db st) ++ [attempt])%list
    ∧ Store.attempts_seq (db st') = Store.attempts_seq (db st) + 1
    ∧ Store.users (db st') =
        map (λ u, if bool_decide (Some (Users.id u) = userId)
                  then Users.set_quiz_status "started" u else u)
          (Store.users (db st))
    ∧ Store.questions (db st') = Store.questions (db st)
    ∧ sessions st' = sessions st
    ∧ (sort_random e pool ≡ₚ pool → NoDup pool →
       length ids = Z.to_nat QUIZ_LENGTH ∧ NoDup ids
       ∧ (∀ id, id ∈ ids → id ∈ pool)
       ∧ ((∀ id, id ∈ pool → id ≠ 0 ∧ - 2 ^ 53 < id < 2 ^ 53) →
          ∃ listed,
            questions (Some (Listing.join_ids ids)) st' =
              (st', Json 200 (JArr (map view_json listed)))
            ∧ map Questions.v_id listed = ids)
       ∧ (0 ∈ ids →
          ∃ listed,
            questions (Some (Listing.join_ids ids)) st' =
              (st', Json 200 (JArr (map view_json listed)))
            ∧ map Questions.v_id listed = filter (λ id, id ≠ 0) ids
            ∧ (length listed < Z.to_nat QUIZ_LENGTH)%nat)).
Proof.
  intros Henough pool ids attempt. eexists. split.
  { by rewrite start_quiz_enough. }
  cbn [db Store.attempts Store.attempts_seq Store.users Store.questions
       sessions].
  repeat (split; [done|]).
  intros Hperm Hnd.
  destruct (take_quiz_length pool (sort_random e pool) Hperm Hnd)
    as (Hlen & Hnd' & Hsub); [by unfold pool; rewrite length_map|].
  repeat (split; [done|]).
  fold ids in Hlen, Hnd', Hsub.
  set (st' := {| db := _; sessions := sessions st |}).
  split.
  - intros Hrange.
    assert (parse_ids (Listing.join_ids ids) = ids) as Hparse.
    { rewrite parse_ids_join_ids. apply filter_all.
      intros id Hid. by apply Hrange, Hsub. }
    assert (ids ≠ []) as Hne.
    { intros Hnil. rewrite Hnil in Hlen. simpl in Hlen. unfold QUIZ_LENGTH in Hlen.
      lia. }
    eexists. split; [by apply questions_parsed|].
    rewrite listed_selected_ids. by apply filter_all.
  - intros Hzero.
    set (kept := filter (λ id, id ≠ 0) ids).
    assert (parse_ids (Listing.join_ids ids) = kept) as Hparse
      by apply parse_ids_join_ids.
    assert (length ids = S (length kept)) as Hkept.
    { unfold kept. clear -Hzero Hnd'.
      induction ids as [|id ids IH]; [by apply elem_of_nil in Hzero|].
      apply NoDup_cons in Hnd' as [Hid Hnd'].
      apply elem_of_cons in Hzero as [<-|Hzero].
      - rewrite filter_cons, decide_False by (by intros ?). simpl. f_equal.
        f_equal. symmetry. apply filter_all. intros x Hx ->. done.
      - rewrite filter_cons, decide_True.
        + simpl. f_equal. by apply IH.
        + intros ->. done. }
    assert (kept ≠ []) as Hne.
    { intros Hnil. rewrite Hnil, Hlen in Hkept. simpl in Hkept.
      unfold QUIZ_LENGTH in Hkept. lia. }
    assert (∀ id, id ∈ kept → id ∈ pool) as Hsub'.
    { intros id [_ Hid]%list_elem_of_filter. by apply Hsub. }
    eexists. split; [by apply questions_parsed|].
    assert (map Questions.v_id
              (Listing.listed kept (Store.select_views kept (db st'))) = kept)
      as Hids.
    { rewrite listed_selected_ids. by apply filter_all. }
    split; [done|].
    rewrite <- (length_map Questions.v_id), Hids. lia.
Qed.

Lemma start_quiz_creates_attempt_witness :
  ∃ st',
    start_quiz Sample.env0 (Some 5)
      (Sample.state_of [Sample.student 5 "s5@example.org" "unattempted"]
         (map (λ i, Sample.question (Z.of_nat i) "A") (seq 1 50)) []) =
    (st', Json 200 (JObj [("attemptId", JNum 100);
                          ("questionIds",
                           JArr (map (λ i, JNum (Z.of_nat i)) (seq 1 50)))])).
Proof.
  destruct (start_quiz_creates_attempt Sample.env0 (Some 5)
              (Sample.state_of [Sample.student 5 "s5@example.org" "unattempted"]
                 (map (λ i, Sample.question (Z.of_nat i) "A") (seq 1 50)) []))
    as (st' & Hstart & _); [vm_compute; discriminate|].
  exists st'. rewrite Hstart. reflexivity.
Defined.

(** X15.  Start-quiz looks neither at the caller's [quiz_status] nor at the
    attempts the caller already has: called twice with enough questions it
    replies 200 twice and leaves two more attempts of the caller, both
    "started", under consecutive ids. *)
Theorem start_quiz_twice (e1 e2 : env) (userId : option Z) (st : state) :
  QUIZ_LENGTH ≤ Z.of_nat (length (Store.questions (db st))) →
  let first := start_quiz e1 userId st in
  let second := start_quiz e2 userId first.1 in
  ∃ a1 a2 ids1 ids2,
    first.2 = Json 200 (JObj [("attemptId", JNum (Attempts.id a1));
                               ("questionIds", JArr (map JNum ids1))])
    ∧ second.2 = Json 200 (JObj [("attemptId", JNum (Attempts.id a2));
                                  ("questionIds", JArr (map JNum ids2))])
    ∧ Store.attempts (db second.1) = (Store.attempts (db st) ++ [a1; a2])%list
    ∧ Attempts.user_id a1 = userId ∧ Attempts.user_id a2 = userId
    ∧ Attempts.status a1 = "started" ∧ Attempts.status a2 = "started"
    ∧ Attempts.id a2 = Attempts.id a1 + 1.
Proof.
  intros Henough first second. subst second first.
  rewrite (start_quiz_enough e1) by done. cbn [fst snd].
  rewrite (start_quiz_enough e2) by done. cbn [fst snd db Store.attempts].
  set (pool := map Questions.id (Store.questions (db st))).
  exists
    {| Attempts.id := Store.attempts_seq (db st); Attempts.user_id := userId;
       Attempts.shuffled_questions :=
         take (Z.to_nat QUIZ_LENGTH) (sort_random e1 pool);
       Attempts.status := "started"; Attempts.score := None;
       Attempts.created_at := now e1; Attempts.end_time := None |},
    {| Attempts.id := Store.attempts_seq (db st) + 1;
       Attempts.user_id := userId;
       Attempts.shuffled_questions :=
         take (Z.to_nat QUIZ_LENGTH) (sort_random e2 pool);
       Attempts.status := "started"; Attempts.score := None;
       Attempts.created_at := now e2; Attempts.end_time := None |},
    (take (Z.to_nat QUIZ_LENGTH) (sort_random e1 pool)),
    (take (Z.to_nat QUIZ_LENGTH) (sort_random e2 pool)).
  split; [reflexivity|]. split; [reflexivity|].
  split; [by rewrite <- app_assoc|]. by repeat split.
Qed.

Lemma start_quiz_twice_witness :
  length
    (Store.attempts
       (db (start_quiz Sample.env0 (Some 5)
              (start_quiz Sample.env0 (Some 5)
                 (Sample.state_of
                    [Sample.student 5 "s5@example.org" "unattempted"]
                    (map (λ i, Sample.question (Z.of_nat i) "A") (seq 1 50))
                    [])).1).1)) = 2%nat.
Proof.
  destruct (start_quiz_twice Sample.env0 Sample.env0 (Some 5)
              (Sample.state_of [Sample.student 5 "s5@example.org" "unattempted"]
                 (map (λ i, Sample.question (Z.of_nat i) "A") (seq 1 50)) []))
    as (a1 & a2 & ids1 & ids2 & _ & _ & Hattempts & _);
    [vm_compute; discriminate|].
  rewrite Hattempts. reflexivity.
Defined.

(** ** From start to submission, and after *)

Section LifecycleFacts.
Implicit Types (st : state) (e : env) (u : Users.row).

Lemma compute_score_bounds (ids : list Z) (answers : gmap Z json)
    (correct : list (Z * string)) :
  0 ≤ compute_score ids answers correct ≤ Z.of_nat (length ids).
Proof.
  unfold compute_score. rewrite fold_count.
  pose proof (length_filter
    (λ id, is_correct answers (correct_map correct) id) ids). lia.
Qed.

Lemma filter_attempts_fresh (l : list Attempts.row) (seq : Z)
    (uid : option Z) (status : string) :
  Forall (λ a, Attempts.id a < seq) l →
  filter (λ a, Attempts.id a = seq ∧ Store.sql_eq (Attempts.user_id a) uid
               ∧ Attempts.status a = status) l = [].
Proof.
  induction 1 as [|a l Ha _ IH]; [done|].
  rewrite filter_cons, decide_False; [done|]. intros [Hid _]. lia.
Qed.

Lemma complete_others_fresh (l : list Attempts.row) (seq score t : Z) :
  Forall (λ a, Attempts.id a < seq) l →
  map (λ a, if bool_decide (Attempts.id a = seq)
            then Attempts.complete score t a else a) l = l.
Proof.
  induction 1 as [|a l Ha _ IH]; [done|].
  simpl. rewrite bool_decide_false by lia. by rewrite IH.
Qed.

(** The row of [u] after its [quiz_status] was set. *)
Lemma updated_user_elem_of u (us : list Users.row) (v : string) :
  u ∈ us →
  Users.set_quiz_status v u ∈
    map (λ u', if bool_decide (Some (Users.id u') = Some (Users.id u))
               then Users.set_quiz_status v u' else u') us.
Proof.
  intros Hu. apply list_elem_of_fmap. exists u. split; [|done].
  by rewrite bool_decide_true.
Qed.

Lemma login_refused bcrypt_compare e email password st user :
  head (Store.select_user_by_email email (db st)) = Some user →
  Users.role user = "student" →
  Users.quiz_status user ∈ ["completed"; "disqualified"] →
  login bcrypt_compare e email password st =
    (st, Json 403 (message "Quiz already completed")).
Proof.
  intros Huser Hrole Hstatus. unfold login.
  by rewrite Huser, !bool_decide_true.
Qed.

End LifecycleFacts.

(** X16.  A quiz that is started and then submitted: ids being keys below
    their sequence and the reordering being a permutation of the pool,
    submitting answers under the attempt id that start-quiz returned replies
    "Quiz submitted successfully!" and turns the new attempt, and no other,
    into a completed one with the end time of the submission and a score
    between 0 and [QUIZ_LENGTH]: the score of the scoring loop on the ids
    that start-quiz stored. *)
Theorem start_then_submit
    (e e' : env) (userId : Z) (answers : gmap Z json) (st : state) :
  Keys.ok (db st) →
  QUIZ_LENGTH ≤ Z.of_nat (length (Store.questions (db st))) →
  sort_random e (map Questions.id (Store.questions (db st)))
    ≡ₚ map Questions.id (Store.questions (db st)) →
  let ids := take (Z.to_nat QUIZ_LENGTH)
               (sort_random e (map Questions.id (Store.questions (db st)))) in
  let score := compute_score ids answers (Store.select_correct ids (db st)) in
  let attemptId := Store.attempts_seq (db st) in
  ∃ st2,
    submit_answers e' (Some userId) attemptId (Some answers)
      (start_quiz e (Some userId) st).1 =
      (st2, Json 200 (message "Quiz submitted successfully!"))
    ∧ Store.attempts (db st2) =
        (Store.attempts (db st) ++
         [{| Attempts.id := attemptId; Attempts.user_id := Some userId;
             Attempts.shuffled_questions := ids;
             Attempts.status := "completed"; Attempts.score := Some score;
             Attempts.created_at := now e;
             Attempts.end_time := Some (now e') |}])%list
    ∧ 0 ≤ score ≤ QUIZ_LENGTH.
Proof.
  intros Hok Henough Hperm ids score attemptId.
  destruct Hok as [_ _ _ Hqid _ _ Habelow].
  destruct (take_quiz_length _ _ Hperm Hqid) as (Hlen & _ & _);
    [by rewrite length_map|]. fold ids in Hlen.
  rewrite start_quiz_enough by done. cbn [fst]. fold ids.
  set (attempt :=
    {| Attempts.id := attemptId; Attempts.user_id := Some userId;
       Attempts.shuffled_questions := ids; Attempts.status := "started";
       Attempts.score := None; Attempts.created_at := now e;
       Attempts.end_time := None |}).
  eexists. split.
  { rewrite (submit_answers_found e' _ (Some userId) attemptId answers
               attempt []).
    - reflexivity.
    - unfold Store.select_attempt. cbn [db Store.attempts].
      rewrite filter_app, filter_attempts_fresh by done.
      by rewrite filter_cons, decide_True.
    - simpl. intros Hnil. rewrite Hnil in Hlen. by vm_compute in Hlen. }
  cbn [db with_db Store.attempts Store.update_quiz_status Store.with_users
       Store.complete_attempt Store.with_attempts
       Attempts.shuffled_questions attempt].
  split.
  - rewrite map_app, complete_others_fresh by done. simpl.
    by rewrite bool_decide_true.
  - pose proof (compute_score_bounds ids answers
                  (Store.select_correct ids (db st))) as Hb.
    rewrite Hlen in Hb. unfold score. unfold QUIZ_LENGTH in *. lia.
Qed.

Lemma start_then_submit_witness :
  ∃ st2,
    submit_answers Sample.env0 (Some 5) 100 (Some Sample.quiz_answers)
      (start_quiz Sample.env0 (Some 5)
         (Sample.state_of [Sample.student 5 "s5@example.org" "unattempted"]
            (map (λ i, Sample.question (Z.of_nat i) "A") (seq 1 50)) [])).1 =
    (st2, Json 200 (message "Quiz submitted successfully!"))
    ∧ map Attempts.score (Store.attempts (db st2)) = [Some 1].
Proof.
  destruct (start_then_submit Sample.env0 Sample.env0 5 Sample.quiz_answers
              (Sample.state_of [Sample.student 5 "s5@example.org" "unattempted"]
                 (map (λ i, Sample.question (Z.of_nat i) "A") (seq 1 50)) []))
    as (st2 & Hsubmit & Hattempts & _).
  - constructor; simpl; compute_done.
  - vm_compute. discriminate.
  - reflexivity.
  - exists st2. split; [exact Hsubmit|]. rewrite Hattempts.
    vm_compute. reflexivity.
Defined.

(** X17.  After a submission that was scored, the student who made it is
    refused by login, 403 "Quiz already completed", whatever the password;
    the sessions are left as they are, so the session the student
    submitted with is still accepted by [isLoggedIn]. *)
Theorem scored_student_cannot_login_again
    (bcrypt_compare : string → string → bool) (e e' : env)
    (attemptId : Z) (answers : option (gmap Z json)) (st st' : state)
    (u : Users.row) (password : string) :
  NoDup (map Users.email (Store.users (db st))) →
  u ∈ Store.users (db st) →
  Users.role u = "student" →
  submit_answers e (Some (Users.id u)) attemptId answers st =
    (st', Json 200 (message "Quiz submitted successfully!")) →
  login bcrypt_compare e' (Users.email u) password st' =
    (st', Json 403 (message "Quiz already completed"))
  ∧ sessions st' = sessions st
  ∧ ∀ h, isLoggedIn h st' = isLoggedIn h st.
Proof.
  intros Hnd Hu Hrole [score ->]%submit_answers_scored.
  split; [|done].
  apply (login_refused _ _ _ _ _ (Users.set_quiz_status "completed" u));
    [|done|set_solver].
  apply (select_user_by_email_head _ (Users.set_quiz_status "completed" u)).
  - simpl. by rewrite (map_update_same Users.email).
  - simpl. by apply updated_user_elem_of.
Qed.

Lemma scored_student_cannot_login_again_witness :
  login LoginSample.compare_plain Sample.env0 "s5@example.org" "hash"
    (submit_answers Sample.env0 (Some 5) 7 (Some Sample.quiz_answers)
       Sample.quiz_state).1 =
  ((submit_answers Sample.env0 (Some 5) 7 (Some Sample.quiz_answers)
      Sample.quiz_state).1,
   Json 403 (message "Quiz already completed")).
Proof.
  refine (proj1 (scored_student_cannot_login_again LoginSample.compare_plain
    Sample.env0 Sample.env0 7 (Some Sample.quiz_answers) Sample.quiz_state _
    (Sample.student 5 "s5@example.org" "started") "hash" _ _ _ _)).
  - simpl. compute_done.
  - left.
  - reflexivity.
  - reflexivity.
Defined.

(** X18.  Start-quiz sets the caller's [quiz_status] to "started" whatever
    it was: a student whom login refused as "completed" or "disqualified",
    and who still holds a session, is accepted by login again after a
    start-quiz with enough questions. *)
Theorem start_quiz_reopens_login
    (bcrypt_compare : string → string → bool) (e e' : env) (st : state)
    (u : Users.row) (password : string) :
  NoDup (map Users.email (Store.users (db st))) →
  u ∈ Store.users (db st) →
  QUIZ_LENGTH ≤ Z.of_nat (length (Store.questions (db st))) →
  bcrypt_compare password (Users.password_hash u) = true →
  let st1 := (start_quiz e (Some (Users.id u)) st).1 in
  Users.set_quiz_status "started" u ∈ Store.users (db st1)
  ∧ (login bcrypt_compare e' (Users.email u) password st1).2 =
      Json 200 (JObj [("sessionId",
                       JStr (Access.session_id (Users.id u) (now e')));
                      ("role", JStr (Users.role u))]).
Proof.
  intros Hnd Hu Henough Hmatch st1. subst st1.
  rewrite start_quiz_enough by done. cbn [fst].
  split; [by apply updated_user_elem_of|].
  rewrite (login_success bcrypt_compare e' (Users.email u) password _
             (Users.set_quiz_status "started" u)); [done| | |done].
  - apply (select_user_by_email_head _ (Users.set_quiz_status "started" u)).
    + simpl. by rewrite (map_update_same Users.email).
    + simpl. by apply updated_user_elem_of.
  - intros [_ Hstatus]. revert Hstatus. simpl. compute_done.
Qed.

Lemma start_quiz_reopens_login_witness :
  let st :=
    Sample.state_of [Sample.student 5 "s5@example.org" "completed"]
      (map (λ i, Sample.question (Z.of_nat i) "A") (seq 1 50)) [] in
  (login LoginSample.compare_plain Sample.env0 "s5@example.org" "hash" st).2 =
    Json 403 (message "Quiz already completed")
  ∧ (login LoginSample.compare_plain Sample.env0 "s5@example.org" "hash"
       (start_quiz Sample.env0 (Some 5) st).1).2 =
    Json 200 (JObj [("sessionId",
                     JStr (Access.session_id 5 (now Sample.env0)));
                    ("role", JStr "student")]).
Proof.
  intros st. split; [reflexivity|].
  refine (proj2 (start_quiz_reopens_login LoginSample.compare_plain
    Sample.env0 Sample.env0 st
    (Sample.student 5 "s5@example.org" "completed") "hash" _ _ _ _)).
  - simpl. compute_done.
  - left.
  - vm_compute. discriminate.
  - reflexivity.
Defined.

(** ** The admin's metrics *)

Section MetricsFacts.
Implicit Types (d : Store.database).

Lemma filter_key_singleton (us : list Users.row) (uid : Z) :
  NoDup (map Users.id us) → uid ∈ map Users.id us →
  length (filter (λ u, Users.id u = uid) us) = 1%nat.
Proof.
  induction us as [|u us IH]; [by intros _ ?%elem_of_nil|].
  simpl. intros [Hu Hnd]%NoDup_cons Hin. rewrite filter_cons.
  case_decide as Hid.
  - subst uid. simpl. f_equal.
    assert (filter (λ u', Users.id u' = Users.id u) us = []) as ->; [|done].
    clear -Hu. induction us as [|u' us IH]; [done|].
    simpl in Hu. apply not_elem_of_cons in Hu as [Hne Hu].
    rewrite filter_cons, decide_False by done. by apply IH.
  - apply elem_of_cons in Hin as [->|Hin]; [done|]. by apply IH.
Qed.

Lemma filter_key_le (us : list Users.row) (uid : Z) :
  NoDup (map Users.id us) →
  (length (filter (λ u, Users.id u = uid) us) ≤ 1)%nat.
Proof.
  intros Hnd. destruct (decide (uid ∈ map Users.id us)) as [Hin|Hout].
  - by rewrite filter_key_singleton.
  - assert (filter (λ u, Users.id u = uid) us = []) as ->; [|simpl; lia].
    clear Hnd. induction us as [|u us IH]; [done|].
    simpl in Hout. apply not_elem_of_cons in Hout as [Hne Hout].
    rewrite filter_cons, decide_False by done. by apply IH.
Qed.

(** The users a row of [attempts] is joined with: at most one, none when
    [user_id] is NULL. *)
Lemma filter_owner (us : list Users.row) (owner : option Z) :
  filter (λ u, Some (Users.id u) = owner) us =
  match owner with
  | Some uid => filter (λ u, Users.id u = uid) us
  | None => []
  end.
Proof.
  destruct owner as [uid|].
  - apply list_filter_iff. intros u. split; [by intros [= ->]|by intros ->].
  - induction us as [|u us IH]; [done|]. by rewrite filter_cons, decide_False.
Qed.

Lemma length_join (ats : list Attempts.row) (us : list Users.row) :
  NoDup (map Users.id us) →
  (length (a ← ats; u ← filter (λ u, Some (Users.id u) = Attempts.user_id a) us;
           [(a, u)]) ≤ length ats)%nat
  ∧ (Forall (λ a, ∃ uid, Attempts.user_id a = Some uid
                         ∧ uid ∈ map Users.id us) ats →
     length (a ← ats; u ← filter (λ u, Some (Users.id u) = Attempts.user_id a) us;
             [(a, u)]) = length ats).
Proof.
  intros Hnd.
  assert (∀ a, length (u ← filter (λ u, Some (Users.id u) = Attempts.user_id a) us;
                       [(a, u)]) =
               length (filter (λ u, Some (Users.id u) = Attempts.user_id a) us))
    as Hrow.
  { intros a. induction (filter _ us) as [|u l IH]; [done|].
    rewrite bind_cons, length_app, IH. done. }
  induction ats as [|a ats [IHle IHeq]]; [done|].
  rewrite bind_cons, length_app, Hrow, filter_owner. simpl. split.
  - destruct (Attempts.user_id a) as [uid|]; [|simpl; lia].
    pose proof (filter_key_le us uid Hnd). lia.
  - intros [(uid & -> & Ha) Hats]%Forall_cons.
    rewrite filter_key_singleton by done. by rewrite IHeq.
Qed.

End MetricsFacts.

(** X19.  The admin's metrics reply 200 with the number of user rows, the
    number of question rows, the number of completed attempts and the
    results.  User ids being keys, the results never hold more rows than
    [completedQuizzes] says; under the invariant that the requests keep
    (every completed attempt belongs to a user of the table) the two
    numbers are equal: every completed attempt is in the results exactly
    once. *)
Theorem admin_metrics_counts (toISOString : Z → string) (st : state) :
  ∃ results,
    admin_metrics toISOString st =
      (st, Json 200
             (JObj [("totalParticipants",
                     JNum (Z.of_nat (length (Store.users (db st)))));
                    ("totalQuestions",
                     JNum (Z.of_nat (length (Store.questions (db st)))));
                    ("completedQuizzes",
                     JNum (Z.of_nat (length
                       (filter (λ a, Attempts.status a = "completed")
                          (Store.attempts (db st))))));
                    ("results", JArr results)]))
    ∧ (NoDup (map Users.id (Store.users (db st))) →
       (length results ≤
        length (filter (λ a, Attempts.status a = "completed")
                  (Store.attempts (db st))))%nat)
    ∧ (Keys.invariant st →
       length results =
       length (filter (λ a, Attempts.status a = "completed")
                 (Store.attempts (db st)))).
Proof.
  eexists. split; [reflexivity|].
  rewrite length_map. unfold admin_results, Store.select_completed_ordered.
  rewrite merge_sort_Permutation. unfold Store.completed_joined. split.
  - intros Hnd. by apply length_join.
  - intros [[Hnd _ _ _ _ _ _] [_ Hatt]]. apply length_join; [done|].
    apply Forall_forall. intros a [Hcompleted Ha]%list_elem_of_filter.
    rewrite Forall_forall in Hatt. specialize (Hatt a Ha).
    unfold Keys.owned in Hatt.
    destruct (Attempts.user_id a) as [uid|]; [eauto|done].
Qed.

(** X20.  What a student submits, the admin sees: after a submission that
    was scored, the results of the admin's metrics hold a row with the
    student's name and email, the score of the scoring loop, the time the
    attempt was created and the clock value of the submission as end
    time. *)
Theorem scored_submission_is_reported
    (toISOString : Z → string) (e : env) (attemptId : Z)
    (answers : gmap Z json) (st : state) (u : Users.row)
    (attempt : Attempts.row) (rest : list Attempts.row) :
  u ∈ Store.users (db st) →
  Store.select_attempt attemptId (Some (Users.id u)) "started" (db st)
    = attempt :: rest →
  Attempts.shuffled_questions attempt ≠ [] →
  let ids := Attempts.shuffled_questions attempt in
  let score := compute_score ids answers (Store.select_correct ids (db st)) in
  let st' :=
    (submit_answers e (Some (Users.id u)) attemptId (Some answers) st).1 in
  ∃ totals results,
    (admin_metrics toISOString st').2 =
      Json 200 (JObj (totals ++ [("results", JArr results)]))
    ∧ JObj [("full_name", JStr (Users.full_name u));
            ("email", JStr (Users.email u));
            ("score", JNum score);
            ("created_at", JStr (toISOString (Attempts.created_at attempt)));
            ("end_time", JStr (toISOString (now e)))] ∈ results.
Proof.
  intros Hu Hsel Hne ids score st'. subst st'.
  rewrite (submit_answers_found e st (Some (Users.id u)) attemptId answers
             attempt rest) by done.
  cbn [fst]. fold ids score.
  eexists [_; _; _], _. split; [reflexivity|].
  apply list_elem_of_fmap.
  exists (Attempts.complete score (now e) attempt,
          Users.set_quiz_status "completed" u).
  split; [done|].
  unfold admin_results, Store.select_completed_ordered.
  rewrite merge_sort_Permutation. apply elem_of_completed_joined.
  assert (attempt ∈ Store.select_attempt attemptId (Some (Users.id u))
                      "started" (db st)) as Hin by (rewrite Hsel; left).
  apply list_elem_of_filter in Hin as [(Hid & [_ Huser] & _) Hin].
  cbn [fst snd db with_db Store.attempts Store.users Store.update_quiz_status
       Store.with_users Store.complete_attempt Store.with_attempts].
  split.
  { apply list_elem_of_fmap. exists attempt. split; [|done].
    by rewrite bool_decide_true. }
  split; [done|]. split; [by apply updated_user_elem_of|]. done.
Qed.

Lemma scored_submission_is_reported_witness :
  ∃ totals results,
    (admin_metrics Staff.iso
       (submit_answers Sample.env0 (Some 5) 7 (Some Sample.quiz_answers)
          Staff.state0).1).2 =
      Json 200 (JObj (totals ++ [("results", JArr results)]))
    ∧ JObj [("full_name", JStr "Student");
            ("email", JStr "s5@example.org");
            ("score", JNum 2);
            ("created_at", JStr (Staff.iso 1699999990000));
            ("end_time", JStr (Staff.iso (now Sample.env0)))] ∈ results.
Proof.
  apply (scored_submission_is_reported Staff.iso Sample.env0 7
           Sample.quiz_answers Staff.state0
           (Sample.student 5 "s5@example.org" "started")
           (Sample.started_attempt 7 5 [1; 2; 3]) []).
  - right. left.
  - reflexivity.
  - discriminate.
Defined.

(** X21.  [GET /questions] asks for nothing but to pass [isLoggedIn]: any
    caller who does, whatever the role and with or without an attempt,
    who asks for the id of a question, gets 200 with the public fields of
    that question and the state is left as it is.  (Question ids being
    keys; the id not zero.) *)
Theorem any_session_reads_a_question
    (bcrypt_hash : string → string → string)
    (bcrypt_compare : string → string → bool) (toISOString : Z → string)
    (e : env) (h : headers) (c : caller) (st : state) (q : Questions.row) :
  isLoggedIn h st = inr c →
  NoDup (map Questions.id (Store.questions (db st))) →
  q ∈ Store.questions (db st) →
  Questions.id q ≠ 0 →
  handle bcrypt_hash bcrypt_compare toISOString e
    (Questions h (Some (pretty (Questions.id q)))) st =
  (st, Json 200 (JArr [view_json (Questions.to_view q)])).
Proof.
  intros Hs Hnd Hq Hid. unfold handle, logged_in, questions.
  rewrite Hs.
  assert (parse_ids (pretty (Questions.id q)) = [Questions.id q]) as ->.
  { unfold parse_ids. destruct (parseInt_pretty (Questions.id q)) as [-> Hp].
    simpl. rewrite Hp. simpl. by rewrite (proj2 (Z.eqb_neq _ _) Hid). }
  do 3 f_equal. unfold questions_body, filter_Boolean_rows, ordered.
  simpl.
  assert (find (λ q0, bool_decide (Questions.v_id q0 = Questions.id q))
            (Store.select_views [Questions.id q] (db st))
          = Some (Questions.to_view q)) as ->; [|done].
  unfold Store.select_views. clear Hs.
  induction (Store.questions (db st)) as [|q' qs IH]; [by apply elem_of_nil in Hq|].
  simpl in Hnd. apply NoDup_cons in Hnd as [Hq' Hnd].
  rewrite filter_cons. apply elem_of_cons in Hq as [<-|Hq].
  - rewrite decide_True by left. simpl. by rewrite bool_decide_true.
  - assert (Questions.id q' ≠ Questions.id q) as Hne.
    { intros Heq. apply Hq'. rewrite Heq. apply list_elem_of_fmap. eauto. }
    rewrite decide_False; [by apply IH|].
    by intros ?%list_elem_of_singleton.
Qed.

Lemma any_session_reads_a_question_witness :
  handle Staff.hash_plain LoginSample.compare_plain Staff.iso Sample.env0
    (Questions (Access.with_header "s_1_10") (Some "2")) Staff.state0 =
  (Staff.state0,
   Json 200 (JArr [view_json (Questions.to_view (Sample.question 2 "B"))])).
Proof.
  apply (any_session_reads_a_question Staff.hash_plain
           LoginSample.compare_plain Staff.iso Sample.env0
           (Access.with_header "s_1_10")
           (stored {| userId := 1; role := "admin" |})
           Staff.state0 (Sample.question 2 "B")).
  - vm_compute. reflexivity.
  - simpl. compute_done.
  - right. left.
  - discriminate.
Defined.

(** ** Session ids that name an inherited property *)

Lemma inherited_name_nonempty (sessionId : string) :
  sessionId ∈ Object_prototype → falsy_string sessionId = false.
Proof.
  unfold Object_prototype. intros Hin.
  repeat (apply elem_of_cons in Hin as [-> |Hin]; [done|]).
  by apply elem_of_nil in Hin.
Qed.

(** X22.  [sessions] is a plain object: a session id that is the name of a
    property it inherits from [Object.prototype] ([constructor],
    [__proto__], [toString], ...), and under which login has stored
    nothing, passes [isLoggedIn], in the header as well as in the query,
    with [req.userId] and [req.userRole] undefined.  With such an id the
    routes behind [isAdmin] reply 403 and change nothing, submit-answers
    replies "Quiz already submitted." and changes nothing, [GET /questions]
    replies as to any session, and start-quiz, with enough questions,
    replies 200 and stores a "started" attempt that has no owner; no user
    row and no session changes. *)
Theorem inherited_name_passes_isLoggedIn
    (bcrypt_hash : string → string → string)
    (bcrypt_compare : string → string → bool) (toISOString : Z → string)
    (e : env) (st : state) (sessionId : string) :
  sessionId ∈ Object_prototype → sessions st !! sessionId = None →
  let h := Access.with_header sessionId in
  let handle := handle bcrypt_hash bcrypt_compare toISOString e in
  isLoggedIn h st = inr inherited
  ∧ isLoggedIn (Access.with_query sessionId) st = inr inherited
  ∧ (∀ r, Access.admin_route r = Some h →
       handle r st = (st, Json 403 (message "Admin access required")))
  ∧ (∀ attemptId answers,
       handle (SubmitAnswers h attemptId answers) st =
         (st, Json 200 (message "Quiz already submitted.")))
  ∧ (∀ ids, handle (Questions h ids) st = questions ids st)
  ∧ (QUIZ_LENGTH ≤ Z.of_nat (length (Store.questions (db st))) →
     ∃ st' ids,
       handle (StartQuiz h) st =
         (st', Json 200 (JObj [("attemptId", JNum (Store.attempts_seq (db st)));
                               ("questionIds", JArr (map JNum ids))]))
       ∧ Store.attempts (db st') =
           (Store.attempts (db st) ++
            [{| Attempts.id := Store.attempts_seq (db st);
                Attempts.user_id := None;
                Attempts.shuffled_questions := ids;
                Attempts.status := "started"; Attempts.score := None;
                Attempts.created_at := now e;
                Attempts.end_time := None |}])%list
       ∧ Store.users (db st') = Store.users (db st)
       ∧ sessions st' = sessions st).
Proof.
  intros Hin Hnone h handle.
  assert (falsy_string sessionId = false) as Hfalsy
    by by apply inherited_name_nonempty.
  assert (isLoggedIn h st = inr inherited) as Hlogged.
  { unfold h. rewrite isLoggedIn_with_header by done.
    by rewrite sessions_get_inherited. }
  split; [done|]. split.
  { rewrite isLoggedIn_with_query by done. by rewrite sessions_get_inherited. }
  split.
  { intros r Hr. by apply (handle_not_admin _ _ _ e r st h inherited). }
  split.
  { intros attemptId answers. unfold handle. cbn [Server.handle].
    unfold logged_in. rewrite Hlogged. cbn [req_userId inherited].
    unfold submit_answers. by rewrite select_attempt_null. }
  split.
  { intros ids. unfold handle. cbn [Server.handle]. unfold logged_in.
    by rewrite Hlogged. }
  intros Henough. unfold handle. cbn [Server.handle]. unfold logged_in.
  rewrite Hlogged. cbn [req_userId inherited].
  rewrite start_quiz_enough by done. cbn zeta.
  eexists _, _. split; [reflexivity|].
  cbn [db Store.attempts Store.users sessions].
  split; [done|]. split; [|done].
  induction (Store.users (db st)) as [|u us IH]; [done|].
  simpl. by f_equal.
Qed.

Lemma inherited_name_passes_isLoggedIn_witness :
  isLoggedIn (Access.with_header "constructor") Staff.state0 = inr inherited
  ∧ handle Staff.hash_plain LoginSample.compare_plain Staff.iso Sample.env0
      (AdminQuestionsDelete (Access.with_header "constructor") 1) Staff.state0 =
    (Staff.state0, Json 403 (message "Admin access required")).
Proof.
  destruct (inherited_name_passes_isLoggedIn Staff.hash_plain
              LoginSample.compare_plain Staff.iso Sample.env0 Staff.state0
              "constructor") as (Hlogged & _ & Hadmin & _).
  - compute_done.
  - vm_compute. reflexivity.
  - split; [exact Hlogged|]. by apply Hadmin.
Defined.

(** ** The random selection of start-quiz *)

Section ShuffleFacts.
Implicit Types (st : state) (e : env) (pool : list Z).

Lemma length_draws bits calls :
  length (Shuffle.draws bits calls) = (2 ^ (bits * calls))%nat.
Proof.
  induction calls as [|calls IH]; simpl.
  - by rewrite Nat.mul_0_r.
  - assert (∀ l : list nat,
              length (k ← l; map (cons k) (Shuffle.draws bits calls)) =
              (length l * length (Shuffle.draws bits calls))%nat) as Hbind.
    { induction l as [|k l IHl]; [done|].
      rewrite bind_cons, length_app, length_map, IHl. simpl. lia. }
    rewrite Hbind, length_seq, IH, <- Nat.pow_add_r. f_equal. lia.
Qed.

(** A power of two is no multiple of three. *)
Lemma pow2_mod3 (m : nat) : (2 ^ m mod 3 ≠ 0)%nat.
Proof.
  induction m as [|m IH]; [done|].
  rewrite Nat.pow_succ_r'. generalize dependent (2 ^ m)%nat. intros x Hx.
  rewrite <- Nat.Div0.mul_mod_idemp_r.
  pose proof (Nat.mod_upper_bound x 3).
  destruct (x mod 3)%nat as [|[|[|]]]; [done| | |lia]; done.
Qed.

Lemma pow2_not_51 (m c : nat) : (51 * c ≠ 2 ^ m)%nat.
Proof.
  intros Heq. apply (pow2_mod3 m). rewrite <- Heq.
  change 51%nat with (17 * 3)%nat.
  rewrite <- Nat.mul_assoc, (Nat.mul_comm 3), Nat.mul_assoc.
  apply Nat.Div0.mod_mul.
Qed.

(** With [QUIZ_LENGTH] questions or more the ids that are stored are the
    first [QUIZ_LENGTH] of the reordered pool. *)
Lemma selection_take e userId st :
  QUIZ_LENGTH ≤ Z.of_nat (length (Store.questions (db st))) →
  Shuffle.selection e userId st =
  take (Z.to_nat QUIZ_LENGTH)
    (sort_random e (map Questions.id (Store.questions (db st)))).
Proof.
  intros Henough. unfold Shuffle.selection.
  rewrite start_quiz_enough by done. cbn [fst db Store.attempts].
  by rewrite last_snoc.
Qed.

(** Counting the elements of a list by the class they fall in. *)
Lemma length_filter_cons_class {D} (g : D → Z) (l : list D) y pool :
  y ∉ pool →
  length (filter (λ d, g d ∈ y :: pool) l) =
  (length (filter (λ d, g d = y) l) + length (filter (λ d, g d ∈ pool) l))%nat.
Proof.
  intros Hy. induction l as [|d l IH]; [done|].
  rewrite !filter_cons.
  destruct (decide (g d = y)) as [Heq|Hne].
  - rewrite decide_True by (rewrite Heq; left).
    rewrite (decide_False (P := g d ∈ pool)) by by rewrite Heq.
    simpl. by rewrite IH.
  - destruct (decide (g d ∈ pool)) as [Hin|Hout].
    + rewrite decide_True by by right. simpl. rewrite IH. lia.
    + rewrite decide_False; [done|].
      by intros [?|?]%elem_of_cons.
Qed.

Lemma length_filter_classes {D} (g : D → Z) (l : list D) pool (c : nat) :
  NoDup pool →
  (∀ y, y ∈ pool → length (filter (λ d, g d = y) l) = c) →
  length (filter (λ d, g d ∈ pool) l) = (length pool * c)%nat.
Proof.
  induction 1 as [|y pool Hy Hnd IH]; intros Hc.
  - simpl. clear Hc. induction l as [|d l IHl]; [done|].
    rewrite filter_cons, decide_False; [done|]. apply not_elem_of_nil.
  - rewrite length_filter_cons_class by done.
    rewrite Hc by left. rewrite IH; [simpl; lia|].
    intros y' Hy'. apply Hc. by right.
Qed.

(** Slicing off the last id of a list of distinct ids: the set of the ids
    that are kept tells which id was left out. *)
Lemma take_all_but_last (p : list Z) (n : nat) (y : Z) :
  NoDup p → length p = S n → y ∈ p →
  list_to_set (take n p) = (list_to_set p : gset Z) ∖ {[y]} ↔ last p = Some y.
Proof.
  intros Hnd Hlen Hy.
  destruct (last p) as [x|] eqn:Hlast.
  2:{ apply last_None in Hlast. by subst p. }
  apply last_Some in Hlast as [p' ->].
  rewrite length_app in Hlen. simpl in Hlen.
  rewrite take_app_length' by lia.
  apply NoDup_app in Hnd as (_ & Hx & _).
  assert (x ∉ p') as Hx' by (intros Hin; apply (Hx x Hin); left).
  rewrite list_to_set_app_L. simpl. split.
  - intros Heq. f_equal.
    destruct (decide (x = y)) as [|Hne]; [done|]. exfalso.
    apply elem_of_app in Hy as [Hy|Hy%list_elem_of_singleton]; [|done].
    assert (y ∈ (list_to_set p' : gset Z)) as Hin by by apply elem_of_list_to_set.
    rewrite Heq in Hin. apply elem_of_difference in Hin as [_ Hin].
    apply Hin. by apply elem_of_singleton.
  - intros [= <-].
    apply set_eq. intros z. rewrite elem_of_difference, elem_of_union,
      !elem_of_list_to_set, elem_of_singleton, elem_of_union, elem_of_empty,
      elem_of_singleton.
    split.
    + intros Hz. split; [by left|]. by intros ->.
    + intros [[?|[?|?]] ?]; done.
Qed.

Lemma elem_of_length_S {A} (l : list A) (n : nat) :
  length l = S n → ∃ y, y ∈ l.
Proof. destruct l as [|y l]; [done|]. intros _. exists y. left. Qed.

End ShuffleFacts.

Section ShuffleEngine.
Variable bits calls : nat.
Variable sort : list Z → list Z → list Z.
Variable e : env.
Variable userId : option Z.
Variable st : state.

Local Abbreviation pool := (map Questions.id (Store.questions (db st))).
Local Abbreviation favourable :=
  (Shuffle.favourable bits calls sort e userId st).

Hypothesis pool_keys : NoDup pool.
Hypothesis pool_size : length pool = S (Z.to_nat QUIZ_LENGTH).
Hypothesis sort_permutes : ∀ results, sort results pool ≡ₚ pool.

(** The id that a sequence of draws leaves out. *)
Let left_out (ds : list nat) : Z :=
  default 0 (last (sort (map (Shuffle.comparator bits) ds) pool)).

Lemma enough_questions :
  QUIZ_LENGTH ≤ Z.of_nat (length (Store.questions (db st))).
Proof. rewrite length_map in pool_size. unfold QUIZ_LENGTH in *. lia. Qed.

Lemma left_out_pool ds : left_out ds ∈ pool.
Proof.
  unfold left_out. set (p := sort (map (Shuffle.comparator bits) ds) pool).
  assert (p ≡ₚ pool) as Hperm by apply sort_permutes.
  destruct (last p) as [x|] eqn:Hlast.
  - apply last_Some in Hlast as [p' Hp]. simpl.
    rewrite <- Hperm, Hp. apply elem_of_app. right. left.
  - apply last_None in Hlast.
    pose proof (Permutation_length Hperm) as Hlen.
    rewrite Hlast, pool_size in Hlen. done.
Qed.

(** Selecting all the ids but [y] is leaving [y] out. *)
Lemma favourable_left_out y :
  y ∈ pool →
  favourable (list_to_set pool ∖ {[y]}) =
  length (filter (λ ds, left_out ds = y) (Shuffle.draws bits calls)).
Proof.
  intros Hy. unfold Shuffle.favourable. f_equal.
  apply list_filter_iff. intros ds.
  rewrite selection_take by apply enough_questions.
  cbn [sort_random Shuffle.env_of].
  set (p := sort (map (Shuffle.comparator bits) ds) pool).
  assert (p ≡ₚ pool) as Hperm by apply sort_permutes.
  assert (list_to_set pool = (list_to_set p : gset Z)) as ->.
  { apply set_eq. intros z. rewrite !elem_of_list_to_set. by rewrite Hperm. }
  rewrite take_all_but_last;
    [|by rewrite Hperm|by rewrite Hperm|by rewrite Hperm].
  unfold left_out. fold p. split; [by intros ->|].
  destruct (last p) as [x|] eqn:Hlast; [by intros <-|].
  apply last_None in Hlast.
  pose proof (Permutation_length Hperm) as Hlen.
  rewrite Hlast, pool_size in Hlen. done.
Qed.

Lemma selection_subset ds :
  let ids := Shuffle.selection (Shuffle.env_of bits sort e ds) userId st in
  length ids = Z.to_nat QUIZ_LENGTH ∧ NoDup ids ∧ ∀ id, id ∈ ids → id ∈ pool.
Proof.
  rewrite selection_take by apply enough_questions.
  apply take_quiz_length; [apply sort_permutes|done|].
  rewrite pool_size. lia.
Qed.

Lemma favourable_not_uniform chosen :
  (length pool * favourable chosen ≠ length (Shuffle.draws bits calls))%nat.
Proof.
  rewrite pool_size, length_draws. apply pow2_not_51.
Qed.

Lemma favourable_differ :
  ∃ y1 y2, y1 ∈ pool ∧ y2 ∈ pool
    ∧ favourable (list_to_set pool ∖ {[y1]})
      ≠ favourable (list_to_set pool ∖ {[y2]}).
Proof.
  destruct (elem_of_length_S _ _ pool_size) as [y0 Hy0].
  set (c := favourable (list_to_set pool ∖ {[y0]})).
  destruct (decide (Forall (λ y, favourable (list_to_set pool ∖ {[y]}) = c) pool))
    as [Hall|Hsome].
  - exfalso. apply (favourable_not_uniform (list_to_set pool ∖ {[y0]})).
    fold c. rewrite Forall_forall in Hall.
    rewrite <- (length_filter_classes left_out (Shuffle.draws bits calls) pool c);
      [|done|].
    + f_equal. apply filter_all. intros ds _. apply left_out_pool.
    + intros y Hy. rewrite <- favourable_left_out by done. by apply Hall.
  - apply not_Forall_Exists in Hsome; [|apply _].
    apply Exists_exists in Hsome as (y & Hy & Hne).
    exists y, y0. done.
Qed.

End ShuffleEngine.

Lemma insert_by_Permutation (x : Z) (sorted results : list Z) :
  (Shuffle.insert_by x sorted results).1 ≡ₚ x :: sorted.
Proof.
  revert results. induction sorted as [|y sorted IH]; intros results; [done|].
  simpl. destruct results as [|r results]; [done|].
  destruct (0 <? r); [|done].
  specialize (IH results). destruct (Shuffle.insert_by x sorted results).
  simpl in *. rewrite IH. apply perm_swap.
Qed.

Lemma insertion_sort_Permutation (results l : list Z) :
  Shuffle.insertion_sort results l ≡ₚ l.
Proof.
  unfold Shuffle.insertion_sort.
  assert (∀ acc : list Z * list Z,
            (fold_left (λ acc x, Shuffle.insert_by x acc.1 acc.2) l acc).1
            ≡ₚ acc.1 ++ l) as Hfold.
  { induction l as [|x l IH]; intros acc; simpl; [by rewrite app_nil_r|].
    rewrite IH, insert_by_Permutation. simpl. apply Permutation_middle. }
  apply Hfold.
Qed.

(** C4, the uniformity it claims.  The questions table holds
    [QUIZ_LENGTH + 1] rows with distinct ids, so that there are
    [QUIZ_LENGTH + 1] sets of [QUIZ_LENGTH] ids to select, one for each id
    left out.  Whatever comparison sort the engine runs, as long as it
    leaves a permutation of the array, and whatever the number of bits of
    a draw and of comparator calls of a sort: start-quiz always selects
    [QUIZ_LENGTH] distinct ids of the pool, but no set of ids is selected
    with probability [1 / (QUIZ_LENGTH + 1)] (the number of sequences of
    draws is a power of two, and 51 times the number of favourable ones
    is not), and there are two sets of [QUIZ_LENGTH] ids of the pool that
    are not selected with the same probability.  The selection is not
    uniform. *)
Theorem start_quiz_selection_not_uniform
    (bits calls : nat) (sort : list Z → list Z → list Z)
    (e : env) (userId : option Z) (st : state) :
  let pool := map Questions.id (Store.questions (db st)) in
  let favourable := Shuffle.favourable bits calls sort e userId st in
  NoDup pool → length pool = S (Z.to_nat QUIZ_LENGTH) →
  (∀ results, sort results pool ≡ₚ pool) →
  (∀ ds,
     let ids := Shuffle.selection (Shuffle.env_of bits sort e ds) userId st in
     length ids = Z.to_nat QUIZ_LENGTH ∧ NoDup ids ∧ ∀ id, id ∈ ids → id ∈ pool)
  ∧ length (Shuffle.draws bits calls) = (2 ^ (bits * calls))%nat
  ∧ (∀ chosen,
       (length pool * favourable chosen ≠ length (Shuffle.draws bits calls))%nat)
  ∧ ∃ chosen1 chosen2 : gset Z,
      chosen1 ⊆ list_to_set pool ∧ chosen2 ⊆ list_to_set pool
      ∧ size chosen1 = Z.to_nat QUIZ_LENGTH
      ∧ size chosen2 = Z.to_nat QUIZ_LENGTH
      ∧ favourable chosen1 ≠ favourable chosen2.
Proof.
  intros pool favourable Hnd Hsize Hperm.
  split; [by apply selection_subset|].
  split; [apply length_draws|].
  split; [by apply favourable_not_uniform|].
  destruct (favourable_differ bits calls sort e userId st Hnd Hsize Hperm)
    as (y1 & y2 & Hy1 & Hy2 & Hne).
  assert (∀ y, y ∈ pool →
            size ((list_to_set pool : gset Z) ∖ {[y]}) = Z.to_nat QUIZ_LENGTH)
    as Hone.
  { intros y Hy. rewrite size_difference.
    - rewrite size_list_to_set, size_singleton, Hsize by done. lia.
    - apply singleton_subseteq_l. by apply elem_of_list_to_set. }
  exists (list_to_set pool ∖ {[y1]}), (list_to_set pool ∖ {[y2]}).
  split; [apply subseteq_difference_l; done|].
  split; [apply subseteq_difference_l; done|].
  split; [by apply Hone|]. split; [by apply Hone|]. done.
Qed.

Lemma start_quiz_selection_not_uniform_witness :
  (∀ chosen,
     (51 * Shuffle.favourable 53 1275 Shuffle.insertion_sort Sample.env0
             (Some 5%Z) Shuffle.pool51 chosen
      ≠ length (Shuffle.draws 53 1275))%nat)
  ∧ ∃ chosen1 chosen2 : gset Z,
      size chosen1 = 50%nat ∧ size chosen2 = 50%nat
      ∧ Shuffle.favourable 53 1275 Shuffle.insertion_sort Sample.env0
          (Some 5) Shuffle.pool51 chosen1
        ≠ Shuffle.favourable 53 1275 Shuffle.insertion_sort Sample.env0
            (Some 5) Shuffle.pool51 chosen2.
Proof.
  destruct (start_quiz_selection_not_uniform 53 1275 Shuffle.insertion_sort
              Sample.env0 (Some 5) Shuffle.pool51)
    as (_ & _ & Hnot & chosen1 & chosen2 & _ & _ & H1 & H2 & Hne).
  - compute_done.
  - reflexivity.
  - intros results. apply insertion_sort_Permutation.
  - split; [exact Hnot|]. exists chosen1, chosen2. split; [exact H1|].
    split; [exact H2|exact Hne].
Defined.
